(** * GitLab token monitor: classification and aggregation of access tokens

    A shallow embedding of [token_analyzer.py], of the orchestration in
    [main.py], of the token fetchers of [gitlab_api.py] and of the legacy
    [check_token_expiration] of [gitlab_token_monitoring.py].

    Token records are Python dictionaries that the code mutates in place and
    shares between the input list and the category buckets, so records live
    on a heap and lists hold references.  Clock reads, console output, HTTP
    answers and mail delivery are components of an explicit world state that
    a small state-and-exception monad threads through the code. *)

From Stdlib Require Import ZArith Floats Ascii String Permutation.
From stdpp Require Import base gmap strings list.

Set Warnings "-register-all".

Local Open Scope string_scope.
Local Open Scope list_scope.
Local Open Scope Z_scope.

(** ** Python values *)

(** The values a decoded JSON document is made of. *)
Inductive pyval : Type :=
| PNone
| PBool (b : bool)
| PInt (n : Z)
| PFloat (x : float)
| PStr (s : string)
| PList (items : list pyval)
| PDict (entries : list (string * pyval)).

(** [bool(v)]: the truth value Python gives to [v] in [if] and [not]. *)
Definition truthy (v : pyval) : bool :=
  match v with
  | PNone => false
  | PBool b => b
  | PInt n => negb (n =? 0)
  | PFloat x => negb (PrimFloat.eqb x 0%float)
  | PStr s => match s with EmptyString => false | String _ _ => true end
  | PList items => match items with [] => false | _ :: _ => true end
  | PDict entries => match entries with [] => false | _ :: _ => true end
  end.

(** [v == s] for a string literal [s]. *)
Definition eq_str (v : pyval) (s : string) : bool :=
  match v with
  | PStr s' => String.eqb s' s
  | _ => false
  end.

(** [s.replace(old, new)] for a one-character [old]. *)
Fixpoint str_replace (old : ascii) (new : string) (s : string) : string :=
  match s with
  | EmptyString => EmptyString
  | String c rest =>
      if Ascii.eqb c old then String.append new (str_replace old new rest)
      else String c (str_replace old new rest)
  end.

Inductive exn : Type :=
| ValueError (msg : string)
| AttributeError (attr : string)
| KeyError (key : string)
| TypeError
| OverflowError
| RequestException
| SystemError.   (* a reference to no object; unreachable from a well-formed heap *)

(** ** [datetime] and [timedelta] *)

(** A [datetime] is its wall-clock fields, counted in microseconds from
    0001-01-01T00:00:00, and an optional UTC offset (microseconds); [None]
    is a naive datetime. *)
Record datetime : Type := DateTime { wall : Z; tzinfo : option Z }.

(** A [timedelta] is a signed count of microseconds. *)
Record timedelta : Type := TimeDelta { total_us : Z }.

Definition usec_per_day : Z := 86400000000.

(** [datetime.max] is 9999-12-31T23:59:59.999999, day 3652058 from day 0. *)
Definition max_wall : Z := 3652059 * usec_per_day - 1.

Definition max_delta_days : Z := 999999999.

(** [timedelta(days=d)] *)
Definition timedelta_of_days (d : Z) : exn + timedelta :=
  if max_delta_days <? Z.abs d then inl OverflowError
  else inr (TimeDelta (d * usec_per_day)).

(** [delta.days]: Python normalises a timedelta to [0 <= seconds < 86400]
    and [0 <= microseconds < 1000000], which leaves the floor in [days]. *)
Definition days (delta : timedelta) : Z := total_us delta / usec_per_day.

(** [t + delta] *)
Definition datetime_add (t : datetime) (delta : timedelta) : exn + datetime :=
  let w := wall t + total_us delta in
  if (w <? 0) || (max_wall <? w) then inl OverflowError
  else inr (DateTime w (tzinfo t)).

(** [a - b]: naive with naive by wall clock, aware with aware by instant. *)
Definition datetime_sub (a b : datetime) : exn + timedelta :=
  match tzinfo a, tzinfo b with
  | None, None => inr (TimeDelta (wall a - wall b))
  | Some oa, Some ob => inr (TimeDelta ((wall a - oa) - (wall b - ob)))
  | _, _ => inl TypeError
  end.

(** [a <= b] *)
Definition datetime_le (a b : datetime) : exn + bool :=
  match tzinfo a, tzinfo b with
  | None, None => inr (wall a <=? wall b)
  | Some oa, Some ob => inr (wall a - oa <=? wall b - ob)
  | _, _ => inl TypeError
  end.

(** [t.replace(tzinfo=None)] *)
Definition replace_tzinfo_None (t : datetime) : datetime :=
  DateTime (wall t) None.

(** ** Heap, analysis dictionaries and the world *)

Definition loc : Type := positive.

Abbreviation pydict := (gmap string pyval).

(** The dictionary [analyze_all_tokens] returns and [run_monitoring]
    accumulates: the four buckets hold references to token records.
    [include_all_tokens] is the key [_print_summary_and_notify] adds. *)
Record analysis : Type := Analysis {
  expiring_soon : list loc;
  expired : list loc;
  healthy : list loc;
  no_expiration : list loc;
  total_count : Z;
  include_all_tokens : option bool
}.

(** A printed line, kept as the pieces of its f-string. *)
Inductive fragment : Type :=
| Lit (s : string)
| Val (v : pyval)
| Num (n : Z)
| Exc (e : exn).

(** What the GitLab server answers; [None] is a [RequestException]. *)
Record server : Type := Server {
  personal_access_tokens : option (list pydict);
  all_projects : list pydict;
  project_access_tokens : pyval -> option (list pydict);
  all_groups : list pydict;
  group_access_tokens : pyval -> option (list pydict)
}.

Record world : Type := World {
  heap : gmap loc pydict;
  clock : nat -> Z;          (* the k-th read of the system clock *)
  ticks : nat;               (* clock reads made so far *)
  stdout : list (list fragment);
  gitlab : server;
  outbox : list analysis     (* reports handed to the mail transport *)
}.

Definition set_heap (f : gmap loc pydict -> gmap loc pydict) (w : world) : world :=
  World (f (heap w)) (clock w) (ticks w) (stdout w) (gitlab w) (outbox w).

(** ** The monad: state and exceptions *)

Inductive outcome (A : Type) : Type :=
| Ret (a : A)
| Raise (e : exn).
Arguments Ret {A} a.
Arguments Raise {A} e.

Definition M (A : Type) : Type := world -> outcome A * world.

Definition ret {A} (a : A) : M A := fun w => (Ret a, w).

Definition raise {A} (e : exn) : M A := fun w => (Raise e, w).

Definition bind {A B} (m : M A) (k : A -> M B) : M B :=
  fun w =>
    match m w with
    | (Ret a, w') => k a w'
    | (Raise e, w') => (Raise e, w')
    end.

Notation "'let*' x ':=' m 'in' k" := (bind m (fun x => k))
  (at level 10, x name, m at level 100, k at level 200).
Notation "m ';;' k" := (bind m (fun _ => k))
  (at level 100, k at level 200, right associativity).

Definition lift {A} (r : exn + A) : M A :=
  match r with
  | inl e => raise e
  | inr a => ret a
  end.

(** [try: body except E as e: handler e]; [handler] answers [None] for the
    exceptions the clause does not name. *)
Definition try_except {A} (body : M A) (handler : exn -> option (M A)) : M A :=
  fun w =>
    match body w with
    | (Ret a, w') => (Ret a, w')
    | (Raise e, w') =>
        match handler e with
        | Some h => h w'
        | None => (Raise e, w')
        end
    end.

(** [for x in xs: body], threading the local variables [s] of the loop. *)
Fixpoint for_each {A S} (xs : list A) (body : A -> S -> M S) (s : S) : M S :=
  match xs with
  | [] => ret s
  | x :: rest => let* s' := body x s in for_each rest body s'
  end.

(** [datetime.now()]: the next reading of the system clock, naive. *)
Definition datetime_now : M datetime :=
  fun w =>
    (Ret (DateTime (clock w (ticks w)) None),
     World (heap w) (clock w) (S (ticks w)) (stdout w) (gitlab w) (outbox w)).

Definition print (l : list fragment) : M unit :=
  fun w =>
    (Ret tt,
     World (heap w) (clock w) (ticks w) (stdout w ++ [l]) (gitlab w) (outbox w)).

(** [d.get(key, dflt)] on the record at [l] *)
Definition dict_get (l : loc) (key : string) (dflt : pyval) : M pyval :=
  fun w =>
    match heap w !! l with
    | Some d => (Ret (default dflt (d !! key)), w)
    | None => (Raise SystemError, w)
    end.

(** [d[key]] *)
Definition dict_getitem (l : loc) (key : string) : M pyval :=
  fun w =>
    match heap w !! l with
    | Some d =>
        match d !! key with
        | Some v => (Ret v, w)
        | None => (Raise (KeyError key), w)
        end
    | None => (Raise SystemError, w)
    end.

(** [d[key] = v] *)
Definition dict_setitem (l : loc) (key : string) (v : pyval) : M unit :=
  fun w =>
    match heap w !! l with
    | Some d => (Ret tt, set_heap <[l := <[key := v]> d]> w)
    | None => (Raise SystemError, w)
    end.

(** [len(l)] *)
Definition len {A} (l : list A) : Z := Z.of_nat (length l).

(** [v.replace(old, new)]: only [str] has the method among JSON values. *)
Definition replace_method (v : pyval) (old : ascii) (new : string) : M string :=
  match v with
  | PStr s => ret (str_replace old new s)
  | _ => raise (AttributeError "replace")
  end.

(** [[t for t in ts if cond(t)]] *)
Definition comprehension (ts : list loc) (cond : loc -> M bool) : M (list loc) :=
  for_each ts (fun t (acc : list loc) =>
    let* keep := cond t in
    if keep then ret (acc ++ [t]) else ret acc) [].

(** The dictionary [group_tokens_by_type] returns. *)
Record token_groups : Type := TokenGroups {
  personal : list loc;
  project : list loc;
  group : list loc
}.

(** ** token_analyzer.py *)

Definition append_expiring_soon (l : loc) (r : analysis) : analysis :=
  Analysis (expiring_soon r ++ [l]) (expired r) (healthy r) (no_expiration r)
           (total_count r) (include_all_tokens r).

Definition append_expired (l : loc) (r : analysis) : analysis :=
  Analysis (expiring_soon r) (expired r ++ [l]) (healthy r) (no_expiration r)
           (total_count r) (include_all_tokens r).

Definition append_healthy (l : loc) (r : analysis) : analysis :=
  Analysis (expiring_soon r) (expired r) (healthy r ++ [l]) (no_expiration r)
           (total_count r) (include_all_tokens r).

Definition append_no_expiration (l : loc) (r : analysis) : analysis :=
  Analysis (expiring_soon r) (expired r) (healthy r) (no_expiration r ++ [l])
           (total_count r) (include_all_tokens r).

(** The dictionary [get_summary_stats] returns. *)
Record summary_stats : Type := SummaryStats {
  total_tokens : Z;
  expired_count : Z;
  expiring_count : Z;
  healthy_count : Z;
  permanent_count : Z;
  problematic_count : Z
}.

(** [datetime.fromisoformat] of the Python standard library: the parsed
    datetime, or the message of the [ValueError] it raises. *)
Class IsoParser : Type := fromisoformat : string -> string + datetime.

Module TokenAnalyzer.
Section Analyzer.

Context {parser : IsoParser}.

Definition datetime_fromisoformat (s : string) : M datetime :=
  match fromisoformat s with
  | inl msg => raise (ValueError msg)
  | inr t => ret t
  end.

(** The body of the [for token in tokens] loop of [analyze_all_tokens]. *)
Definition analyze_token (threshold_date current_date : datetime)
    (token : loc) (result : analysis) : M analysis :=
  let* e := dict_get token "expires_at" PNone in
  if negb (truthy e) then
    dict_setitem token "status" (PStr "No Expiration") ;;
    dict_setitem token "days_until_expiry" (PStr "Never") ;;
    ret (append_no_expiration token result)
  else
    try_except
      (let* e := dict_getitem token "expires_at" in
       let* s := replace_method e "Z" "+00:00" in
       let* expires_at := datetime_fromisoformat s in
       let expires_at := replace_tzinfo_None expires_at in
       let* delta := lift (datetime_sub expires_at current_date) in
       let days_until_expiry := days delta in
       dict_setitem token "days_until_expiry" (PInt days_until_expiry) ;;
       let* is_expired := lift (datetime_le expires_at current_date) in
       if is_expired then
         dict_setitem token "status" (PStr "Expired") ;;
         ret (append_expired token result)
       else
         let* is_soon := lift (datetime_le expires_at threshold_date) in
         if is_soon then
           dict_setitem token "status" (PStr "Expiring Soon") ;;
           ret (append_expiring_soon token result)
         else
           dict_setitem token "status" (PStr "Healthy") ;;
           ret (append_healthy token result))
      (fun e =>
         match e with
         | ValueError _ =>
             Some (let* name := dict_get token "name" (PStr "unknown") in
                   print [Lit "Error parsing date for token "; Val name;
                          Lit ": "; Exc e] ;;
                   dict_setitem token "status" (PStr "Error") ;;
                   dict_setitem token "days_until_expiry" (PStr "Unknown") ;;
                   ret (append_healthy token result))
         | _ => None
         end).

Definition analyze_all_tokens (tokens : list loc) (days_threshold : Z)
    : M analysis :=
  let result := Analysis [] [] [] [] (len tokens) None in
  let* now := datetime_now in
  let* delta := lift (timedelta_of_days days_threshold) in
  let* threshold_date := lift (datetime_add now delta) in
  let* current_date := datetime_now in
  for_each tokens (analyze_token threshold_date current_date) result.

Definition get_summary_stats (token_analysis : analysis) : summary_stats :=
  SummaryStats
    (total_count token_analysis)
    (len (expired token_analysis))
    (len (expiring_soon token_analysis))
    (len (healthy token_analysis))
    (len (no_expiration token_analysis))
    (len (expired token_analysis) + len (expiring_soon token_analysis)).

Definition group_tokens_by_type (tokens : list loc) : M token_groups :=
  let* personal :=
    comprehension tokens (fun t =>
      let* user_id := dict_get t "user_id" PNone in
      if truthy user_id then
        let* token_type := dict_get t "token_type" PNone in
        ret (negb (truthy token_type))
      else ret false) in
  let* project :=
    comprehension tokens (fun t =>
      let* token_type := dict_get t "token_type" PNone in
      ret (eq_str token_type "project")) in
  let* group :=
    comprehension tokens (fun t =>
      let* token_type := dict_get t "token_type" PNone in
      ret (eq_str token_type "group")) in
  ret (TokenGroups personal project group).

End Analyzer.
End TokenAnalyzer.

(** ** gitlab_api.py *)

Module GitLabAPI.

(** [response.json()] builds a new dictionary for every object of the
    answer. *)
Definition new_dict (d : pydict) : M loc :=
  fun w =>
    let l := fresh (dom (heap w)) in
    (Ret l, set_heap <[l := d]> w).

Fixpoint response_json (objects : list pydict) : M (list loc) :=
  match objects with
  | [] => ret []
  | d :: rest =>
      let* l := new_dict d in
      let* ls := response_json rest in
      ret (l :: ls)
  end.

(** [requests.get(url, ...)], [raise_for_status()] and [json()]. *)
Definition requests_get_json (answer : server -> option (list pydict))
    : M (list loc) :=
  fun w =>
    match answer (gitlab w) with
    | Some objects => response_json objects w
    | None => (Raise RequestException, w)
    end.

Definition except_RequestException {A} (handler : exn -> M A)
    (e : exn) : option (M A) :=
  match e with
  | RequestException => Some (handler e)
  | _ => None
  end.

Definition get_personal_access_tokens : M (list loc) :=
  try_except
    (requests_get_json personal_access_tokens)
    (except_RequestException (fun e =>
       print [Lit "Error fetching personal access tokens: "; Exc e] ;;
       ret [])).

Definition get_project_access_tokens (project_id : pyval) : M (list loc) :=
  try_except
    (let* tokens :=
       requests_get_json (fun s => project_access_tokens s project_id) in
     for_each tokens (fun token (_ : unit) =>
       dict_setitem token "token_type" (PStr "project") ;;
       dict_setitem token "project_id" project_id) tt ;;
     ret tokens)
    (except_RequestException (fun e =>
       print [Lit "Error fetching project access tokens for project ";
              Val project_id; Lit ": "; Exc e] ;;
       ret [])).

Definition get_group_access_tokens (group_id : pyval) : M (list loc) :=
  try_except
    (let* tokens :=
       requests_get_json (fun s => group_access_tokens s group_id) in
     for_each tokens (fun token (_ : unit) =>
       dict_setitem token "token_type" (PStr "group") ;;
       dict_setitem token "group_id" group_id) tt ;;
     ret tokens)
    (except_RequestException (fun e =>
       print [Lit "Error fetching group access tokens for group ";
              Val group_id; Lit ": "; Exc e] ;;
       ret [])).

(** The list the pagination loop of [get_all_projects] ends with. *)
Definition get_all_projects : M (list pydict) :=
  fun w => (Ret (all_projects (gitlab w)), w).

(** The list the pagination loop of [get_all_groups] ends with. *)
Definition get_all_groups : M (list pydict) :=
  fun w => (Ret (all_groups (gitlab w)), w).

(** The [while True] loop of [get_all_projects] and [get_all_groups] over
    the pages the server answers, from [page] on with [items] collected so
    far; the [except] clause of the surrounding [try] prints [message] and
    the exception at the place the request fails.  [fuel] bounds the number
    of requests, and the result is [None] when it runs out. *)
Fixpoint paginate (message : string) (answer : Z -> option (list pydict))
    (fuel : nat) (page : Z) (items : list pydict) : M (option (list pydict)) :=
  match fuel with
  | O => ret None
  | S fuel =>
      match answer page with
      | None =>
          print [Lit message; Exc RequestException] ;;
          ret (Some items)
      | Some [] => ret (Some items)
      | Some page_items =>
          paginate message answer fuel (page + 1) (items ++ page_items)
      end
  end.

Definition get_all_projects_pages (answer : Z -> option (list pydict))
    (fuel : nat) : M (option (list pydict)) :=
  paginate "Error fetching projects: " answer fuel 1 [].

Definition get_all_groups_pages (answer : Z -> option (list pydict))
    (fuel : nat) : M (option (list pydict)) :=
  paginate "Error fetching groups: " answer fuel 1 [].

End GitLabAPI.

(** ** email_reporter.py *)

Module EmailReporter.

(** Rendering the HTML body and the SMTP session are outside the model:
    handing the report to the transport is recorded in the outbox. *)
Definition deliver (token_analysis : analysis) : M unit :=
  fun w =>
    (Ret tt,
     World (heap w) (clock w) (ticks w) (stdout w) (gitlab w)
           (outbox w ++ [token_analysis])).

Definition send_notification (token_analysis : analysis) : M unit :=
  let stats := TokenAnalyzer.get_summary_stats token_analysis in
  if negb (default false (include_all_tokens token_analysis))
     && (problematic_count stats =? 0)
  then print [Lit "No expiring tokens found, skipping email notification"]
  else deliver token_analysis.

End EmailReporter.

(** ** main.py *)

(** The fields of [Config] the orchestration reads. *)
Record config : Type := Config {
  days_threshold : Z;
  include_project_tokens : bool;
  include_group_tokens : bool;
  send_all_tokens : bool
}.

(** The statistics [_process_project_tokens] and [_process_group_tokens]
    return. *)
Record scope_stats : Type := ScopeStats {
  total : Z;
  expired_of_scope : Z;
  expiring : Z;
  healthy_of_scope : Z;
  permanent : Z
}.

(** [d[key]] and [d.get(key, dflt)] on a dictionary nobody mutates. *)
Definition getitem (d : pydict) (key : string) : M pyval :=
  match d !! key with
  | Some v => ret v
  | None => raise (KeyError key)
  end.

Module Monitor.
Section Monitor.

Context {parser : IsoParser}.
Variable cfg : config.

(** [_merge_analysis] updates [all_analysis] in place; the dictionary it
    leaves is the result here. *)
Definition _merge_analysis (all_analysis new_analysis : analysis) : analysis :=
  Analysis
    (expiring_soon all_analysis ++ expiring_soon new_analysis)
    (expired all_analysis ++ expired new_analysis)
    (healthy all_analysis ++ healthy new_analysis)
    (no_expiration all_analysis ++ no_expiration new_analysis)
    (total_count all_analysis + total_count new_analysis)
    (include_all_tokens all_analysis).

(** The categories in the order the metadata loops visit them. *)
Definition categories (a : analysis) : list (list loc) :=
  [expired a; expiring_soon a; healthy a; no_expiration a].

(** Lines 86-89: "Add project info to tokens". *)
Definition add_project_info (project : pydict) (project_analysis : analysis)
    : M unit :=
  for_each (categories project_analysis) (fun bucket (_ : unit) =>
    for_each bucket (fun token (_ : unit) =>
      let* name := getitem project "name" in
      dict_setitem token "project_name" name ;;
      let* name := getitem project "name" in
      dict_setitem token "project_path"
        (default name (project !! "path_with_namespace"))) tt) tt.

(** Lines 114-117: "Add group info to tokens". *)
Definition add_group_info (group : pydict) (group_analysis : analysis)
    : M unit :=
  for_each (categories group_analysis) (fun bucket (_ : unit) =>
    for_each bucket (fun token (_ : unit) =>
      let* name := getitem group "name" in
      dict_setitem token "group_name" name ;;
      let* name := getitem group "name" in
      dict_setitem token "group_path"
        (default name (group !! "full_path"))) tt) tt.

(** [len([t for t in bucket if t.get('token_type') == ty])] *)
Definition count_of_type (ty : string) (bucket : list loc) : M Z :=
  let* selected :=
    for_each bucket (fun t (acc : list loc) =>
      let* token_type := dict_get t "token_type" PNone in
      if eq_str token_type ty then ret (acc ++ [t]) else ret acc) [] in
  ret (len selected).

(** The body of the [for project in projects] loop; the pair is
    [all_token_analysis] and [project_total]. *)
Definition process_project (project : pydict) (st : analysis * Z)
    : M (analysis * Z) :=
  let '(all_token_analysis, project_total) := st in
  let* project_id := getitem project "id" in
  let* project_tokens := GitLabAPI.get_project_access_tokens project_id in
  match project_tokens with
  | [] => ret (all_token_analysis, project_total)
  | _ :: _ =>
      let* project_analysis :=
        TokenAnalyzer.analyze_all_tokens project_tokens (days_threshold cfg) in
      add_project_info project project_analysis ;;
      ret (_merge_analysis all_token_analysis project_analysis,
           project_total + total_count project_analysis)
  end.

Definition _process_project_tokens (all_token_analysis : analysis)
    : M (analysis * scope_stats) :=
  print [Lit "Fetching project access tokens..."] ;;
  let* projects := GitLabAPI.get_all_projects in
  let* st := for_each projects process_project (all_token_analysis, 0) in
  let '(all_token_analysis, project_total) := st in
  let* n_expired := count_of_type "project" (expired all_token_analysis) in
  let* n_expiring := count_of_type "project" (expiring_soon all_token_analysis) in
  let* n_healthy := count_of_type "project" (healthy all_token_analysis) in
  let* n_permanent := count_of_type "project" (no_expiration all_token_analysis) in
  ret (all_token_analysis,
       ScopeStats project_total n_expired n_expiring n_healthy n_permanent).

Definition process_group (group : pydict) (st : analysis * Z)
    : M (analysis * Z) :=
  let '(all_token_analysis, group_total) := st in
  let* group_id := getitem group "id" in
  let* group_tokens := GitLabAPI.get_group_access_tokens group_id in
  match group_tokens with
  | [] => ret (all_token_analysis, group_total)
  | _ :: _ =>
      let* group_analysis :=
        TokenAnalyzer.analyze_all_tokens group_tokens (days_threshold cfg) in
      add_group_info group group_analysis ;;
      ret (_merge_analysis all_token_analysis group_analysis,
           group_total + total_count group_analysis)
  end.

Definition _process_group_tokens (all_token_analysis : analysis)
    : M (analysis * scope_stats) :=
  print [Lit "Fetching group access tokens..."] ;;
  let* groups := GitLabAPI.get_all_groups in
  let* st := for_each groups process_group (all_token_analysis, 0) in
  let '(all_token_analysis, group_total) := st in
  let* n_expired := count_of_type "group" (expired all_token_analysis) in
  let* n_expiring := count_of_type "group" (expiring_soon all_token_analysis) in
  let* n_healthy := count_of_type "group" (healthy all_token_analysis) in
  let* n_permanent := count_of_type "group" (no_expiration all_token_analysis) in
  ret (all_token_analysis,
       ScopeStats group_total n_expired n_expiring n_healthy n_permanent).

Definition with_include_all_tokens (b : bool) (a : analysis) : analysis :=
  Analysis (expiring_soon a) (expired a) (healthy a) (no_expiration a)
           (total_count a) (Some b).

Definition _print_summary_and_notify (all_token_analysis : analysis) : M unit :=
  let stats := TokenAnalyzer.get_summary_stats all_token_analysis in
  print [Lit (String "010" "=== SUMMARY ===")] ;;
  print [Lit "Total tokens: "; Num (total_tokens stats)] ;;
  print [Lit "Expired: "; Num (expired_count stats)] ;;
  print [Lit "Expiring soon: "; Num (expiring_count stats)] ;;
  print [Lit "Healthy: "; Num (healthy_count stats)] ;;
  print [Lit "Permanent: "; Num (permanent_count stats)] ;;
  (if send_all_tokens cfg || (0 <? problematic_count stats) then
     let all_token_analysis :=
       with_include_all_tokens (send_all_tokens cfg) all_token_analysis in
     print [Lit (String "010" "Sending email report...")] ;;
     EmailReporter.send_notification all_token_analysis
   else
     print [Lit (String "010"
              "No problematic tokens found, skipping email notification")] ;;
     print [Lit "Use SEND_ALL_TOKENS=true to receive reports even when all tokens are healthy"]) ;;
  print [Lit "Monitoring complete!"].

Definition print_stats (label : string) (s : scope_stats) : M unit :=
  print [Lit label; Num (total s); Lit " total, ";
         Num (expired_of_scope s); Lit " expired, ";
         Num (expiring s); Lit " expiring soon, ";
         Num (healthy_of_scope s); Lit " healthy, ";
         Num (permanent s); Lit " permanent"].

Definition run_monitoring : M unit :=
  print [Lit "Starting GitLab token expiration monitoring..."] ;;
  print [Lit "Checking for tokens expiring within ";
         Num (days_threshold cfg); Lit " days"] ;;
  print [Lit "Report mode: ";
         Lit (if send_all_tokens cfg then "All tokens"
              else "Only problematic tokens")] ;;
  let all_token_analysis := Analysis [] [] [] [] 0 None in
  print [Lit "Fetching personal access tokens..."] ;;
  let* personal_tokens := GitLabAPI.get_personal_access_tokens in
  let* personal_analysis :=
    TokenAnalyzer.analyze_all_tokens personal_tokens (days_threshold cfg) in
  let all_token_analysis :=
    _merge_analysis all_token_analysis personal_analysis in
  print_stats "Personal Access Tokens: "
    (ScopeStats (total_count personal_analysis)
                (len (expired personal_analysis))
                (len (expiring_soon personal_analysis))
                (len (healthy personal_analysis))
                (len (no_expiration personal_analysis))) ;;
  let* all_token_analysis :=
    if include_project_tokens cfg then
      let* r := _process_project_tokens all_token_analysis in
      print_stats "Project Access Tokens: " (snd r) ;;
      ret (fst r)
    else ret all_token_analysis in
  let* all_token_analysis :=
    if include_group_tokens cfg then
      let* r := _process_group_tokens all_token_analysis in
      print_stats "Group Access Tokens: " (snd r) ;;
      ret (fst r)
    else ret all_token_analysis in
  _print_summary_and_notify all_token_analysis.

End Monitor.
End Monitor.

(** ** gitlab_token_monitoring.py *)

Module Legacy.
Section Legacy.

Context {parser : IsoParser}.

(** The body of the [for token in tokens] loop of
    [check_token_expiration]. *)
Definition check_token (threshold_date : datetime)
    (token : loc) (expiring_tokens : list loc) : M (list loc) :=
  let* e := dict_get token "expires_at" PNone in
  if negb (truthy e) then ret expiring_tokens
  else
    try_except
      (let* e := dict_getitem token "expires_at" in
       let* s := replace_method e "Z" "+00:00" in
       let* expires_at := TokenAnalyzer.datetime_fromisoformat s in
       let expires_at := replace_tzinfo_None expires_at in
       let* is_soon := lift (datetime_le expires_at threshold_date) in
       if is_soon then
         let* now := datetime_now in
         let* delta := lift (datetime_sub expires_at now) in
         let days_until_expiry := days delta in
         dict_setitem token "days_until_expiry" (PInt days_until_expiry) ;;
         ret (expiring_tokens ++ [token])
       else ret expiring_tokens)
      (fun e =>
         match e with
         | ValueError _ =>
             Some (let* name := dict_get token "name" (PStr "unknown") in
                   print [Lit "Error parsing date for token "; Val name;
                          Lit ": "; Exc e] ;;
                   ret expiring_tokens)
         | _ => None
         end).

Definition check_token_expiration (tokens : list loc) (days_threshold : Z)
    : M (list loc) :=
  let* now := datetime_now in
  let* delta := lift (timedelta_of_days days_threshold) in
  let* threshold_date := lift (datetime_add now delta) in
  for_each tokens (check_token threshold_date) [].

(** The [status_class] of a row of the legacy mail. *)
Definition status_class (days_until_expiry : Z) : string :=
  if days_until_expiry <? 0 then "expired" else "warning".

End Legacy.
End Legacy.

(** ** A parser for the timestamps GitLab sends

    An instance of [IsoParser] for the shapes [YYYY-MM-DD],
    [YYYY-MM-DDTHH:MM:SS] and [YYYY-MM-DDTHH:MM:SS+HH:MM] (any separator
    character in place of [T]), on which every CPython release with
    [fromisoformat] agrees.  The concrete runs below use it; the general
    statements hold for every parser. *)

Module Iso8601.

Definition digit (c : ascii) : option Z :=
  let n := Z.of_N (N_of_ascii c) in
  if (48 <=? n) && (n <=? 57) then Some (n - 48) else None.

Fixpoint number (cs : list ascii) (acc : Z) : option Z :=
  match cs with
  | [] => Some acc
  | c :: rest =>
      match digit c with
      | Some d => number rest (10 * acc + d)
      | None => None
      end
  end.

Definition is_leap (y : Z) : bool :=
  ((y mod 4 =? 0) && negb (y mod 100 =? 0)) || (y mod 400 =? 0).

Definition days_in_month (y m : Z) : Z :=
  if m =? 2 then (if is_leap y then 29 else 28)
  else if (m =? 4) || (m =? 6) || (m =? 9) || (m =? 11) then 30
  else 31.

Definition days_before_year (y : Z) : Z :=
  let p := y - 1 in 365 * p + p / 4 - p / 100 + p / 400.

Fixpoint days_before_month (y : Z) (m : nat) : Z :=
  match m with
  | O => 0
  | S k => days_before_month y k + days_in_month y (Z.of_nat (S k))
  end.

(** Days from 0001-01-01 to the given date, if it is a date. *)
Definition date_to_days (y m d : Z) : option Z :=
  if (1 <=? y) && (y <=? 9999) && (1 <=? m) && (m <=? 12)
     && (1 <=? d) && (d <=? days_in_month y m)
  then Some (days_before_year y + days_before_month y (Z.to_nat (m - 1)) + (d - 1))
  else None.

Definition parse_date (cs : list ascii) : option Z :=
  match cs with
  | [y1; y2; y3; y4; "-"%char; m1; m2; "-"%char; d1; d2] =>
      match number [y1; y2; y3; y4] 0, number [m1; m2] 0, number [d1; d2] 0 with
      | Some y, Some m, Some d => date_to_days y m d
      | _, _, _ => None
      end
  | _ => None
  end.

(** Seconds into the day. *)
Definition parse_time (cs : list ascii) : option Z :=
  match cs with
  | [h1; h2; ":"%char; m1; m2; ":"%char; s1; s2] =>
      match number [h1; h2] 0, number [m1; m2] 0, number [s1; s2] 0 with
      | Some h, Some m, Some s =>
          if (h <=? 23) && (m <=? 59) && (s <=? 59)
          then Some (3600 * h + 60 * m + s) else None
      | _, _, _ => None
      end
  | _ => None
  end.

(** UTC offset in seconds. *)
Definition parse_offset (cs : list ascii) : option Z :=
  match cs with
  | [sign; h1; h2; ":"%char; m1; m2] =>
      match number [h1; h2] 0, number [m1; m2] 0 with
      | Some h, Some m =>
          if (h <=? 23) && (m <=? 59) then
            if Ascii.eqb sign "+" then Some (3600 * h + 60 * m)
            else if Ascii.eqb sign "-" then Some (- (3600 * h + 60 * m))
            else None
          else None
      | _, _ => None
      end
  | _ => None
  end.

Definition parse_chars (cs : list ascii) : option datetime :=
  match parse_date (take 10 cs), drop 10 cs with
  | Some d, [] => Some (DateTime (d * usec_per_day) None)
  | Some d, _ :: rest =>
      match parse_time (take 8 rest), drop 8 rest with
      | Some t, [] => Some (DateTime (d * usec_per_day + t * 1000000) None)
      | Some t, tz =>
          match parse_offset tz with
          | Some off =>
              Some (DateTime (d * usec_per_day + t * 1000000)
                             (Some (off * 1000000)))
          | None => None
          end
      | None, _ => None
      end
  | None, _ => None
  end.

Definition parse : IsoParser :=
  fun s =>
    match parse_chars (list_ascii_of_string s) with
    | Some t => inr t
    | None => inl (String.append "Invalid isoformat string: " s)
    end.

(** The microsecond count of a timestamp written in ISO form. *)
Definition at_ (s : string) : Z :=
  match parse s with
  | inr t => wall t
  | inl _ => 0
  end.

End Iso8601.

(** ** Vocabulary of the statements *)

Inductive category : Type := Expired | ExpiringSoon | Healthy | NoExpiration.

#[global] Instance category_eq_dec : EqDecision category.
Proof. solve_decision. Defined.

Definition bucket (c : category) (a : analysis) : list loc :=
  match c with
  | Expired => expired a
  | ExpiringSoon => expiring_soon a
  | Healthy => healthy a
  | NoExpiration => no_expiration a
  end.

(** The record is in bucket [c] and in no other bucket. *)
Definition placed (c : category) (l : loc) (a : analysis) : Prop :=
  l ∈ bucket c a ∧ ∀ c', l ∈ bucket c' a → c' = c.

(** All records of an analysis, bucket after bucket. *)
Definition records (a : analysis) : list loc :=
  expired a ++ expiring_soon a ++ healthy a ++ no_expiration a.

(** [token[key]], read in the world [w]. *)
Definition field (w : world) (l : loc) (key : string) : option pyval :=
  match heap w !! l with
  | Some d => d !! key
  | None => None
  end.

(** The clock shows [now] at every read: the evaluation time of the spec. *)
Definition frozen (w : world) (now : Z) : Prop := ∀ k, clock w k = now.

(** [now + timedelta(days=d)] is a datetime Python can represent. *)
Definition threshold_representable (now d : Z) : Prop :=
  Z.abs d <= max_delta_days ∧ 0 <= now + d * usec_per_day <= max_wall.

(** The value under [expires_at] is falsy or a string: what the GitLab API
    sends ([null] or an ISO date). *)
Definition expiry_readable (d : pydict) : bool :=
  match d !! "expires_at" with
  | Some (PStr _) => true
  | Some v => negb (truthy v)
  | None => true
  end.

(** Every reference of the list is to a record with a readable expiry. *)
Definition tokens_ok (h : gmap loc pydict) (tokens : list loc) : bool :=
  forallb (λ l, match h !! l with
                | Some d => expiry_readable d
                | None => false
                end) tokens.

(** What the code finds under [expires_at]; [None] where it raises. *)
Inductive expiry : Type :=
| Permanent
| Unparsable (msg : string)
| ExpiresAt (t : Z).

Definition expiry_of {parser : IsoParser} (d : pydict) : option expiry :=
  let v := default PNone (d !! "expires_at") in
  if negb (truthy v) then Some Permanent
  else
    match v with
    | PStr s =>
        match fromisoformat (str_replace "Z" "+00:00" s) with
        | inl msg => Some (Unparsable msg)
        | inr t => Some (ExpiresAt (wall t))
        end
    | _ => None
    end.

Definition category_of (threshold_date current_date : Z) (e : expiry) : category :=
  match e with
  | Permanent => NoExpiration
  | Unparsable _ => Healthy
  | ExpiresAt t =>
      if t <=? current_date then Expired
      else if t <=? threshold_date then ExpiringSoon
      else Healthy
  end.

Definition status_of (threshold_date current_date : Z) (e : expiry) : pyval :=
  match e with
  | Permanent => PStr "No Expiration"
  | Unparsable _ => PStr "Error"
  | ExpiresAt t =>
      if t <=? current_date then PStr "Expired"
      else if t <=? threshold_date then PStr "Expiring Soon"
      else PStr "Healthy"
  end.

Definition days_of (current_date : Z) (e : expiry) : pyval :=
  match e with
  | Permanent => PStr "Never"
  | Unparsable _ => PStr "Unknown"
  | ExpiresAt t => PInt ((t - current_date) / usec_per_day)
  end.

(** The record [d] with the two computed fields of its expiry. *)
Definition stamp {parser : IsoParser} (threshold_date current_date : Z)
    (d : pydict) : pydict :=
  match expiry_of d with
  | Some e =>
      <["status" := status_of threshold_date current_date e]>
        (<["days_until_expiry" := days_of current_date e]> d)
  | None => d
  end.

(** The category the code gives the record at [l] of heap [h]. *)
Definition category_at {parser : IsoParser} (threshold_date current_date : Z)
    (h : gmap loc pydict) (l : loc) : option category :=
  match h !! l with
  | Some d => category_of threshold_date current_date <$> expiry_of d
  | None => None
  end.

(** Appending to the bucket of a category. *)
Definition place (c : category) (l : loc) (r : analysis) : analysis :=
  match c with
  | Expired => append_expired l r
  | ExpiringSoon => append_expiring_soon l r
  | Healthy => append_healthy l r
  | NoExpiration => append_no_expiration l r
  end.

(** Merging batches one after the other, as [run_monitoring] does. *)
Definition merge_all (acc : analysis) (batches : list analysis) : analysis :=
  fold_left Monitor._merge_analysis batches acc.

(** An analysis whose [total_count] is the number of its records. *)
Definition counted (a : analysis) : Prop := total_count a = len (records a).

(** What a completed pass over [tokens] leaves: the buckets, the counters
    and the heap, in terms of the heap the pass started from. *)
Definition classified {parser : IsoParser} (thr cur : Z) (tokens : list loc)
    (r : analysis) (w : world) (r' : analysis) (w' : world) : Prop :=
  (∀ c, bucket c r' =
        bucket c r ++ filter (λ l, category_at thr cur (heap w) l = Some c) tokens) ∧
  total_count r' = total_count r ∧
  include_all_tokens r' = include_all_tokens r ∧
  (∀ l, heap w' !! l =
        if decide (l ∈ tokens) then stamp thr cur <$> heap w !! l
        else heap w !! l) ∧
  clock w' = clock w ∧ ticks w' = ticks w ∧
  gitlab w' = gitlab w ∧ outbox w' = outbox w.

(** What a completed call of [analyze_all_tokens] leaves, in terms of the
    world it started from: [thr] is the threshold date and [cur] the
    current date the call computed. *)
Definition analysed {parser : IsoParser} (thr cur : Z) (tokens : list loc)
    (w : world) (a : analysis) (w' : world) : Prop :=
  (∀ c, bucket c a = filter (λ l, category_at thr cur (heap w) l = Some c) tokens) ∧
  total_count a = len tokens ∧
  include_all_tokens a = None ∧
  (∀ l, heap w' !! l =
        if decide (l ∈ tokens) then stamp thr cur <$> heap w !! l
        else heap w !! l) ∧
  clock w' = clock w ∧ ticks w' = S (S (ticks w)) ∧
  gitlab w' = gitlab w ∧ outbox w' = outbox w.

(** The two dates of a call started in world [w]. *)
Definition threshold_date_of (w : world) (d : Z) : Z :=
  clock w (ticks w) + d * usec_per_day.

Definition current_date_of (w : world) : Z := clock w (S (ticks w)).

(** The sum of the [total_count]s of a list of batches. *)
Definition total_of (batches : list analysis) : Z :=
  foldr (λ b n, total_count b + n) 0 batches.

(** The record [d] after [d[k1] = v1; d[k2] = v2]. *)
Definition tag (k1 : string) (v1 : pyval) (k2 : string) (v2 : pyval)
    (d : pydict) : pydict :=
  <[k2 := v2]> (<[k1 := v1]> d).

(** Two worlds that differ in the heap only. *)
Definition same_but_heap (w w' : world) : Prop :=
  clock w' = clock w ∧ ticks w' = ticks w ∧ stdout w' = stdout w ∧
  gitlab w' = gitlab w ∧ outbox w' = outbox w.

(** The references [ls] are to records made between [w] and [w']; every
    record of [w] is as it was. *)
Definition fresh_batch (ls : list loc) (w w' : world) : Prop :=
  (∀ l, l ∈ ls → heap w !! l = None ∧ is_Some (heap w' !! l)) ∧
  (∀ l, l ∉ ls → heap w' !! l = heap w !! l).

(** What one round of the project loop leaves: every record that was on
    the heap is as it was, and each bucket of the accumulator has grown at
    its end by records made in this round. *)
Definition batch_step (w : world) (acc : analysis) (w' : world)
    (acc' : analysis) : Prop :=
  (∀ l d, heap w !! l = Some d → heap w' !! l = Some d) ∧
  (∀ c, ∃ new, bucket c acc' = bucket c acc ++ new ∧
               ∀ l, l ∈ new → heap w !! l = None) ∧
  include_all_tokens acc' = include_all_tokens acc.

(** A computation that returns and hands nothing to the transport. *)
Definition quiet (m : M unit) : Prop :=
  ∀ w, ∃ w', m w = (Ret tt, w') ∧ outbox w' = outbox w.

(** A computation that returns and hands exactly [x] to the transport. *)
Definition sends (x : analysis) (m : M unit) : Prop :=
  ∀ w, ∃ w', m w = (Ret tt, w') ∧ outbox w' = outbox w ++ [x].

(** The legacy test: the expiry parsed and is not after the threshold. *)
Definition is_soon (threshold_date : Z) (e : expiry) : bool :=
  match e with
  | ExpiresAt t => t <=? threshold_date
  | _ => false
  end.

(** The record [d] as [check_token_expiration] leaves it at time [now]. *)
Definition legacy_stamp {parser : IsoParser} (threshold_date now : Z)
    (d : pydict) : pydict :=
  match expiry_of d with
  | Some e =>
      if is_soon threshold_date e
      then <["days_until_expiry" := days_of now e]> d
      else d
  | None => d
  end.

Definition soon_at {parser : IsoParser} (threshold_date : Z)
    (h : gmap loc pydict) (l : loc) : bool :=
  match h !! l with
  | Some d => default false (is_soon threshold_date <$> expiry_of d)
  | None => false
  end.

(** The conditions of the three comprehensions of
    [group_tokens_by_type], read in the world [w]. *)
Definition is_personal (w : world) (t : loc) : bool :=
  truthy (default PNone (field w t "user_id"))
  && negb (truthy (default PNone (field w t "token_type"))).

Definition has_type (ty : string) (w : world) (t : loc) : bool :=
  eq_str (default PNone (field w t "token_type")) ty.

(** The world [w] after one more printed line. *)
Definition printed (line : list fragment) (w : world) : world :=
  World (heap w) (clock w) (ticks w) (stdout w ++ [line]) (gitlab w) (outbox w).

(** What some rounds of the project or the group loop leave, from the
    world [w] and the loop state [st] (the accumulator and the running
    total) they started with: [a] holds the records merged in these rounds,
    all of them made in these rounds, of the type [ty] and with a status. *)
Definition scope_rounds (ty : string) (w : world) (st : analysis * Z)
    (w' : world) (st' : analysis * Z) : Prop :=
  ∃ a,
    (∀ c, bucket c st'.1 = bucket c st.1 ++ bucket c a) ∧
    total_count st'.1 = total_count st.1 + total_count a ∧
    include_all_tokens st'.1 = include_all_tokens st.1 ∧
    st'.2 = st.2 + total_count a ∧
    counted a ∧
    (∀ l, l ∈ records a →
       heap w !! l = None ∧
       field w' l "token_type" = Some (PStr ty) ∧
       is_Some (field w' l "status")) ∧
    (∀ l d, heap w !! l = Some d → heap w' !! l = Some d) ∧
    gitlab w' = gitlab w ∧ outbox w' = outbox w.

(** The count of a category in the statistics of a scope. *)
Definition count_in (c : category) (s : scope_stats) : Z :=
  match c with
  | Expired => expired_of_scope s
  | ExpiringSoon => expiring s
  | Healthy => healthy_of_scope s
  | NoExpiration => permanent s
  end.

(** The records of a bucket that carry the token type [ty] in world [w]. *)
Definition of_type (ty : string) (w : world) (ls : list loc) : list loc :=
  filter (λ l, has_type ty w l = true) ls.

(** The accumulator [a] of a run started in [w] and now in [w']: it counts
    its records, which were all made during the run and have a status;
    the records older than the run are as they were; nothing was sent. *)
Definition gathered (w : world) (a : analysis) (w' : world) : Prop :=
  counted a ∧
  (∀ l, l ∈ records a → heap w !! l = None ∧ is_Some (field w' l "status")) ∧
  (∀ l d, heap w !! l = Some d → heap w' !! l = Some d) ∧
  outbox w' = outbox w.

(** A token object [o] of the answer for [project] as a round of the
    project loop leaves it: the fetcher's two fields, the analyzer's two
    fields at the dates [thr] and [cur], and the name and path of the
    project. *)
Definition project_record {parser : IsoParser} (project : pydict)
    (thr cur : Z) (o : pydict) : pydict :=
  let name := default PNone (project !! "name") in
  tag "project_name" name
      "project_path" (default name (project !! "path_with_namespace"))
    (stamp thr cur
       (tag "token_type" (PStr "project")
            "project_id" (default PNone (project !! "id")) o)).

Definition group_record {parser : IsoParser} (group : pydict)
    (thr cur : Z) (o : pydict) : pydict :=
  let name := default PNone (group !! "name") in
  tag "group_name" name
      "group_path" (default name (group !! "full_path"))
    (stamp thr cur
       (tag "token_type" (PStr "group")
            "group_id" (default PNone (group !! "id")) o)).

(** What merging batches of new records leaves, from the world [w] and
    the accumulator [acc]: the references [ls] are to distinct records made
    since [w], one per record of [expected] and equal to it, in order; no
    other record has changed; each bucket has grown at its end by the
    references of [ls] of that category, in order; and [total_count] by
    their number. *)
Definition merged {parser : IsoParser} (expected : list pydict) (thr cur : Z)
    (w : world) (acc : analysis) (ls : list loc) (w' : world)
    (acc' : analysis) : Prop :=
  NoDup ls ∧
  Forall2 (λ l r, heap w !! l = None ∧ heap w' !! l = Some r) ls expected ∧
  (∀ l, l ∉ ls → heap w' !! l = heap w !! l) ∧
  (∀ c, bucket c acc' =
        bucket c acc ++ filter (λ l, category_at thr cur (heap w') l = Some c) ls) ∧
  total_count acc' = total_count acc + len ls ∧
  include_all_tokens acc' = include_all_tokens acc ∧
  clock w' = clock w ∧ gitlab w' = gitlab w ∧ outbox w' = outbox w.

(** The token objects the server answers for a project or group; none for
    a failed request. *)
Definition tokens_of (answer : pyval -> option (list pydict)) (scope : pydict)
    : list pydict :=
  default [] (answer (default PNone (scope !! "id"))).





(** ** Sample data for the concrete runs *)

(** Seven tokens at midnight of 2024-01-01. *)
Definition sample_now : Z := Iso8601.at_ "2024-01-01T00:00:00".

Definition sample_heap : gmap loc pydict :=
  {[ 1%positive := {[ "expires_at" := PStr "2024-01-08T00:00:00" ]};
     2%positive := {[ "expires_at" := PStr "2024-01-09T00:00:00Z" ]};
     3%positive := {[ "expires_at" := PStr "2023-12-31T00:00:00" ]};
     4%positive := {[ "expires_at" := PStr "not-a-date"; "name" := PStr "ci" ]};
     5%positive := {[ "name" := PStr "bot" ]};
     6%positive := {[ "expires_at" := PStr "" ]};
     7%positive := {[ "expires_at" := PStr "2024-01-01T18:00:00" ]} ]}.

Definition sample_world : world :=
  World sample_heap (λ _, sample_now) 0 []
        (Server None [] (λ _, None) [] (λ _, None)) [].

Definition sample_tokens : list loc := [1; 2; 3; 4; 5; 6; 7]%positive.

(** The classification of [sample_tokens] at [sample_now] with a threshold
    of seven days. *)
Definition sample_analysis : analysis :=
  Analysis [1; 7]%positive [3%positive] [2; 4]%positive [5; 6]%positive 7 None.

Definition sample_run : outcome analysis * world :=
  @TokenAnalyzer.analyze_all_tokens Iso8601.parse sample_tokens 7 sample_world.

(** A token that expired twelve hours ago, checked with a threshold of
    minus one day. *)
Definition stale_world : world :=
  World {[ 1%positive := {[ "expires_at" := PStr "2023-12-31T12:00:00" ]} ]}
        (λ _, sample_now) 0 []
        (Server None [] (λ _, None) [] (λ _, None)) [].

(** Two ways of cutting four classified records into batches. *)
Definition batch_a : analysis :=
  Analysis [2%positive] [1%positive] [] [] 2 None.

Definition batch_b : analysis :=
  Analysis [3%positive] [] [4%positive] [] 2 None.

Definition batch_ab : analysis :=
  Analysis [3; 2]%positive [1%positive] [4%positive] [] 4 None.

Definition empty_analysis : analysis := Analysis [] [] [] [] 0 None.

Definition sample_project : pydict :=
  {[ "id" := PInt 42; "name" := PStr "deploy";
     "path_with_namespace" := PStr "ops/deploy" ]}.

Definition sample_group : pydict :=
  {[ "id" := PInt 7; "name" := PStr "ops" ]}.

(** A server with two personal tokens, one project with two tokens and
    one group with one token. *)
Definition sample_server : server :=
  Server
    (Some [ {[ "name" := PStr "laptop"; "user_id" := PInt 1;
               "expires_at" := PStr "2024-01-03T00:00:00" ]};
            {[ "name" := PStr "backup"; "user_id" := PInt 1 ]} ])
    [sample_project]
    (λ id, match id with
           | PInt 42 =>
               Some [ {[ "name" := PStr "deploy-bot";
                         "expires_at" := PStr "2023-12-25T00:00:00" ]};
                      {[ "name" := PStr "mirror";
                         "expires_at" := PStr "2024-06-01T00:00:00" ]} ]
           | _ => None
           end)
    [sample_group]
    (λ id, match id with
           | PInt 7 =>
               Some [ {[ "name" := PStr "ops-bot";
                         "expires_at" := PStr "2024-01-05T00:00:00" ]} ]
           | _ => None
           end).

Definition served_world : world :=
  World ∅ (λ _, sample_now) 0 [] sample_server [].

Definition sample_config : config := Config 7 true true false.

(** The project pass over [served_world]: the records 1 and 2 are made. *)
Definition sample_project_acc : analysis :=
  Analysis [] [1%positive] [2%positive] [] 2 None.

Definition sample_project_stats : scope_stats := ScopeStats 2 1 0 1 0.

Definition sample_project_pass : outcome (analysis * scope_stats) * world :=
  @Monitor._process_project_tokens Iso8601.parse sample_config
    empty_analysis served_world.

(** One round of the project loop in [served_world]. *)
Definition sample_round : outcome (analysis * Z) * world :=
  @Monitor.process_project Iso8601.parse sample_config sample_project
    (empty_analysis, 0) served_world.

(** The group pass over [served_world]: the record 1 is made. *)
Definition sample_group_acc : analysis :=
  Analysis [1%positive] [] [] [] 1 None.

Definition sample_group_stats : scope_stats := ScopeStats 1 0 1 0 0.

Definition sample_group_pass : outcome (analysis * scope_stats) * world :=
  @Monitor._process_group_tokens Iso8601.parse sample_config
    empty_analysis served_world.

(** A project the server did not give a name. *)
Definition nameless_project : pydict := {[ "id" := PInt 42 ]}.

(** A server that answers every token request with the same objects. *)
Definition echo_objects : list pydict :=
  [ {[ "name" := PStr "ci"; "expires_at" := PStr "2024-02-01" ]} ].

Definition echo_world : world :=
  World ∅ (λ _, sample_now) 0 []
        (Server (Some echo_objects) [] (λ _, Some echo_objects)
                [] (λ _, Some echo_objects)) [].

(** The sample tokens and one more whose expiry is a number. *)
Definition unreadable_world : world :=
  set_heap <[8%positive := {[ "expires_at" := PInt 20240108 ]}]> sample_world.

(** The classification of [sample_tokens] at [sample_now] with a threshold
    of zero days. *)
Definition sample_analysis_0 : analysis :=
  Analysis [] [3%positive] [1; 2; 4; 7]%positive [5; 6]%positive 7 None.

Definition sample_run_0 : outcome analysis * world :=
  @TokenAnalyzer.analyze_all_tokens Iso8601.parse sample_tokens 0 sample_world.

(** Two pages and then an empty one; a server that ignores the page. *)
Definition sample_pages (page : Z) : option (list pydict) :=
  if page =? 1 then Some [sample_project]
  else if page =? 2 then Some [sample_group]
  else Some [].

Definition endless_pages (page : Z) : option (list pydict) :=
  Some [sample_project].

(** * Running the code *)

Lemma dict_get_run l key dflt w d :
  heap w !! l = Some d →
  dict_get l key dflt w = (Ret (default dflt (d !! key)), w).
Proof. intros H. unfold dict_get. by rewrite H. Qed.

Lemma dict_getitem_run l key w d v :
  heap w !! l = Some d → d !! key = Some v →
  dict_getitem l key w = (Ret v, w).
Proof. intros H Hv. unfold dict_getitem. by rewrite H, Hv. Qed.

Lemma dict_setitem_run l key v w d :
  heap w !! l = Some d →
  dict_setitem l key v w = (Ret tt, set_heap <[l := <[key := v]> d]> w).
Proof. intros H. unfold dict_setitem. by rewrite H. Qed.

Lemma bind_run {A B} (m : M A) (k : A → M B) w a w1 :
  m w = (Ret a, w1) → bind m k w = k a w1.
Proof. intros H. unfold bind. by rewrite H. Qed.

Lemma bind_raise {A B} (m : M A) (k : A → M B) w e w1 :
  m w = (Raise e, w1) → bind m k w = (Raise e, w1).
Proof. intros H. unfold bind. by rewrite H. Qed.

Lemma try_except_run {A} (body : M A) handler w a w1 :
  body w = (Ret a, w1) → try_except body handler w = (Ret a, w1).
Proof. intros H. unfold try_except. by rewrite H. Qed.

Lemma try_except_raise {A} (body : M A) handler w e w1 :
  body w = (Raise e, w1) →
  try_except body handler w =
  match handler e with Some h => h w1 | None => (Raise e, w1) end.
Proof. intros H. unfold try_except. by rewrite H. Qed.

(** One step of a run: an assignment to a field of a record on the heap. *)
Ltac run_setitem :=
  erewrite bind_run;
  [| apply dict_setitem_run;
     first [eassumption | simpl; apply lookup_insert_eq]].

Section TokenRuns.
Context {parser : IsoParser}.

Lemma analyze_token_run thr cur l r w d e :
  heap w !! l = Some d → expiry_of d = Some e →
  ∃ out,
    TokenAnalyzer.analyze_token (DateTime thr None) (DateTime cur None) l r w =
    (Ret (place (category_of thr cur e) l r),
     World (<[l := stamp thr cur d]> (heap w)) (clock w) (ticks w)
           (stdout w ++ out) (gitlab w) (outbox w)).
Proof.
  intros Hl He. unfold TokenAnalyzer.analyze_token.
  rewrite (bind_run _ _ _ _ _ (dict_get_run _ _ _ _ d Hl)).
  unfold stamp. rewrite He. unfold expiry_of in He.
  destruct (truthy (default PNone (d !! "expires_at"))) eqn:Ht; simpl in He |- *.
  - destruct (d !! "expires_at") as [v|] eqn:Hv; simpl in Ht, He; [|done].
    destruct v as [| | | |s| |]; try done.
    destruct (fromisoformat (str_replace "Z" "+00:00" s)) as [msg|t] eqn:Hp;
      injection He as <-.
    + exists [[Lit "Error parsing date for token ";
               Val (default (PStr "unknown") (d !! "name"));
               Lit ": "; Exc (ValueError msg)]].
      erewrite try_except_raise; cycle 1.
      { rewrite (bind_run _ _ _ _ _ (dict_getitem_run _ _ _ _ _ Hl Hv)).
        simpl. erewrite bind_run by reflexivity.
        unfold TokenAnalyzer.datetime_fromisoformat. rewrite Hp.
        by erewrite bind_raise by reflexivity. }
      simpl.
      rewrite (bind_run _ _ _ _ _ (dict_get_run _ _ _ _ d Hl)).
      erewrite bind_run by reflexivity. do 2 run_setitem.
      destruct w; unfold ret, set_heap; simpl.
      rewrite insert_insert_eq. do 3 f_equal.
      by apply insert_insert_ne.
    + exists []. apply try_except_run.
      rewrite (bind_run _ _ _ _ _ (dict_getitem_run _ _ _ _ _ Hl Hv)).
      simpl. erewrite bind_run by reflexivity.
      unfold TokenAnalyzer.datetime_fromisoformat. rewrite Hp.
      do 2 (erewrite bind_run by reflexivity). run_setitem.
      erewrite bind_run by reflexivity. simpl.
      destruct (wall t <=? cur); [|erewrite bind_run by reflexivity;
                                    destruct (wall t <=? thr)];
        run_setitem; destruct w; unfold ret, set_heap; simpl;
        by rewrite insert_insert_eq, app_nil_r.
  - injection He as <-. exists []. do 2 run_setitem.
    destruct w; unfold ret, set_heap; simpl.
    rewrite insert_insert_eq, app_nil_r. do 3 f_equal.
    by apply insert_insert_ne.
Qed.

Lemma analyze_token_unreadable thr cur l r w d :
  heap w !! l = Some d → expiry_of d = None →
  TokenAnalyzer.analyze_token thr cur l r w = (Raise (AttributeError "replace"), w).
Proof.
  intros Hl He. unfold TokenAnalyzer.analyze_token.
  rewrite (bind_run _ _ _ _ _ (dict_get_run _ _ _ _ d Hl)).
  unfold expiry_of in He.
  destruct (truthy (default PNone (d !! "expires_at"))) eqn:Ht; simpl in He |- *;
    [|done].
  destruct (d !! "expires_at") as [v|] eqn:Hv; simpl in Ht, He; [|done].
  erewrite try_except_raise; cycle 1.
  { rewrite (bind_run _ _ _ _ _ (dict_getitem_run _ _ _ _ _ Hl Hv)).
    apply bind_raise.
    destruct v as [| | | |s| |]; try reflexivity.
    by destruct (fromisoformat (str_replace "Z" "+00:00" s)). }
  done.
Qed.

Lemma analyze_token_dangling thr cur l r w :
  heap w !! l = None →
  TokenAnalyzer.analyze_token thr cur l r w = (Raise SystemError, w).
Proof.
  intros Hl. unfold TokenAnalyzer.analyze_token, bind, dict_get. by rewrite Hl.
Qed.

Lemma expiry_readable_spec d :
  expiry_readable d = true ↔ is_Some (expiry_of d).
Proof.
  unfold expiry_readable, expiry_of.
  destruct (d !! "expires_at") as [v|]; simpl; [|by eauto].
  destruct v as [|b|n|x|s|items|entries]; simpl.
  - by eauto.
  - destruct b; simpl; split; intros H; (done || by destruct H).
  - destruct (n =? 0); simpl; split; intros H; (done || eauto || by destruct H).
  - destruct (PrimFloat.eqb x 0); simpl; split; intros H;
      (done || eauto || by destruct H).
  - destruct s; simpl; [by eauto|].
    split; [intros _|done].
    by destruct (fromisoformat _); eauto.
  - destruct items; simpl; split; intros H; (done || eauto || by destruct H).
  - destruct entries; simpl; split; intros H; (done || eauto || by destruct H).
Qed.

Lemma expiry_of_stamp thr cur d :
  expiry_of (stamp thr cur d) = expiry_of d.
Proof.
  unfold stamp. destruct (expiry_of d) as [e|] eqn:He; [|done].
  unfold expiry_of in *. by rewrite !lookup_insert_ne.
Qed.

Lemma stamp_lookup_other thr cur d key :
  key ≠ "status" → key ≠ "days_until_expiry" →
  stamp thr cur d !! key = d !! key.
Proof.
  intros H1 H2. unfold stamp. destruct (expiry_of d); [|done].
  by rewrite !lookup_insert_ne.
Qed.

Lemma stamp_idemp thr cur d :
  stamp thr cur (stamp thr cur d) = stamp thr cur d.
Proof.
  unfold stamp at 1. rewrite expiry_of_stamp.
  unfold stamp. destruct (expiry_of d) as [e|]; [|done].
  apply map_eq. intros k.
  destruct (decide (k = "status")) as [->|]; [by rewrite !lookup_insert_eq|].
  destruct (decide (k = "days_until_expiry")) as [->|];
    repeat (rewrite lookup_insert_eq || rewrite lookup_insert_ne by done);
    done.
Qed.

Lemma category_at_insert_stamp thr cur h x d l :
  h !! x = Some d →
  category_at thr cur (<[x := stamp thr cur d]> h) l = category_at thr cur h l.
Proof.
  intros Hx. unfold category_at.
  destruct (decide (x = l)) as [->|].
  - by rewrite lookup_insert_eq, Hx, expiry_of_stamp.
  - by rewrite lookup_insert_ne.
Qed.

Lemma tokens_ok_spec h tokens :
  tokens_ok h tokens = true ↔
  ∀ l, l ∈ tokens → ∃ d, h !! l = Some d ∧ is_Some (expiry_of d).
Proof.
  unfold tokens_ok. rewrite forallb_forall. split.
  - intros H l Hl. apply list_elem_of_In, H in Hl.
    destruct (h !! l) as [d|]; [|done].
    exists d. split; [done|]. by apply expiry_readable_spec.
  - intros H l Hl. apply list_elem_of_In, H in Hl as (d & -> & Hd).
    by apply expiry_readable_spec.
Qed.

Lemma tokens_ok_insert_stamp thr cur h x d tokens :
  h !! x = Some d →
  tokens_ok (<[x := stamp thr cur d]> h) tokens = tokens_ok h tokens.
Proof.
  intros Hx. induction tokens as [|l rest IH]; [done|].
  simpl. fold (tokens_ok (<[x:=stamp thr cur d]> h) rest) (tokens_ok h rest).
  rewrite IH. f_equal.
  destruct (decide (x = l)) as [->|].
  - rewrite lookup_insert_eq, Hx.
    apply eq_true_iff_eq. rewrite !expiry_readable_spec.
    by rewrite expiry_of_stamp.
  - by rewrite lookup_insert_ne.
Qed.

Lemma bucket_place c c' l r :
  bucket c (place c' l r) =
  if decide (c' = c) then bucket c r ++ [l] else bucket c r.
Proof. by destruct c, c'. Qed.

Lemma for_each_analyze_token thr cur tokens : ∀ r w,
  tokens_ok (heap w) tokens = true →
  ∃ r' w',
    for_each tokens
      (TokenAnalyzer.analyze_token (DateTime thr None) (DateTime cur None)) r w
    = (Ret r', w') ∧ classified thr cur tokens r w r' w'.
Proof.
  induction tokens as [|x rest IH]; intros r w Hok.
  - exists r, w. split; [done|]. unfold classified.
    split_and!; try done. intros c. by rewrite filter_nil, app_nil_r.
  - simpl in Hok. apply andb_true_iff in Hok as [Hx Hrest].
    destruct (heap w !! x) as [d|] eqn:Hd; [|done].
    apply expiry_readable_spec in Hx as [e He].
    destruct (analyze_token_run thr cur x r w d e Hd He) as [out Hrun].
    set (w1 := World (<[x:=stamp thr cur d]> (heap w)) (clock w) (ticks w)
                     (stdout w ++ out) (gitlab w) (outbox w)) in *.
    destruct (IH (place (category_of thr cur e) x r) w1) as (r' & w' & Hloop & Hpost).
    { simpl. by rewrite tokens_ok_insert_stamp. }
    exists r', w'. split.
    { simpl. by rewrite (bind_run _ _ _ _ _ Hrun). }
    destruct Hpost as (Hb & Ht & Hi & Hh & Hc & Hk & Hg & Ho).
    unfold classified. split_and!; try done.
    + intros c. rewrite Hb, bucket_place, filter_cons. simpl.
      assert (category_at thr cur (heap w) x = Some (category_of thr cur e)) as Hcx.
      { unfold category_at. by rewrite Hd, He. }
      erewrite (list_filter_iff _ (λ l, category_at thr cur (heap w) l = Some c)); cycle 1.
      { intros l. by rewrite category_at_insert_stamp. }
      rewrite Hcx.
      destruct (decide (category_of thr cur e = c)) as [->|Hne].
      * rewrite decide_True by done. by rewrite <- app_assoc.
      * rewrite decide_False by congruence. done.
    + rewrite Ht. by destruct (category_of thr cur e).
    + rewrite Hi. by destruct (category_of thr cur e).
    + intros l. rewrite Hh. simpl.
      destruct (decide (x = l)) as [<-|Hne].
      * rewrite lookup_insert_eq, Hd, (decide_True (P := x ∈ x :: rest)) by left.
        simpl. rewrite stamp_idemp. by destruct (decide (x ∈ rest)).
      * rewrite lookup_insert_ne by done.
        destruct (decide (l ∈ rest)) as [Hin|Hin].
        -- rewrite decide_True; [done|by right].
        -- rewrite decide_False; [done|]. by intros [->|?]%elem_of_cons.
Qed.

Lemma for_each_analyze_token_inv thr cur tokens : ∀ r w r' w',
  for_each tokens
    (TokenAnalyzer.analyze_token (DateTime thr None) (DateTime cur None)) r w
  = (Ret r', w') →
  tokens_ok (heap w) tokens = true.
Proof.
  induction tokens as [|x rest IH]; intros r w r' w' Hrun; [done|].
  simpl in Hrun |- *. fold (tokens_ok (heap w) rest).
  destruct (heap w !! x) as [d|] eqn:Hd; cycle 1.
  { by rewrite (bind_raise _ _ _ _ _ (analyze_token_dangling _ _ _ _ _ Hd)) in Hrun. }
  destruct (expiry_of d) as [e|] eqn:He; cycle 1.
  { by rewrite (bind_raise _ _ _ _ _ (analyze_token_unreadable _ _ _ _ _ _ Hd He))
      in Hrun. }
  destruct (analyze_token_run thr cur x r w d e Hd He) as [out Hx].
  rewrite (bind_run _ _ _ _ _ Hx) in Hrun.
  apply IH in Hrun. simpl in Hrun.
  rewrite tokens_ok_insert_stamp in Hrun by done.
  apply andb_true_iff. split; [|done].
  apply expiry_readable_spec. by rewrite He.
Qed.

Lemma threshold_date_run now d :
  threshold_representable now d →
  timedelta_of_days d = inr (TimeDelta (d * usec_per_day)) ∧
  datetime_add (DateTime now None) (TimeDelta (d * usec_per_day)) =
    inr (DateTime (now + d * usec_per_day) None).
Proof.
  intros [Hd [Hlo Hhi]]. unfold timedelta_of_days, datetime_add. simpl.
  rewrite (proj2 (Z.ltb_ge _ _) Hd).
  rewrite (proj2 (Z.ltb_ge _ _) Hlo), (proj2 (Z.ltb_ge _ _) Hhi). done.
Qed.

Lemma threshold_date_overflow now d :
  ¬ threshold_representable now d →
  timedelta_of_days d = inl OverflowError ∨
  (timedelta_of_days d = inr (TimeDelta (d * usec_per_day)) ∧
   datetime_add (DateTime now None) (TimeDelta (d * usec_per_day)) =
     inl OverflowError).
Proof.
  intros Hn. unfold timedelta_of_days, datetime_add, threshold_representable in *.
  simpl.
  destruct (Z.ltb_spec max_delta_days (Z.abs d)); [by left|right].
  split; [done|].
  destruct (Z.ltb_spec (now + d * usec_per_day) 0); [done|].
  destruct (Z.ltb_spec max_wall (now + d * usec_per_day)); [done|].
  exfalso. apply Hn. lia.
Qed.

Lemma analyze_all_tokens_run tokens d w :
  threshold_representable (clock w (ticks w)) d →
  tokens_ok (heap w) tokens = true →
  ∃ a w',
    TokenAnalyzer.analyze_all_tokens tokens d w = (Ret a, w') ∧
    analysed (threshold_date_of w d) (current_date_of w) tokens w a w'.
Proof.
  intros Hthr Hok.
  destruct (threshold_date_run _ _ Hthr) as [Htd Hadd].
  set (w2 := World (heap w) (clock w) (S (S (ticks w))) (stdout w)
                   (gitlab w) (outbox w)).
  destruct (for_each_analyze_token (threshold_date_of w d) (current_date_of w)
              tokens (Analysis [] [] [] [] (len tokens) None) w2 Hok)
    as (a & w' & Hrun & Hb & Ht & Hi & Hh & Hc & Hk & Hg & Ho).
  exists a, w'. split.
  - unfold TokenAnalyzer.analyze_all_tokens.
    erewrite bind_run by reflexivity. rewrite Htd.
    erewrite bind_run by reflexivity. rewrite Hadd.
    erewrite bind_run by reflexivity.
    erewrite bind_run by reflexivity. exact Hrun.
  - unfold analysed. split_and!; try done.
    intros c. rewrite Hb. by destruct c.
Qed.

Lemma analyze_all_tokens_overflow tokens d w :
  ¬ threshold_representable (clock w (ticks w)) d →
  ∃ w', TokenAnalyzer.analyze_all_tokens tokens d w = (Raise OverflowError, w').
Proof.
  intros Hn. unfold TokenAnalyzer.analyze_all_tokens.
  erewrite bind_run by reflexivity.
  destruct (threshold_date_overflow _ _ Hn) as [Htd|[Htd Hadd]].
  - rewrite Htd. eexists. by erewrite bind_raise by reflexivity.
  - rewrite Htd. erewrite bind_run by reflexivity. rewrite Hadd.
    eexists. by erewrite bind_raise by reflexivity.
Qed.

(** The call returns exactly when the threshold date is representable and
    every token has a readable expiry. *)
Lemma analyze_all_tokens_returns_iff tokens d w :
  (∃ a w', TokenAnalyzer.analyze_all_tokens tokens d w = (Ret a, w')) ↔
  threshold_representable (clock w (ticks w)) d ∧ tokens_ok (heap w) tokens = true.
Proof.
  split.
  - intros (a & w' & Hrun).
    destruct (decide (threshold_representable (clock w (ticks w)) d)) as [Hthr|Hn].
    + split; [done|].
      destruct (threshold_date_run _ _ Hthr) as [Htd Hadd].
      unfold TokenAnalyzer.analyze_all_tokens in Hrun.
      erewrite bind_run in Hrun by reflexivity. rewrite Htd in Hrun.
      erewrite bind_run in Hrun by reflexivity. rewrite Hadd in Hrun.
      erewrite bind_run in Hrun by reflexivity.
      erewrite bind_run in Hrun by reflexivity.
      by apply for_each_analyze_token_inv in Hrun.
    + destruct (analyze_all_tokens_overflow tokens d w Hn) as [w'' Hr].
      congruence.
  - intros [Hthr Hok].
    destruct (analyze_all_tokens_run tokens d w Hthr Hok) as (a & w' & Hrun & _).
    eauto.
Qed.

(** Every completed call is described by [analysed]. *)
Lemma analyze_all_tokens_inv tokens d w a w' :
  TokenAnalyzer.analyze_all_tokens tokens d w = (Ret a, w') →
  threshold_representable (clock w (ticks w)) d ∧
  tokens_ok (heap w) tokens = true ∧
  analysed (threshold_date_of w d) (current_date_of w) tokens w a w'.
Proof.
  intros Hrun.
  destruct (proj1 (analyze_all_tokens_returns_iff tokens d w)) as [Hthr Hok];
    [eauto|].
  destruct (analyze_all_tokens_run tokens d w Hthr Hok) as (a2 & w2 & Hrun2 & Hpost).
  rewrite Hrun in Hrun2. by injection Hrun2 as <- <-.
Qed.

Lemma analysed_placed thr cur tokens w a w' l c :
  analysed thr cur tokens w a w' →
  l ∈ tokens → category_at thr cur (heap w) l = Some c →
  placed c l a.
Proof.
  intros (Hb & _) Hl Hc. split.
  - rewrite Hb. by apply list_elem_of_filter.
  - intros c' Hin. rewrite Hb in Hin.
    apply list_elem_of_filter in Hin as [Hc' _]. congruence.
Qed.

Lemma analysed_heap thr cur tokens w a w' l d :
  analysed thr cur tokens w a w' →
  l ∈ tokens → heap w !! l = Some d →
  heap w' !! l = Some (stamp thr cur d).
Proof.
  intros (_ & _ & _ & Hh & _) Hl Hd.
  by rewrite Hh, decide_True, Hd.
Qed.

Lemma analysed_field thr cur tokens w a w' l d e :
  analysed thr cur tokens w a w' →
  l ∈ tokens → heap w !! l = Some d → expiry_of d = Some e →
  field w' l "status" = Some (status_of thr cur e) ∧
  field w' l "days_until_expiry" = Some (days_of cur e).
Proof.
  intros Ha Hl Hd He. unfold field.
  rewrite (analysed_heap _ _ _ _ _ _ _ _ Ha Hl Hd).
  unfold stamp. rewrite He. split.
  - apply lookup_insert_eq.
  - rewrite lookup_insert_ne by done. apply lookup_insert_eq.
Qed.

Lemma analysed_category thr cur tokens w a w' l d e :
  analysed thr cur tokens w a w' →
  l ∈ tokens → heap w !! l = Some d → expiry_of d = Some e →
  placed (category_of thr cur e) l a.
Proof.
  intros Ha Hl Hd He. eapply analysed_placed; [done..|].
  unfold category_at. by rewrite Hd, He.
Qed.

Lemma expiry_of_parsed d s t :
  d !! "expires_at" = Some (PStr s) → s ≠ "" →
  fromisoformat (str_replace "Z" "+00:00" s) = inr t →
  expiry_of d = Some (ExpiresAt (wall t)).
Proof.
  intros Hd Hs Hp. unfold expiry_of. rewrite Hd. simpl.
  destruct s; [done|]. simpl in *. by rewrite Hp.
Qed.

Lemma expiry_of_unparsable d s msg :
  d !! "expires_at" = Some (PStr s) → s ≠ "" →
  fromisoformat (str_replace "Z" "+00:00" s) = inl msg →
  expiry_of d = Some (Unparsable msg).
Proof.
  intros Hd Hs Hp. unfold expiry_of. rewrite Hd. simpl.
  destruct s; [done|]. simpl in *. by rewrite Hp.
Qed.

Lemma expiry_of_falsy d :
  truthy (default PNone (d !! "expires_at")) = false →
  expiry_of d = Some Permanent.
Proof. intros H. unfold expiry_of. by rewrite H. Qed.

Lemma tokens_ok_elem h tokens l :
  tokens_ok h tokens = true → l ∈ tokens →
  ∃ d e, h !! l = Some d ∧ expiry_of d = Some e.
Proof.
  intros Hok Hl.
  destruct (proj1 (tokens_ok_spec h tokens) Hok l Hl) as (d & Hd & e & He).
  eauto.
Qed.

Lemma analysed_total thr cur tokens w a w' l :
  analysed thr cur tokens w a w' → tokens_ok (heap w) tokens = true →
  l ∈ tokens → ∃ c, placed c l a.
Proof.
  intros Ha Hok Hl.
  destruct (tokens_ok_elem _ _ _ Hok Hl) as (d & e & Hd & He).
  eexists. by eapply analysed_category.
Qed.

End TokenRuns.

(** * The classifier *)

Section Classifier.
Context {parser : IsoParser}.

Lemma analyze_all_tokens_total tokens d w :
  threshold_representable (clock w (ticks w)) d →
  tokens_ok (heap w) tokens = true →
  ∃ a w', TokenAnalyzer.analyze_all_tokens tokens d w = (Ret a, w').
Proof. intros. by apply analyze_all_tokens_returns_iff. Qed.

(** C1: a token whose [expires_at] parses is classified by the first rule
    that matches, in the order [expires_at <= now] (Expired),
    [expires_at <= now + threshold_days] (ExpiringSoon, the boundary instant
    included), otherwise Healthy; an expiry that satisfies both tests is
    Expired, and one day past a non-negative threshold is Healthy.  The call
    returns when the threshold date is representable and the expiries of
    the batch are readable. *)
Theorem classification_rule_order tokens d w now token tok s t :
  frozen w now →
  token ∈ tokens →
  heap w !! token = Some tok →
  tok !! "expires_at" = Some (PStr s) → s ≠ "" →
  fromisoformat (str_replace "Z" "+00:00" s) = inr t →
  (threshold_representable now d → tokens_ok (heap w) tokens = true →
   ∃ a w', TokenAnalyzer.analyze_all_tokens tokens d w = (Ret a, w')) ∧
  ∀ a w',
    TokenAnalyzer.analyze_all_tokens tokens d w = (Ret a, w') →
    (wall t <= now →
       placed Expired token a ∧
       field w' token "status" = Some (PStr "Expired")) ∧
    (now < wall t <= now + d * usec_per_day →
       placed ExpiringSoon token a ∧
       field w' token "status" = Some (PStr "Expiring Soon")) ∧
    (now < wall t ∧ now + d * usec_per_day < wall t →
       placed Healthy token a ∧
       field w' token "status" = Some (PStr "Healthy")) ∧
    (wall t <= now ∧ wall t <= now + d * usec_per_day →
       placed Expired token a) ∧
    (0 < d → wall t = now + d * usec_per_day →
       placed ExpiringSoon token a) ∧
    (0 <= d → wall t = now + (d + 1) * usec_per_day →
       placed Healthy token a).
Proof.
  intros Hnow Hin Htok Hexp Hs Hparse.
  pose proof (Hnow (ticks w)) as Hn1. pose proof (Hnow (S (ticks w))) as Hn2.
  split.
  { rewrite <- Hn1. apply analyze_all_tokens_total. }
  intros a w' Hrun. apply analyze_all_tokens_inv in Hrun as (_ & _ & Ha).
  unfold threshold_date_of, current_date_of in Ha. rewrite Hn1, Hn2 in Ha.
  pose proof (expiry_of_parsed _ _ _ Hexp Hs Hparse) as He.
  pose proof (analysed_category _ _ _ _ _ _ _ _ _ Ha Hin Htok He) as Hcat.
  destruct (analysed_field _ _ _ _ _ _ _ _ _ Ha Hin Htok He) as [Hst _].
  simpl in Hcat, Hst. unfold usec_per_day in *.
  destruct (Z.leb_spec (wall t) now);
    [|destruct (Z.leb_spec (wall t) (now + d * 86400000000))];
    split_and!; intros; (done || lia).
Qed.

(** A string the parser refuses sends the loop body through the handler:
    the body returns, with the token appended to healthy. *)
Lemma analyze_token_unparsable thr cur l r w d s msg :
  heap w !! l = Some d →
  d !! "expires_at" = Some (PStr s) → s ≠ "" →
  fromisoformat (str_replace "Z" "+00:00" s) = inl msg →
  ∃ w1, TokenAnalyzer.analyze_token thr cur l r w = (Ret (append_healthy l r), w1).
Proof.
  intros Hl Hv Hs Hp. unfold TokenAnalyzer.analyze_token.
  rewrite (bind_run _ _ _ _ _ (dict_get_run _ _ _ _ d Hl)).
  rewrite Hv. simpl. destruct s; [done|]. simpl.
  erewrite try_except_raise; cycle 1.
  { rewrite (bind_run _ _ _ _ _ (dict_getitem_run _ _ _ _ _ Hl Hv)).
    simpl. erewrite bind_run by reflexivity.
    unfold TokenAnalyzer.datetime_fromisoformat. simpl in Hp. rewrite Hp.
    by erewrite bind_raise by reflexivity. }
  simpl. rewrite (bind_run _ _ _ _ _ (dict_get_run _ _ _ _ d Hl)).
  erewrite bind_run by reflexivity. do 2 run_setitem. by eexists.
Qed.

(** C2: a token whose [expires_at] string reaches the parser and is
    refused does not make the call raise: the loop body returns on it, its
    status is "Error", its [days_until_expiry] is "Unknown", it is in the
    Healthy bucket only, [total_count] counts it and every input record is
    classified. *)
Theorem parse_error_fail_open tokens d w token tok s msg :
  token ∈ tokens →
  heap w !! token = Some tok →
  tok !! "expires_at" = Some (PStr s) → s ≠ "" →
  fromisoformat (str_replace "Z" "+00:00" s) = inl msg →
  (∀ thr cur r w0,
     heap w0 !! token = Some tok →
     ∃ w1, TokenAnalyzer.analyze_token thr cur token r w0
             = (Ret (append_healthy token r), w1)) ∧
  (threshold_representable (clock w (ticks w)) d →
   tokens_ok (heap w) tokens = true →
   ∃ a w', TokenAnalyzer.analyze_all_tokens tokens d w = (Ret a, w')) ∧
  ∀ a w',
    TokenAnalyzer.analyze_all_tokens tokens d w = (Ret a, w') →
    placed Healthy token a ∧
    field w' token "status" = Some (PStr "Error") ∧
    field w' token "days_until_expiry" = Some (PStr "Unknown") ∧
    total_count a = len tokens ∧
    (∀ l, l ∈ tokens → ∃ c, placed c l a).
Proof.
  intros Hin Htok Hexp Hs Hparse. split_and!.
  - intros thr cur r w0 Hw0. by eapply analyze_token_unparsable.
  - apply analyze_all_tokens_total.
  - intros a w' Hrun. apply analyze_all_tokens_inv in Hrun as (_ & Hok & Ha).
    pose proof (expiry_of_unparsable _ _ _ Hexp Hs Hparse) as He.
    pose proof (analysed_category _ _ _ _ _ _ _ _ _ Ha Hin Htok He) as Hcat.
    destruct (analysed_field _ _ _ _ _ _ _ _ _ Ha Hin Htok He) as [Hst Hdy].
    split_and!; try done.
    + apply Ha.
    + intros l Hl. by eapply analysed_total.
Qed.

(** The loop body consults the parser only for a truthy [expires_at]. *)
Lemma analyze_token_falsy_parser_free (p1 p2 : IsoParser) thr cur l r w d :
  heap w !! l = Some d →
  truthy (default PNone (d !! "expires_at")) = false →
  @TokenAnalyzer.analyze_token p1 thr cur l r w =
  @TokenAnalyzer.analyze_token p2 thr cur l r w.
Proof.
  intros Hl Ht. unfold TokenAnalyzer.analyze_token.
  rewrite !(bind_run _ _ _ _ _ (dict_get_run _ _ _ _ d Hl)).
  by rewrite Ht.
Qed.

Lemma falsy_expiry_run tokens d w a w' token tok :
  TokenAnalyzer.analyze_all_tokens tokens d w = (Ret a, w') →
  token ∈ tokens →
  heap w !! token = Some tok →
  truthy (default PNone (tok !! "expires_at")) = false →
  placed NoExpiration token a ∧
  field w' token "status" = Some (PStr "No Expiration") ∧
  field w' token "days_until_expiry" = Some (PStr "Never").
Proof.
  intros Hrun Hin Htok Hfalsy.
  apply analyze_all_tokens_inv in Hrun as (_ & _ & Ha).
  pose proof (expiry_of_falsy _ Hfalsy) as He.
  pose proof (analysed_category _ _ _ _ _ _ _ _ _ Ha Hin Htok He) as Hcat.
  by destruct (analysed_field _ _ _ _ _ _ _ _ _ Ha Hin Htok He) as [Hst Hdy].
Qed.

(** On a falsy [expires_at] the loop body takes the first branch: it
    appends to no_expiration and prints nothing. *)
Lemma analyze_token_falsy thr cur l r w d :
  heap w !! l = Some d →
  truthy (default PNone (d !! "expires_at")) = false →
  ∃ w1,
    TokenAnalyzer.analyze_token thr cur l r w
      = (Ret (append_no_expiration l r), w1) ∧
    stdout w1 = stdout w.
Proof.
  intros Hl Ht. unfold TokenAnalyzer.analyze_token.
  rewrite (bind_run _ _ _ _ _ (dict_get_run _ _ _ _ d Hl)).
  rewrite Ht. simpl. do 2 run_setitem. eexists. split; [reflexivity|].
  by destruct w.
Qed.

(** C5: a token without the [expires_at] field is in the no_expiration
    bucket only, with status "No Expiration" and [days_until_expiry]
    "Never", after every call that returns, whatever the threshold and the
    clock; the loop body takes the permanent-token branch on it and does not
    consult the date parser. *)
Theorem absent_expiry_is_permanent tokens d w token tok :
  token ∈ tokens →
  heap w !! token = Some tok →
  tok !! "expires_at" = None →
  (threshold_representable (clock w (ticks w)) d →
   tokens_ok (heap w) tokens = true →
   ∃ a w', TokenAnalyzer.analyze_all_tokens tokens d w = (Ret a, w')) ∧
  (∀ a w',
     TokenAnalyzer.analyze_all_tokens tokens d w = (Ret a, w') →
     placed NoExpiration token a ∧
     field w' token "status" = Some (PStr "No Expiration") ∧
     field w' token "days_until_expiry" = Some (PStr "Never")) ∧
  (∀ thr cur r w0,
     heap w0 !! token = Some tok →
     ∃ w1,
       TokenAnalyzer.analyze_token thr cur token r w0
         = (Ret (append_no_expiration token r), w1) ∧
       stdout w1 = stdout w0) ∧
  (∀ (p1 p2 : IsoParser) thr cur r w0,
     heap w0 !! token = Some tok →
     @TokenAnalyzer.analyze_token p1 thr cur token r w0 =
     @TokenAnalyzer.analyze_token p2 thr cur token r w0).
Proof.
  intros Hin Htok Hexp.
  assert (truthy (default PNone (tok !! "expires_at")) = false) as Hfalsy
    by (by rewrite Hexp).
  split_and!.
  - apply analyze_all_tokens_total.
  - intros a w' Hrun. by eapply falsy_expiry_run.
  - intros thr cur r w0 Hw0. by eapply analyze_token_falsy.
  - intros p1 p2 thr cur r w0 Hw0. by eapply analyze_token_falsy_parser_free.
Qed.

(** C9: a token whose [expires_at] is present and falsy (the empty string,
    [None], [False], zero, an empty list or dictionary) is treated as one
    without the field: no_expiration bucket only, status "No Expiration",
    [days_until_expiry] "Never"; the loop body takes the permanent-token
    branch, which prints no parse error and does not consult the parser. *)
Theorem falsy_expiry_is_permanent tokens d w token tok v :
  token ∈ tokens →
  heap w !! token = Some tok →
  tok !! "expires_at" = Some v → truthy v = false →
  (threshold_representable (clock w (ticks w)) d →
   tokens_ok (heap w) tokens = true →
   ∃ a w', TokenAnalyzer.analyze_all_tokens tokens d w = (Ret a, w')) ∧
  (∀ a w',
     TokenAnalyzer.analyze_all_tokens tokens d w = (Ret a, w') →
     placed NoExpiration token a ∧
     field w' token "status" = Some (PStr "No Expiration") ∧
     field w' token "days_until_expiry" = Some (PStr "Never")) ∧
  (∀ thr cur r w0,
     heap w0 !! token = Some tok →
     ∃ w1,
       TokenAnalyzer.analyze_token thr cur token r w0
         = (Ret (append_no_expiration token r), w1) ∧
       stdout w1 = stdout w0) ∧
  (∀ (p1 p2 : IsoParser) thr cur r w0,
     heap w0 !! token = Some tok →
     @TokenAnalyzer.analyze_token p1 thr cur token r w0 =
     @TokenAnalyzer.analyze_token p2 thr cur token r w0).
Proof.
  intros Hin Htok Hexp Hv.
  assert (truthy (default PNone (tok !! "expires_at")) = false) as Hfalsy
    by (by rewrite Hexp).
  split_and!.
  - apply analyze_all_tokens_total.
  - intros a w' Hrun. by eapply falsy_expiry_run.
  - intros thr cur r w0 Hw0. by eapply analyze_token_falsy.
  - intros p1 p2 thr cur r w0 Hw0. by eapply analyze_token_falsy_parser_free.
Qed.

(** The falsy values of JSON. *)
Example falsy_values :
  Forall (λ v, truthy v = false)
    [PStr ""; PNone; PBool false; PInt 0; PFloat 0; PFloat (-0); PList []; PDict []].
Proof. repeat constructor. Qed.

Lemma partition_by_category (f : loc → option category) tokens :
  (∀ l, l ∈ tokens → is_Some (f l)) →
  filter (λ l, f l = Some Expired) tokens ++
  filter (λ l, f l = Some ExpiringSoon) tokens ++
  filter (λ l, f l = Some Healthy) tokens ++
  filter (λ l, f l = Some NoExpiration) tokens ≡ₚ tokens.
Proof.
  induction tokens as [|x rest IH]; intros Hf; [done|].
  rewrite !filter_cons.
  destruct (Hf x) as [c Hc]; [by left|]. rewrite Hc.
  assert (∀ l, l ∈ rest → is_Some (f l)) as Hrest by (intros; apply Hf; by right).
  specialize (IH Hrest).
  destruct c; simpl;
    repeat (rewrite decide_True by done || rewrite decide_False by done).
  - by constructor.
  - rewrite <- Permutation_middle. by constructor.
  - rewrite app_assoc, <- Permutation_middle, <- app_assoc. by constructor.
  - rewrite !app_assoc, <- Permutation_middle, <- !app_assoc. by constructor.
Qed.

Lemma analysed_records_perm thr cur tokens w a w' :
  analysed thr cur tokens w a w' → tokens_ok (heap w) tokens = true →
  records a ≡ₚ tokens.
Proof.
  intros (Hb & _) Hok. unfold records.
  pose proof (Hb Expired) as H1. pose proof (Hb ExpiringSoon) as H2.
  pose proof (Hb Healthy) as H3. pose proof (Hb NoExpiration) as H4.
  simpl in H1, H2, H3, H4. rewrite H1, H2, H3, H4.
  apply partition_by_category. intros l Hl.
  destruct (tokens_ok_elem _ _ _ Hok Hl) as (d0 & e & Hd & He).
  unfold category_at. rewrite Hd, He. by eexists.
Qed.

(** The classification in terms of the two dates a call computes, whatever
    the clock does between its two reads. *)
Lemma classification_at_dates tokens d w a w' token tok s t :
  TokenAnalyzer.analyze_all_tokens tokens d w = (Ret a, w') →
  token ∈ tokens → heap w !! token = Some tok →
  tok !! "expires_at" = Some (PStr s) → s ≠ "" →
  fromisoformat (str_replace "Z" "+00:00" s) = inr t →
  placed (if wall t <=? current_date_of w then Expired
          else if wall t <=? threshold_date_of w d then ExpiringSoon
          else Healthy) token a.
Proof.
  intros Hrun Hin Htok Hexp Hs Hparse.
  apply analyze_all_tokens_inv in Hrun as (_ & _ & Ha).
  pose proof (expiry_of_parsed _ _ _ Hexp Hs Hparse) as He.
  exact (analysed_category _ _ _ _ _ _ _ _ _ Ha Hin Htok He).
Qed.

(** C3: whatever the tokens, the threshold and the clock, the result of a
    call has every input record in exactly one of the four buckets, holds
    nothing but input records, holds every record as often as the input
    does, and the four bucket lengths add up to [total_count], which is the
    length of the input. *)
Theorem buckets_partition_input tokens d w a w' :
  TokenAnalyzer.analyze_all_tokens tokens d w = (Ret a, w') →
  (∀ l, l ∈ tokens → ∃ c, placed c l a) ∧
  (∀ c l, l ∈ bucket c a → l ∈ tokens) ∧
  records a ≡ₚ tokens ∧
  len (expired a) + len (expiring_soon a) + len (healthy a)
    + len (no_expiration a) = total_count a ∧
  total_count a = len tokens.
Proof.
  intros Hrun. apply analyze_all_tokens_inv in Hrun as (Hthr & Hok & Ha).
  pose proof (analysed_records_perm _ _ _ _ _ _ Ha Hok) as Hperm.
  split_and!.
  - intros l Hl. by eapply analysed_total.
  - intros c l Hl. destruct Ha as (Hb & _). rewrite Hb in Hl.
    by apply list_elem_of_filter in Hl as [_ ?].
  - done.
  - destruct Ha as (_ & Ht & _). rewrite Ht.
    apply Permutation_length in Hperm. unfold records in Hperm.
    rewrite !length_app in Hperm. unfold len. lia.
  - apply Ha.
Qed.

(** C4: for a token whose [expires_at] parses, [days_until_expiry] is the
    floor of [expires_at - now] in days, where [now] is the current date of
    the call: 18 hours give 0 and an expiry before [now] gives a negative
    number; after a call every input record has the field, holding a number,
    "Never" or "Unknown". *)
Theorem days_until_expiry_floor tokens d w a w' :
  TokenAnalyzer.analyze_all_tokens tokens d w = (Ret a, w') →
  (∀ token tok s t,
     token ∈ tokens → heap w !! token = Some tok →
     tok !! "expires_at" = Some (PStr s) → s ≠ "" →
     fromisoformat (str_replace "Z" "+00:00" s) = inr t →
     ∃ n,
       field w' token "days_until_expiry" = Some (PInt n) ∧
       n * usec_per_day <= wall t - current_date_of w < (n + 1) * usec_per_day ∧
       (wall t - current_date_of w = 18 * 3600 * 1000000 → n = 0) ∧
       (wall t < current_date_of w → n < 0)) ∧
  (∀ token,
     token ∈ tokens →
     ∃ v,
       field w' token "days_until_expiry" = Some v ∧
       ((∃ n, v = PInt n) ∨ v = PStr "Never" ∨ v = PStr "Unknown")).
Proof.
  intros Hrun. apply analyze_all_tokens_inv in Hrun as (Hthr & Hok & Ha).
  split.
  - intros token tok s t Hin Htok Hexp Hs Hparse.
    pose proof (expiry_of_parsed _ _ _ Hexp Hs Hparse) as He.
    destruct (analysed_field _ _ _ _ _ _ _ _ _ Ha Hin Htok He) as [_ Hdy].
    simpl in Hdy. eexists. split; [exact Hdy|].
    unfold usec_per_day.
    pose proof (Z.div_mod (wall t - current_date_of w) 86400000000 ltac:(done)).
    pose proof (Z.mod_pos_bound (wall t - current_date_of w) 86400000000 ltac:(done)).
    split_and!; [lia|lia| |]; intros; lia.
  - intros token Hin.
    destruct (tokens_ok_elem _ _ _ Hok Hin) as (d0 & e & Hd & He).
    destruct (analysed_field _ _ _ _ _ _ _ _ _ Ha Hin Hd He) as [_ Hdy].
    eexists. split; [exact Hdy|].
    destruct e; simpl; eauto.
Qed.

End Classifier.

(** * The aggregator *)

Lemma bucket_merge c x y :
  bucket c (Monitor._merge_analysis x y) = bucket c x ++ bucket c y.
Proof. by destruct c. Qed.

Lemma merge_assoc x y z :
  Monitor._merge_analysis (Monitor._merge_analysis x y) z =
  Monitor._merge_analysis x (Monitor._merge_analysis y z).
Proof.
  unfold Monitor._merge_analysis. simpl. by rewrite <- !app_assoc, Z.add_assoc.
Qed.

Lemma merge_all_bucket c batches : ∀ acc,
  bucket c (merge_all acc batches) =
  bucket c acc ++ concat (bucket c <$> batches).
Proof.
  induction batches as [|b rest IH]; intros acc; simpl.
  - by rewrite app_nil_r.
  - unfold merge_all in *. rewrite IH, bucket_merge. by rewrite <- app_assoc.
Qed.

Lemma merge_all_total batches : ∀ acc,
  total_count (merge_all acc batches) = total_count acc + total_of batches.
Proof.
  induction batches as [|b rest IH]; intros acc; simpl.
  - lia.
  - unfold merge_all in *. rewrite IH. simpl. lia.
Qed.

Lemma total_of_counted batches :
  Forall counted batches →
  total_of batches =
  len (concat (bucket Expired <$> batches)) +
  len (concat (bucket ExpiringSoon <$> batches)) +
  len (concat (bucket Healthy <$> batches)) +
  len (concat (bucket NoExpiration <$> batches)).
Proof.
  unfold len. induction 1 as [|b rest Hb _ IH]; [done|].
  simpl. rewrite IH, Hb. unfold records, len, fmap.
  rewrite !length_app. lia.
Qed.

Lemma total_of_perm batches batches' :
  batches ≡ₚ batches' → total_of batches = total_of batches'.
Proof. induction 1; simpl; lia. Qed.

Lemma concat_bucket_perm c batches batches' :
  batches ≡ₚ batches' →
  concat (bucket c <$> batches) ≡ₚ concat (bucket c <$> batches').
Proof. intros H. by rewrite H. Qed.

(** C6: merging concatenates each bucket of the addition onto the matching
    bucket of the accumulator, in order, and adds the counts; it is
    associative; and the buckets, as multisets, and the count of a sequence
    of merges depend neither on the order of the batches nor on how a fixed
    collection of classified records was cut into batches. *)
Theorem merge_concatenates_and_commutes acc x y z batches batches' :
  Forall counted batches → Forall counted batches' →
  (∀ c, concat (bucket c <$> batches) ≡ₚ concat (bucket c <$> batches')) →
  (∀ c, bucket c (Monitor._merge_analysis x y) = bucket c x ++ bucket c y) ∧
  total_count (Monitor._merge_analysis x y) = total_count x + total_count y ∧
  Monitor._merge_analysis (Monitor._merge_analysis x y) z =
    Monitor._merge_analysis x (Monitor._merge_analysis y z) ∧
  (∀ c, bucket c (merge_all acc [x; y; z]) ≡ₚ bucket c (merge_all acc [y; z; x])) ∧
  total_count (merge_all acc [x; y; z]) = total_count (merge_all acc [y; z; x]) ∧
  (∀ c, bucket c (merge_all acc batches) ≡ₚ bucket c (merge_all acc batches')) ∧
  total_count (merge_all acc batches) = total_count (merge_all acc batches') ∧
  (∀ bs bs', bs ≡ₚ bs' →
     (∀ c, bucket c (merge_all acc bs) ≡ₚ bucket c (merge_all acc bs')) ∧
     total_count (merge_all acc bs) = total_count (merge_all acc bs')).
Proof.
  intros Hc Hc' Hsame.
  assert (∀ bs bs', bs ≡ₚ bs' →
     (∀ c, bucket c (merge_all acc bs) ≡ₚ bucket c (merge_all acc bs')) ∧
     total_count (merge_all acc bs) = total_count (merge_all acc bs')) as Horder.
  { intros bs bs' Hp. split.
    - intros c. rewrite !merge_all_bucket. by rewrite (concat_bucket_perm c _ _ Hp).
    - rewrite !merge_all_total. by rewrite (total_of_perm _ _ Hp). }
  assert ([x; y; z] ≡ₚ [y; z; x]) as Hrot.
  { change [y; z; x] with ([y; z] ++ [x]). by rewrite <- Permutation_cons_append. }
  split_and!; try done.
  - intros c. apply bucket_merge.
  - apply merge_assoc.
  - apply (Horder _ _ Hrot).
  - apply (Horder _ _ Hrot).
  - intros c. rewrite !merge_all_bucket. by rewrite Hsame.
  - rewrite !merge_all_total, !total_of_counted by done.
    unfold len. by rewrite !(Permutation_length (Hsame _)).
Qed.

Lemma quiet_print l : quiet (print l).
Proof. intros w. by eexists. Qed.

Lemma quiet_seq m k : quiet m → quiet k → quiet (m ;; k).
Proof.
  intros Hm Hk w. destruct (Hm w) as (w1 & Hrun & Ho).
  destruct (Hk w1) as (w2 & Hrun2 & Ho2).
  exists w2. rewrite (bind_run _ _ _ _ _ Hrun). split; [done|congruence].
Qed.

Lemma sends_after x m k : quiet m → sends x k → sends x (m ;; k).
Proof.
  intros Hm Hk w. destruct (Hm w) as (w1 & Hrun & Ho).
  destruct (Hk w1) as (w2 & Hrun2 & Ho2).
  exists w2. rewrite (bind_run _ _ _ _ _ Hrun). split; [done|congruence].
Qed.

Lemma sends_before x m k : sends x m → quiet k → sends x (m ;; k).
Proof.
  intros Hm Hk w. destruct (Hm w) as (w1 & Hrun & Ho).
  destruct (Hk w1) as (w2 & Hrun2 & Ho2).
  exists w2. rewrite (bind_run _ _ _ _ _ Hrun). split; [done|congruence].
Qed.

(** The reporter's own gate lets through what the orchestrator lets
    through. *)
Lemma send_notification_sends b a :
  b = true ∨ 0 < problematic_count (TokenAnalyzer.get_summary_stats a) →
  sends (Monitor.with_include_all_tokens b a)
        (EmailReporter.send_notification (Monitor.with_include_all_tokens b a)).
Proof.
  intros Hyes w. unfold EmailReporter.send_notification.
  assert (negb (default false
                  (include_all_tokens (Monitor.with_include_all_tokens b a)))
          && (problematic_count
                (TokenAnalyzer.get_summary_stats
                   (Monitor.with_include_all_tokens b a)) =? 0) = false) as ->.
  { apply andb_false_iff. simpl in *.
    destruct Hyes as [->|Hpos]; [by left|right]. apply Z.eqb_neq. lia. }
  by eexists.
Qed.

Lemma notify_sends cfg a :
  send_all_tokens cfg = true ∨
    0 < problematic_count (TokenAnalyzer.get_summary_stats a) →
  sends (Monitor.with_include_all_tokens (send_all_tokens cfg) a)
        (Monitor._print_summary_and_notify cfg a).
Proof.
  intros Hyes. unfold Monitor._print_summary_and_notify.
  assert (send_all_tokens cfg
          || (0 <? problematic_count (TokenAnalyzer.get_summary_stats a)) = true)
    as ->.
  { apply orb_true_iff. destruct Hyes as [?|?%Z.ltb_lt]; auto. }
  do 6 (apply sends_after; [apply quiet_print|]).
  apply sends_before; [|apply quiet_print].
  apply sends_after; [apply quiet_print|].
  by apply send_notification_sends.
Qed.

Lemma notify_quiet cfg a :
  ¬ (send_all_tokens cfg = true ∨
       0 < problematic_count (TokenAnalyzer.get_summary_stats a)) →
  quiet (Monitor._print_summary_and_notify cfg a).
Proof.
  intros Hno. unfold Monitor._print_summary_and_notify.
  assert (send_all_tokens cfg
          || (0 <? problematic_count (TokenAnalyzer.get_summary_stats a)) = false)
    as ->.
  { apply orb_false_iff. split.
    - destruct (send_all_tokens cfg); [|done]. exfalso. auto.
    - apply Z.ltb_ge. lia. }
  do 6 (apply quiet_seq; [apply quiet_print|]).
  apply quiet_seq; [|apply quiet_print].
  apply quiet_seq; apply quiet_print.
Qed.

(** C8: the report goes to the mail transport if and only if the send-all
    flag is set or [problematic_count], the sum of the expired and expiring
    counts of [get_summary_stats], is positive; otherwise nothing is sent
    and nothing is raised. *)
Theorem report_sent_iff cfg a w :
  let stats := TokenAnalyzer.get_summary_stats a in
  ∃ w',
    Monitor._print_summary_and_notify cfg a w = (Ret tt, w') ∧
    problematic_count stats = expired_count stats + expiring_count stats ∧
    problematic_count stats = len (expired a) + len (expiring_soon a) ∧
    (send_all_tokens cfg = true ∨ 0 < problematic_count stats →
       outbox w' =
       outbox w ++ [Monitor.with_include_all_tokens (send_all_tokens cfg) a]) ∧
    (¬ (send_all_tokens cfg = true ∨ 0 < problematic_count stats) →
       outbox w' = outbox w) ∧
    (outbox w' ≠ outbox w ↔
       send_all_tokens cfg = true ∨ 0 < problematic_count stats).
Proof.
  intros stats.
  destruct (decide (send_all_tokens cfg = true ∨ 0 < problematic_count stats))
    as [Hyes|Hno].
  - destruct (notify_sends cfg a Hyes w) as (w' & Hrun & Ho).
    exists w'. split_and!; try done.
    split; [done|]. intros _ Heq. rewrite Ho in Heq.
    apply (f_equal length) in Heq. rewrite length_app in Heq. simpl in Heq. lia.
  - destruct (notify_quiet cfg a Hno w) as (w' & Hrun & Ho).
    exists w'. split_and!; try done.
Qed.

(** ** Scope metadata *)

Lemma tag_idemp k1 v1 k2 v2 d :
  tag k1 v1 k2 v2 (tag k1 v1 k2 v2 d) = tag k1 v1 k2 v2 d.
Proof.
  unfold tag. apply map_eq. intros k.
  destruct (decide (k2 = k)) as [->|]; [by rewrite !lookup_insert_eq|].
  rewrite !(lookup_insert_ne _ k2) by done.
  destruct (decide (k1 = k)) as [->|]; [by rewrite !lookup_insert_eq|].
  rewrite !(lookup_insert_ne _ k1) by done.
  rewrite !lookup_insert_ne by done. done.
Qed.

Lemma for_each_ext {A S} (body1 body2 : A → S → M S) xs :
  (∀ x s w, body1 x s w = body2 x s w) →
  ∀ s w, for_each xs body1 s w = for_each xs body2 s w.
Proof.
  intros Hext. induction xs as [|x rest IH]; intros s w; [done|].
  simpl. unfold bind. rewrite Hext.
  destruct (body2 x s w) as [[s'|e] w1]; [apply IH|done].
Qed.

Lemma for_each_app {A} (body : A → unit → M unit) xs ys w :
  for_each (xs ++ ys) body tt w =
  (for_each xs body tt ;; for_each ys body tt) w.
Proof.
  revert w. induction xs as [|x rest IH]; intros w; [done|].
  simpl. unfold bind at 1 2 3.
  destruct (body x tt w) as [[[]|e] w1]; [apply IH|done].
Qed.

Lemma for_each_concat {A} (body : A → unit → M unit) (xss : list (list A)) w :
  for_each xss (λ xs (_ : unit), for_each xs body tt) tt w =
  for_each (concat xss) body tt w.
Proof.
  revert w. induction xss as [|xs rest IH]; intros w; [done|].
  simpl. rewrite for_each_app. unfold bind.
  destruct (for_each xs body tt w) as [[[]|e] w1]; [apply IH|done].
Qed.

Lemma for_each_setitem2_run k1 v1 k2 v2 ls : ∀ w,
  (∀ l, l ∈ ls → is_Some (heap w !! l)) →
  ∃ w',
    for_each ls (λ token (_ : unit),
      dict_setitem token k1 v1 ;; dict_setitem token k2 v2) tt w = (Ret tt, w') ∧
    (∀ l, heap w' !! l =
          if decide (l ∈ ls) then tag k1 v1 k2 v2 <$> heap w !! l
          else heap w !! l) ∧
    same_but_heap w w'.
Proof.
  induction ls as [|x rest IH]; intros w Hall.
  - exists w. by split_and!.
  - destruct (Hall x) as [d Hd]; [by left|].
    set (w1 := set_heap <[x := tag k1 v1 k2 v2 d]> w).
    destruct (IH w1) as (w' & Hrun & Hh & Hs).
    { intros l Hl. simpl. destruct (decide (x = l)) as [->|].
      - rewrite lookup_insert_eq. by eexists.
      - rewrite lookup_insert_ne by done. apply Hall. by right. }
    exists w'. split_and!.
    + simpl. erewrite bind_run; [exact Hrun|].
      erewrite bind_run by (by apply dict_setitem_run).
      erewrite dict_setitem_run by (simpl; apply lookup_insert_eq).
      f_equal. destruct w. unfold w1, set_heap, tag. simpl.
      by rewrite insert_insert_eq.
    + intros l. rewrite Hh. simpl.
      destruct (decide (x = l)) as [<-|Hne].
      * rewrite lookup_insert_eq, Hd, (decide_True (P := x ∈ x :: rest)) by left.
        simpl. rewrite tag_idemp. by destruct (decide (x ∈ rest)).
      * rewrite lookup_insert_ne by done.
        destruct (decide (l ∈ rest)) as [Hin|Hin].
        -- rewrite decide_True; [done|by right].
        -- rewrite decide_False; [done|]. by intros [->|?]%elem_of_cons.
    + destruct Hs as (? & ? & ? & ? & ?). by destruct w.
Qed.

Lemma concat_categories a : concat (Monitor.categories a) = records a.
Proof. unfold Monitor.categories, records. simpl. by rewrite app_nil_r. Qed.

Lemma add_project_info_run project a w name :
  project !! "name" = Some name →
  (∀ l, l ∈ records a → is_Some (heap w !! l)) →
  ∃ w',
    Monitor.add_project_info project a w = (Ret tt, w') ∧
    (∀ l, heap w' !! l =
          if decide (l ∈ records a)
          then tag "project_name" name "project_path"
                   (default name (project !! "path_with_namespace"))
               <$> heap w !! l
          else heap w !! l) ∧
    same_but_heap w w'.
Proof.
  intros Hname Hall. unfold Monitor.add_project_info.
  rewrite for_each_concat, concat_categories.
  erewrite for_each_ext; [by apply for_each_setitem2_run|].
  intros token [] w0. unfold getitem. rewrite Hname.
  erewrite bind_run by reflexivity. unfold bind.
  destruct (dict_setitem token "project_name" name w0) as [[[]|e] w1]; done.
Qed.

Lemma add_group_info_run group a w name :
  group !! "name" = Some name →
  (∀ l, l ∈ records a → is_Some (heap w !! l)) →
  ∃ w',
    Monitor.add_group_info group a w = (Ret tt, w') ∧
    (∀ l, heap w' !! l =
          if decide (l ∈ records a)
          then tag "group_name" name "group_path"
                   (default name (group !! "full_path"))
               <$> heap w !! l
          else heap w !! l) ∧
    same_but_heap w w'.
Proof.
  intros Hname Hall. unfold Monitor.add_group_info.
  rewrite for_each_concat, concat_categories.
  erewrite for_each_ext; [by apply for_each_setitem2_run|].
  intros token [] w0. unfold getitem. rewrite Hname.
  erewrite bind_run by reflexivity. unfold bind.
  destruct (dict_setitem token "group_name" name w0) as [[[]|e] w1]; done.
Qed.

(** Without a name the first record makes the loop raise; there is nothing
    to do for a batch without records. *)
Lemma add_project_info_nameless project a w l d :
  project !! "name" = None →
  records a !! 0%nat = Some l → heap w !! l = Some d →
  Monitor.add_project_info project a w = (Raise (KeyError "name"), w).
Proof.
  intros Hname Hl Hd. unfold Monitor.add_project_info.
  rewrite for_each_concat, concat_categories.
  destruct (records a) as [|l' rest]; [done|].
  simpl in *. unfold getitem. rewrite Hname. by unfold bind.
Qed.

Lemma add_group_info_nameless group a w l d :
  group !! "name" = None →
  records a !! 0%nat = Some l → heap w !! l = Some d →
  Monitor.add_group_info group a w = (Raise (KeyError "name"), w).
Proof.
  intros Hname Hl Hd. unfold Monitor.add_group_info.
  rewrite for_each_concat, concat_categories.
  destruct (records a) as [|l' rest]; [done|].
  simpl in *. unfold getitem. rewrite Hname. by unfold bind.
Qed.

(** ** Fetching a batch: new records only *)

Lemma response_json_run objects : ∀ w,
  ∃ ls w',
    GitLabAPI.response_json objects w = (Ret ls, w') ∧
    fresh_batch ls w w' ∧ same_but_heap w w'.
Proof.
  induction objects as [|d rest IH]; intros w.
  - exists [], w. split_and!; try done. split; [by intros ? ?%elem_of_nil|done].
  - set (l := fresh (dom (heap w))).
    assert (heap w !! l = None) as Hl.
    { apply not_elem_of_dom. apply is_fresh. }
    destruct (IH (set_heap <[l := d]> w)) as (ls & w' & Hrun & [Hnew Hold] & Hs).
    simpl in Hnew, Hold.
    assert (l ∉ ls) as Hnotin.
    { intros Hin. apply Hnew in Hin as [Hin _].
      by rewrite lookup_insert_eq in Hin. }
    exists (l :: ls), w'. split_and!.
    + simpl. unfold bind at 1. unfold GitLabAPI.new_dict. fold l.
      by rewrite (bind_run _ _ _ _ _ Hrun).
    + split.
      * intros l' [->|Hin]%elem_of_cons.
        -- split; [done|]. rewrite Hold by done. rewrite lookup_insert_eq. by eexists.
        -- destruct (Hnew l' Hin) as [Hn Hs']. split; [|done].
           destruct (decide (l = l')) as [->|Hne]; [done|].
           by rewrite lookup_insert_ne in Hn.
      * intros l' Hl'. apply not_elem_of_cons in Hl' as [Hne Hl'].
        rewrite Hold by done. by rewrite lookup_insert_ne.
    + destruct Hs as (? & ? & ? & ? & ?). by destruct w.
Qed.

(** The shape shared by [get_project_access_tokens] and
    [get_group_access_tokens]. *)
Lemma fetch_and_tag_run answer k1 v1 k2 v2 (handler : exn → M (list loc)) w :
  (∀ e w0, ∃ w1, handler e w0 = (Ret [], w1) ∧ heap w1 = heap w0) →
  ∃ ls w',
    try_except
      (let* tokens := GitLabAPI.requests_get_json answer in
       for_each tokens (λ token (_ : unit),
         dict_setitem token k1 v1 ;; dict_setitem token k2 v2) tt ;;
       ret tokens)
      (GitLabAPI.except_RequestException handler) w = (Ret ls, w') ∧
    fresh_batch ls w w'.
Proof.
  intros Hhandler. unfold GitLabAPI.requests_get_json.
  destruct (answer (gitlab w)) as [objects|] eqn:Hans.
  - destruct (response_json_run objects w) as (ls & w1 & Hjson & [Hnew Hold] & _).
    destruct (for_each_setitem2_run k1 v1 k2 v2 ls w1) as (w2 & Htag & Hh & _).
    { intros l Hl. by apply Hnew. }
    exists ls, w2. split.
    + apply try_except_run. unfold bind at 1. rewrite Hans, Hjson.
      by rewrite (bind_run _ _ _ _ _ Htag).
    + split.
      * intros l Hl. destruct (Hnew l Hl) as [Hn [d Hd]]. split; [done|].
        rewrite Hh, decide_True, Hd by done. by eexists.
      * intros l Hl. rewrite Hh, decide_False by done. by apply Hold.
  - destruct (Hhandler RequestException w) as (w1 & Hrun & Hheap).
    exists [], w1. split.
    + erewrite try_except_raise; cycle 1.
      { unfold bind. by rewrite Hans. }
      simpl. exact Hrun.
    + split; [by intros ? ?%elem_of_nil|]. intros l _. by rewrite Hheap.
Qed.

Lemma get_project_access_tokens_run project_id w :
  ∃ ls w',
    GitLabAPI.get_project_access_tokens project_id w = (Ret ls, w') ∧
    fresh_batch ls w w'.
Proof.
  apply fetch_and_tag_run. intros e w0. eexists. split; [reflexivity|done].
Qed.

Lemma get_group_access_tokens_run group_id w :
  ∃ ls w',
    GitLabAPI.get_group_access_tokens group_id w = (Ret ls, w') ∧
    fresh_batch ls w w'.
Proof.
  apply fetch_and_tag_run. intros e w0. eexists. split; [reflexivity|done].
Qed.

Lemma filter_all {A} (P : A → Prop) `{∀ x, Decision (P x)} (l : list A) :
  (∀ x, x ∈ l → P x) → filter P l = l.
Proof.
  induction l as [|x rest IH]; intros Hall; [done|].
  rewrite filter_cons, decide_True by (apply Hall; by left).
  f_equal. apply IH. intros. apply Hall. by right.
Qed.

Lemma filter_none {A} (P : A → Prop) `{∀ x, Decision (P x)} (l : list A) :
  (∀ x, x ∈ l → ¬ P x) → filter P l = [].
Proof.
  induction l as [|x rest IH]; intros Hall; [done|].
  rewrite filter_cons, decide_False by (apply Hall; by left).
  apply IH. intros. apply Hall. by right.
Qed.

Lemma Forall2_elem_of_l {A B} (R : A → B → Prop) (xs : list A) (ys : list B) x :
  Forall2 R xs ys → x ∈ xs → ∃ y, R x y.
Proof.
  induction 1 as [|x' y' xs' ys' HR Hrest IH]; intros Hin.
  - by apply elem_of_nil in Hin.
  - apply elem_of_cons in Hin as [->|Hin]; eauto.
Qed.

Lemma filter_ext_elem {A} (P Q : A → Prop)
    `{∀ x, Decision (P x)} `{∀ x, Decision (Q x)} (l : list A) :
  (∀ x, x ∈ l → (P x ↔ Q x)) → filter P l = filter Q l.
Proof.
  induction l as [|x rest IH]; intros Hext; [done|].
  rewrite !filter_cons.
  rewrite IH by (intros; apply Hext; by right).
  destruct (decide (P x)) as [HP|HP].
  - rewrite decide_True; [done|]. apply Hext; [by left|done].
  - rewrite decide_False; [done|]. intros HQ. apply HP, Hext; [by left|done].
Qed.

Lemma expiry_readable_tag k1 v1 k2 v2 d :
  k1 ≠ "expires_at" → k2 ≠ "expires_at" →
  expiry_readable (tag k1 v1 k2 v2 d) = expiry_readable d.
Proof.
  intros H1 H2. unfold expiry_readable, tag. by rewrite !lookup_insert_ne.
Qed.

Lemma response_json_alloc objects : ∀ w,
  ∃ ls w',
    GitLabAPI.response_json objects w = (Ret ls, w') ∧
    fresh_batch ls w w' ∧ same_but_heap w w' ∧
    NoDup ls ∧ Forall2 (λ l d, heap w' !! l = Some d) ls objects.
Proof.
  induction objects as [|d rest IH]; intros w.
  - exists [], w. split_and!; [done| |done|constructor|constructor].
    split; [by intros ? ?%elem_of_nil|done].
  - set (l := fresh (dom (heap w))).
    assert (heap w !! l = None) as Hl.
    { apply not_elem_of_dom. apply is_fresh. }
    destruct (IH (set_heap <[l := d]> w))
      as (ls & w' & Hrun & [Hnew Hold] & Hs & Hnd & Hall).
    simpl in Hnew, Hold.
    assert (l ∉ ls) as Hnotin.
    { intros Hin. apply Hnew in Hin as [Hin _].
      by rewrite lookup_insert_eq in Hin. }
    exists (l :: ls), w'. split_and!.
    + simpl. unfold bind at 1. unfold GitLabAPI.new_dict. fold l.
      by rewrite (bind_run _ _ _ _ _ Hrun).
    + split.
      * intros l' [->|Hin]%elem_of_cons.
        -- split; [done|]. rewrite Hold by done. rewrite lookup_insert_eq. by eexists.
        -- destruct (Hnew l' Hin) as [Hn Hs']. split; [|done].
           destruct (decide (l = l')) as [->|Hne]; [done|].
           by rewrite lookup_insert_ne in Hn.
      * intros l' Hl'. apply not_elem_of_cons in Hl' as [Hne Hl'].
        rewrite Hold by done. by rewrite lookup_insert_ne.
    + destruct Hs as (? & ? & ? & ? & ?). by destruct w.
    + by constructor.
    + constructor; [|done]. rewrite Hold by done. apply lookup_insert_eq.
Qed.

Lemma Forall2_heap_update (h h' : gmap loc pydict) (f : pydict → pydict)
    (ls : list loc) (objects : list pydict) :
  Forall2 (λ l d, h !! l = Some d) ls objects →
  (∀ l, l ∈ ls → h' !! l = f <$> h !! l) →
  Forall2 (λ l d, h' !! l = Some (f d)) ls objects.
Proof.
  induction 1 as [|l d ls' ds Hl Hrest IH]; intros Hupd; constructor.
  - rewrite Hupd by (by left). by rewrite Hl.
  - apply IH. intros l' Hl'. apply Hupd. by right.
Qed.

(** A successful fetch of the shape shared by the project and the group
    fetcher. *)
Lemma fetch_and_tag_success answer k1 v1 k2 v2 (handler : exn → M (list loc))
    w objects :
  answer (gitlab w) = Some objects →
  ∃ ls w',
    try_except
      (let* tokens := GitLabAPI.requests_get_json answer in
       for_each tokens (λ token (_ : unit),
         dict_setitem token k1 v1 ;; dict_setitem token k2 v2) tt ;;
       ret tokens)
      (GitLabAPI.except_RequestException handler) w = (Ret ls, w') ∧
    fresh_batch ls w w' ∧ same_but_heap w w' ∧ NoDup ls ∧
    Forall2 (λ l d, heap w' !! l = Some (tag k1 v1 k2 v2 d)) ls objects.
Proof.
  intros Hans. unfold GitLabAPI.requests_get_json.
  destruct (response_json_alloc objects w)
    as (ls & w1 & Hjson & [Hnew Hold] & Hs1 & Hnd & Hall).
  destruct (for_each_setitem2_run k1 v1 k2 v2 ls w1) as (w2 & Htag & Hh & Hs2).
  { intros l Hl. by apply Hnew. }
  exists ls, w2. split_and!; try done.
  - apply try_except_run. unfold bind at 1. rewrite Hans, Hjson.
    by rewrite (bind_run _ _ _ _ _ Htag).
  - split.
    + intros l Hl. destruct (Hnew l Hl) as [Hn [d Hd]]. split; [done|].
      rewrite Hh, decide_True, Hd by done. by eexists.
    + intros l Hl. rewrite Hh, decide_False by done. by apply Hold.
  - destruct Hs1 as (? & ? & ? & ? & ?), Hs2 as (? & ? & ? & ? & ?).
    unfold same_but_heap. split_and!; congruence.
  - eapply Forall2_heap_update; [exact Hall|].
    intros l Hl. by rewrite Hh, decide_True.
Qed.

(** A failed fetch of that shape. *)
Lemma fetch_and_tag_failure {A} (body : M A) (answer : server → option (list pydict))
    (k : list loc → M A) (handler : exn → M A) w :
  answer (gitlab w) = None →
  try_except (let* tokens := GitLabAPI.requests_get_json answer in k tokens)
             (GitLabAPI.except_RequestException handler) w =
  handler RequestException w.
Proof.
  intros Hans. erewrite try_except_raise; cycle 1.
  { unfold bind, GitLabAPI.requests_get_json. by rewrite Hans. }
  done.
Qed.

Section Batches.
Context {parser : IsoParser}.

(** A completed call leaves the records it was not given as they were, and
    the records it was given on the heap. *)
Lemma analyze_all_tokens_frame tokens d w a w' :
  TokenAnalyzer.analyze_all_tokens tokens d w = (Ret a, w') →
  (∀ l, l ∉ tokens → heap w' !! l = heap w !! l) ∧
  (∀ l, l ∈ tokens → is_Some (heap w' !! l)) ∧
  (∀ l, l ∈ records a ↔ l ∈ tokens).
Proof.
  intros Hrun.
  apply analyze_all_tokens_inv in Hrun as (_ & Hok & Ha).
  pose proof (analysed_records_perm _ _ _ _ _ _ Ha Hok) as Hperm.
  split_and!.
  - intros l Hl. destruct Ha as (_ & _ & _ & Hh & _).
    by rewrite Hh, decide_False.
  - intros l Hl. destruct (tokens_ok_elem _ _ _ Hok Hl) as (d0 & e & Hd & _).
    rewrite (analysed_heap _ _ _ _ _ _ _ _ Ha Hl Hd). by eexists.
  - intros l. by rewrite Hperm.
Qed.

Lemma batch_step_merge w w1 w2 w3 acc ls a :
  fresh_batch ls w w1 →
  (∀ l, l ∉ ls → heap w2 !! l = heap w1 !! l) →
  (∀ l, l ∈ records a ↔ l ∈ ls) →
  (∀ l, l ∉ records a → heap w3 !! l = heap w2 !! l) →
  batch_step w acc w3 (Monitor._merge_analysis acc a).
Proof.
  intros [Hnew Hold] H2 Hrec H3. split_and!.
  - intros l d Hl.
    assert (l ∉ ls) as Hnotin.
    { intros Hin. apply Hnew in Hin as [Hn _]. congruence. }
    rewrite H3 by (by rewrite Hrec). rewrite H2 by done.
    by rewrite Hold.
  - intros c. exists (bucket c a). split; [apply bucket_merge|].
    intros l Hl. apply Hnew, Hrec. unfold records.
    rewrite !elem_of_app. destruct c; simpl in Hl; tauto.
  - done.
Qed.

Lemma batch_step_skip w w1 acc :
  fresh_batch [] w w1 → batch_step w acc w1 acc.
Proof.
  intros [_ Hold]. split_and!; [| |done].
  - intros l d Hl. rewrite Hold; [done|]. by intros ?%elem_of_nil.
  - intros c. exists []. rewrite app_nil_r. split; [done|].
    by intros ? ?%elem_of_nil.
Qed.

Lemma process_project_step cfg project acc n w acc' n' w' :
  Monitor.process_project cfg project (acc, n) w = (Ret (acc', n'), w') →
  batch_step w acc w' acc'.
Proof.
  unfold Monitor.process_project, getitem. intros Hrun.
  destruct (project !! "id") as [pid|]; [|done].
  erewrite bind_run in Hrun by reflexivity.
  destruct (get_project_access_tokens_run pid w) as (ls & w1 & Hfetch & Hfresh).
  rewrite (bind_run _ _ _ _ _ Hfetch) in Hrun.
  destruct ls as [|l0 rest].
  { injection Hrun as <- <- <-. by apply batch_step_skip. }
  destruct (TokenAnalyzer.analyze_all_tokens (l0 :: rest) (days_threshold cfg) w1)
    as [[a|e] w2] eqn:Han; cycle 1.
  { by rewrite (bind_raise _ _ _ _ _ Han) in Hrun. }
  rewrite (bind_run _ _ _ _ _ Han) in Hrun.
  destruct (analyze_all_tokens_frame _ _ _ _ _ Han) as (Hout & Hin & Hrec).
  destruct (project !! "name") as [name|] eqn:Hname.
  - destruct (add_project_info_run project a w2 name Hname) as (w3 & Hadd & Hh & _).
    { intros l Hl. by apply Hin, Hrec. }
    rewrite (bind_run _ _ _ _ _ Hadd) in Hrun. injection Hrun as <- <- <-.
    eapply batch_step_merge; [done..|].
    intros l Hl. by rewrite Hh, decide_False.
  - destruct (records a) as [|l1 rest1] eqn:Hrecs.
    { exfalso. apply (elem_of_nil l0). apply Hrec. by left. }
    destruct (Hin l1) as [d1 Hd1]; [apply Hrec; by left|].
    rewrite (bind_raise _ _ _ _ _
               (add_project_info_nameless project a w2 l1 d1 Hname
                  ltac:(by rewrite Hrecs) Hd1)) in Hrun.
    done.
Qed.

Lemma process_group_step cfg group acc n w acc' n' w' :
  Monitor.process_group cfg group (acc, n) w = (Ret (acc', n'), w') →
  batch_step w acc w' acc'.
Proof.
  unfold Monitor.process_group, getitem. intros Hrun.
  destruct (group !! "id") as [gid|]; [|done].
  erewrite bind_run in Hrun by reflexivity.
  destruct (get_group_access_tokens_run gid w) as (ls & w1 & Hfetch & Hfresh).
  rewrite (bind_run _ _ _ _ _ Hfetch) in Hrun.
  destruct ls as [|l0 rest].
  { injection Hrun as <- <- <-. by apply batch_step_skip. }
  destruct (TokenAnalyzer.analyze_all_tokens (l0 :: rest) (days_threshold cfg) w1)
    as [[a|e] w2] eqn:Han; cycle 1.
  { by rewrite (bind_raise _ _ _ _ _ Han) in Hrun. }
  rewrite (bind_run _ _ _ _ _ Han) in Hrun.
  destruct (analyze_all_tokens_frame _ _ _ _ _ Han) as (Hout & Hin & Hrec).
  destruct (group !! "name") as [name|] eqn:Hname.
  - destruct (add_group_info_run group a w2 name Hname) as (w3 & Hadd & Hh & _).
    { intros l Hl. by apply Hin, Hrec. }
    rewrite (bind_run _ _ _ _ _ Hadd) in Hrun. injection Hrun as <- <- <-.
    eapply batch_step_merge; [done..|].
    intros l Hl. by rewrite Hh, decide_False.
  - destruct (records a) as [|l1 rest1] eqn:Hrecs.
    { exfalso. apply (elem_of_nil l0). apply Hrec. by left. }
    destruct (Hin l1) as [d1 Hd1]; [apply Hrec; by left|].
    rewrite (bind_raise _ _ _ _ _
               (add_group_info_nameless group a w2 l1 d1 Hname
                  ltac:(by rewrite Hrecs) Hd1)) in Hrun.
    done.
Qed.

End Batches.

Lemma Forall2_records (h h' : gmap loc pydict) (P : loc → Prop)
    (f g : pydict → pydict) (ks : list loc) (ds : list pydict) :
  Forall2 (λ l d, h !! l = Some (g d)) ks ds →
  (∀ l, l ∈ ks → P l) →
  (∀ l d, l ∈ ks → h !! l = Some (g d) → h' !! l = Some (f d)) →
  Forall2 (λ l r, P l ∧ h' !! l = Some r) ks (map f ds).
Proof.
  induction 1 as [|l d ks' ds' Hl Hrest IH]; intros HP Hf; simpl; constructor.
  - split; [apply HP; by left|]. apply Hf; [by left|done].
  - apply IH.
    + intros l' Hl'. apply HP. by right.
    + intros l' d' Hl'. apply Hf. by right.
Qed.

(** ** One round of the project or group loop *)

Section RoundSpec.
Context {parser : IsoParser}.

Lemma expiry_of_tag k1 v1 k2 v2 d :
  k1 ≠ "expires_at" → k2 ≠ "expires_at" →
  expiry_of (tag k1 v1 k2 v2 d) = expiry_of d.
Proof. intros H1 H2. unfold expiry_of, tag. by rewrite !lookup_insert_ne. Qed.

Lemma merged_nothing thr cur w acc w' :
  heap w' = heap w → clock w' = clock w → gitlab w' = gitlab w →
  outbox w' = outbox w →
  merged [] thr cur w acc [] w' acc.
Proof.
  intros Hh Hc Hg Ho. split_and!; try done.
  - constructor.
  - intros l _. by rewrite Hh.
  - intros c. by rewrite filter_nil, app_nil_r.
  - unfold len. simpl. lia.
Qed.

(** A round of either loop, after the id has been read: it returns when the
    expiries of the answer are readable and, for an answer with tokens, the
    threshold date is representable and the metadata loop finds its name. *)
Lemma scope_round_total ty k_id v_id (answer : server → option (list pydict))
    (handler : exn → M (list loc)) (add_info : analysis → M unit)
    k_name name k_path path d acc n w objects :
  k_id ≠ "expires_at" → k_name ≠ "expires_at" → k_path ≠ "expires_at" →
  (∀ e w0, ∃ line, handler e w0 = (Ret [], printed line w0)) →
  objects = default [] (answer (gitlab w)) →
  Forall (λ o, expiry_readable o = true) objects →
  (objects ≠ [] → threshold_representable (clock w (ticks w)) d) →
  (objects ≠ [] →
   ∀ a w2, (∀ l, l ∈ records a → is_Some (heap w2 !! l)) →
     ∃ w3, add_info a w2 = (Ret tt, w3) ∧
           (∀ l, heap w3 !! l =
                 if decide (l ∈ records a)
                 then tag k_name name k_path path <$> heap w2 !! l
                 else heap w2 !! l) ∧
           same_but_heap w2 w3) →
  ∃ ls acc' w',
    (let* tokens :=
       try_except
         (let* tokens := GitLabAPI.requests_get_json answer in
          for_each tokens (λ token (_ : unit),
            dict_setitem token "token_type" (PStr ty) ;;
            dict_setitem token k_id v_id) tt ;;
          ret tokens)
         (GitLabAPI.except_RequestException handler) in
     match tokens with
     | [] => ret (acc, n)
     | _ :: _ =>
         let* a := TokenAnalyzer.analyze_all_tokens tokens d in
         add_info a ;;
         ret (Monitor._merge_analysis acc a, n + total_count a)
     end) w = (Ret (acc', n + len ls), w') ∧
    merged (map (λ o, tag k_name name k_path path
                        (stamp (threshold_date_of w d) (current_date_of w)
                           (tag "token_type" (PStr ty) k_id v_id o)))
                objects)
           (threshold_date_of w d) (current_date_of w) w acc ls w' acc'.
Proof.
  intros Hk1 Hk2 Hk3 Hhandler Hobj Hread Hthr Hadd.
  assert (n + len (@nil loc) = n) as Hn0 by (unfold len; simpl; lia).
  destruct (answer (gitlab w)) as [objs|] eqn:Hans; simpl in Hobj; subst objects;
    cycle 1.
  { destruct (Hhandler RequestException w) as [line Hline].
    exists [], acc, (printed line w). split.
    - erewrite bind_run; cycle 1.
      { rewrite (fetch_and_tag_failure (ret []) answer) by done. exact Hline. }
      by rewrite Hn0.
    - by apply merged_nothing. }
  destruct (fetch_and_tag_success answer "token_type" (PStr ty) k_id v_id handler
              w objs Hans)
    as (ls & wf & Hfetch & [Hnew Hold] & Hs & Hnd & Hall).
  destruct Hs as (Hcf & Htf & _ & Hgf & Hof).
  destruct ls as [|l0 rest].
  { apply Forall2_nil_inv_l in Hall. subst objs.
    exists [], acc, wf. split.
    - rewrite (bind_run _ _ _ _ _ Hfetch). by rewrite Hn0.
    - apply merged_nothing; try done.
      apply map_eq. intros l. apply Hold. by intros ?%elem_of_nil. }
  set (ls := l0 :: rest) in *.
  assert (objs ≠ []) as Hne.
  { intros ->. by apply Forall2_nil_inv_r in Hall. }
  set (thr := threshold_date_of w d). set (cur := current_date_of w).
  assert (∀ l, l ∈ ls → ∃ o, o ∈ objs ∧
            heap wf !! l = Some (tag "token_type" (PStr ty) k_id v_id o))
    as Hobjs.
  { clear -Hall. induction Hall as [|l' d' ls' ds Hl' Hrest IH]; intros l Hl.
    - by apply elem_of_nil in Hl.
    - apply elem_of_cons in Hl as [->|Hl].
      + exists d'. split; [by left|done].
      + destruct (IH l Hl) as (o & Ho & Hh). exists o. split; [by right|done]. }
  assert (tokens_ok (heap wf) ls = true) as Hok.
  { apply tokens_ok_spec. intros l Hl. destruct (Hobjs l Hl) as (o & Ho & Hh).
    eexists. split; [exact Hh|]. apply expiry_readable_spec.
    rewrite expiry_readable_tag by done.
    rewrite Forall_forall in Hread. by apply Hread. }
  destruct (analyze_all_tokens_run ls d wf) as (a & w2 & Han & Ha);
    [rewrite Htf, Hcf; by apply Hthr|done|].
  assert (threshold_date_of wf d = thr) as Ethr
    by (unfold thr, threshold_date_of; by rewrite Htf, Hcf).
  assert (current_date_of wf = cur) as Ecur
    by (unfold cur, current_date_of; by rewrite Htf, Hcf).
  rewrite Ethr, Ecur in Ha.
  pose proof (analysed_records_perm _ _ _ _ _ _ Ha Hok) as Hperm.
  assert (∀ l, l ∈ records a ↔ l ∈ ls) as Hrec by (intros l; by rewrite Hperm).
  pose proof Ha as (Hb & Htot & _ & Hh2 & Hc2 & _ & Hg2 & Ho2).
  destruct (Hadd Hne a w2) as (w3 & Hinfo & Hh3 & Hs3).
  { intros l Hl. apply Hrec in Hl. rewrite Hh2, decide_True by done.
    destruct (Hnew l Hl) as [_ [d0 ->]]. by eexists. }
  destruct Hs3 as (Hc3 & _ & _ & Hg3 & Ho3).
  assert (∀ l o, l ∈ ls →
            heap wf !! l = Some (tag "token_type" (PStr ty) k_id v_id o) →
            heap w3 !! l =
            Some (tag k_name name k_path path
                    (stamp thr cur (tag "token_type" (PStr ty) k_id v_id o))))
    as Hfinal.
  { intros l o Hl Hf. rewrite Hh3, decide_True by (by apply Hrec).
    by rewrite Hh2, decide_True, Hf by done. }
  exists ls, (Monitor._merge_analysis acc a), w3. split.
  - rewrite (bind_run _ _ _ _ _ Hfetch). unfold ls at 1.
    rewrite (bind_run _ _ _ _ _ Han), (bind_run _ _ _ _ _ Hinfo).
    by rewrite Htot.
  - split_and!.
    + done.
    + apply (Forall2_records (heap wf) (heap w3)
               (λ l, heap w !! l = None) _
               (tag "token_type" (PStr ty) k_id v_id) ls objs); [done| |].
      * intros l Hl. by destruct (Hnew l Hl).
      * intros l o Hl Hf. by apply Hfinal.
    + intros l Hl. rewrite Hh3, decide_False by (by rewrite Hrec).
      rewrite Hh2, decide_False by done. by apply Hold.
    + intros c. rewrite bucket_merge, Hb. f_equal.
      apply filter_ext_elem. intros l Hl. unfold category_at.
      destruct (Hobjs l Hl) as (o & _ & Hf).
      rewrite Hf, (Hfinal l o Hl Hf). simpl.
      by rewrite !expiry_of_tag, expiry_of_stamp, !expiry_of_tag by done.
    + simpl. by rewrite Htot.
    + done.
    + congruence.
    + congruence.
    + congruence.
Qed.

(** What a round that returns must have found. *)
Lemma scope_round_needs ty k_id v_id (answer : server → option (list pydict))
    (handler : exn → M (list loc)) (add_info : analysis → M unit)
    d acc n w st' w' :
  k_id ≠ "expires_at" →
  (let* tokens :=
     try_except
       (let* tokens := GitLabAPI.requests_get_json answer in
        for_each tokens (λ token (_ : unit),
          dict_setitem token "token_type" (PStr ty) ;;
          dict_setitem token k_id v_id) tt ;;
        ret tokens)
       (GitLabAPI.except_RequestException handler) in
   match tokens with
   | [] => ret (acc, n)
   | _ :: _ =>
       let* a := TokenAnalyzer.analyze_all_tokens tokens d in
       add_info a ;;
       ret (Monitor._merge_analysis acc a, n + total_count a)
   end) w = (Ret st', w') →
  Forall (λ o, expiry_readable o = true) (default [] (answer (gitlab w))) ∧
  (default [] (answer (gitlab w)) ≠ [] →
   threshold_representable (clock w (ticks w)) d ∧
   ∃ a w2 w3 l d0,
     records a !! 0%nat = Some l ∧ heap w2 !! l = Some d0 ∧
     add_info a w2 = (Ret tt, w3)).
Proof.
  intros Hk Hrun.
  destruct (answer (gitlab w)) as [objs|] eqn:Hans; simpl; [|by split].
  destruct (fetch_and_tag_success answer "token_type" (PStr ty) k_id v_id handler
              w objs Hans)
    as (ls & wf & Hfetch & [Hnew Hold] & Hs & Hnd & Hall).
  destruct Hs as (Hcf & Htf & _).
  rewrite (bind_run _ _ _ _ _ Hfetch) in Hrun.
  destruct ls as [|l0 rest].
  { apply Forall2_nil_inv_l in Hall. subst objs. by split. }
  destruct (TokenAnalyzer.analyze_all_tokens (l0 :: rest) d wf)
    as [[a|e] w2] eqn:Han; cycle 1.
  { by rewrite (bind_raise _ _ _ _ _ Han) in Hrun. }
  rewrite (bind_run _ _ _ _ _ Han) in Hrun.
  destruct (add_info a w2) as [[[]|e] w3] eqn:Hinfo; cycle 1.
  { by rewrite (bind_raise _ _ _ _ _ Hinfo) in Hrun. }
  pose proof Han as Hinv. apply analyze_all_tokens_inv in Hinv as (Hthr & Hok & Ha).
  split.
  - assert (∀ l, l ∈ l0 :: rest →
              ∃ d0, heap wf !! l = Some d0 ∧ is_Some (expiry_of d0)) as Hspec
      by (by apply tokens_ok_spec).
    clear -Hall Hspec Hk. revert Hall Hspec.
    generalize (l0 :: rest) as ks. intros ks Hall Hspec.
    induction Hall as [|l o ks' os Hl Hrest IH]; constructor.
    + destruct (Hspec l) as (d0 & Hd0 & Hsome); [by left|].
      rewrite Hl in Hd0. injection Hd0 as <-.
      apply expiry_readable_spec in Hsome.
      by rewrite expiry_readable_tag in Hsome.
    + apply IH. intros l' Hl'. apply Hspec. by right.
  - intros _. split; [by rewrite <- Htf, <- Hcf|].
    pose proof (analysed_records_perm _ _ _ _ _ _ Ha Hok) as Hperm.
    destruct (analyze_all_tokens_frame _ _ _ _ _ Han) as (_ & Hin & Hrec).
    destruct (records a) as [|l1 rest1] eqn:Hrecs.
    { by apply Permutation_nil_cons in Hperm. }
    destruct (Hin l1) as [d1 Hd1]; [apply Hrec; by left|].
    exists a, w2, w3, l1, d1. by rewrite Hrecs.
Qed.

Lemma process_project_total cfg project acc n w pid :
  project !! "id" = Some pid →
  Forall (λ o, expiry_readable o = true)
         (tokens_of (project_access_tokens (gitlab w)) project) →
  (tokens_of (project_access_tokens (gitlab w)) project ≠ [] →
   threshold_representable (clock w (ticks w)) (days_threshold cfg) ∧
   is_Some (project !! "name")) →
  ∃ ls acc' w',
    Monitor.process_project cfg project (acc, n) w =
      (Ret (acc', n + len ls), w') ∧
    merged (map (project_record project
                   (threshold_date_of w (days_threshold cfg))
                   (current_date_of w))
                (tokens_of (project_access_tokens (gitlab w)) project))
           (threshold_date_of w (days_threshold cfg)) (current_date_of w)
           w acc ls w' acc'.
Proof.
  unfold tokens_of, project_record. intros Hid. rewrite Hid. simpl.
  intros Hread Hne.
  unfold Monitor.process_project, getitem. rewrite Hid.
  destruct (scope_round_total "project" "project_id" pid
              (λ s, project_access_tokens s pid)
              (λ e, print [Lit "Error fetching project access tokens for project ";
                           Val pid; Lit ": "; Exc e] ;; ret [])
              (Monitor.add_project_info project)
              "project_name" (default PNone (project !! "name"))
              "project_path"
              (default (default PNone (project !! "name"))
                       (project !! "path_with_namespace"))
              (days_threshold cfg) acc n w
              (default [] (project_access_tokens (gitlab w) pid)))
    as (ls & acc' & w' & Hrun & Hm); try done.
  { intros e w0. by eexists. }
  { intros H. by apply Hne. }
  { intros H a w2 Hall. destruct (Hne H) as [_ [name Hname]].
    rewrite Hname. simpl. by apply add_project_info_run. }
  exists ls, acc', w'. split; [|exact Hm].
  erewrite bind_run by reflexivity. exact Hrun.
Qed.

Lemma process_group_total cfg group acc n w gid :
  group !! "id" = Some gid →
  Forall (λ o, expiry_readable o = true)
         (tokens_of (group_access_tokens (gitlab w)) group) →
  (tokens_of (group_access_tokens (gitlab w)) group ≠ [] →
   threshold_representable (clock w (ticks w)) (days_threshold cfg) ∧
   is_Some (group !! "name")) →
  ∃ ls acc' w',
    Monitor.process_group cfg group (acc, n) w =
      (Ret (acc', n + len ls), w') ∧
    merged (map (group_record group
                   (threshold_date_of w (days_threshold cfg))
                   (current_date_of w))
                (tokens_of (group_access_tokens (gitlab w)) group))
           (threshold_date_of w (days_threshold cfg)) (current_date_of w)
           w acc ls w' acc'.
Proof.
  unfold tokens_of, group_record. intros Hid. rewrite Hid. simpl.
  intros Hread Hne.
  unfold Monitor.process_group, getitem. rewrite Hid.
  destruct (scope_round_total "group" "group_id" gid
              (λ s, group_access_tokens s gid)
              (λ e, print [Lit "Error fetching group access tokens for group ";
                           Val gid; Lit ": "; Exc e] ;; ret [])
              (Monitor.add_group_info group)
              "group_name" (default PNone (group !! "name"))
              "group_path"
              (default (default PNone (group !! "name"))
                       (group !! "full_path"))
              (days_threshold cfg) acc n w
              (default [] (group_access_tokens (gitlab w) gid)))
    as (ls & acc' & w' & Hrun & Hm); try done.
  { intros e w0. by eexists. }
  { intros H. by apply Hne. }
  { intros H a w2 Hall. destruct (Hne H) as [_ [name Hname]].
    rewrite Hname. simpl. by apply add_group_info_run. }
  exists ls, acc', w'. split; [|exact Hm].
  erewrite bind_run by reflexivity. exact Hrun.
Qed.

(** A round that returns has found what [process_project_total] asks
    for. *)
Lemma process_project_needs cfg project acc n w st' w' :
  Monitor.process_project cfg project (acc, n) w = (Ret st', w') →
  ∃ pid,
    project !! "id" = Some pid ∧
    Forall (λ o, expiry_readable o = true)
           (tokens_of (project_access_tokens (gitlab w)) project) ∧
    (tokens_of (project_access_tokens (gitlab w)) project ≠ [] →
     threshold_representable (clock w (ticks w)) (days_threshold cfg) ∧
     is_Some (project !! "name")).
Proof.
  unfold Monitor.process_project, getitem, tokens_of. intros Hrun.
  destruct (project !! "id") as [pid|] eqn:Hid; [|done].
  erewrite bind_run in Hrun by reflexivity.
  apply scope_round_needs in Hrun as [Hread Hne]; [|done].
  exists pid. simpl. split_and!; [done|done|].
  intros H. destruct (Hne H) as (Hthr & a & w2 & w3 & l & d0 & Hl & Hd0 & Hinfo).
  split; [done|].
  destruct (project !! "name") as [name|] eqn:Hname; [by eexists|].
  by rewrite (add_project_info_nameless project a w2 l d0 Hname Hl Hd0) in Hinfo.
Qed.

Lemma process_group_needs cfg group acc n w st' w' :
  Monitor.process_group cfg group (acc, n) w = (Ret st', w') →
  ∃ gid,
    group !! "id" = Some gid ∧
    Forall (λ o, expiry_readable o = true)
           (tokens_of (group_access_tokens (gitlab w)) group) ∧
    (tokens_of (group_access_tokens (gitlab w)) group ≠ [] →
     threshold_representable (clock w (ticks w)) (days_threshold cfg) ∧
     is_Some (group !! "name")).
Proof.
  unfold Monitor.process_group, getitem, tokens_of. intros Hrun.
  destruct (group !! "id") as [gid|] eqn:Hid; [|done].
  erewrite bind_run in Hrun by reflexivity.
  apply scope_round_needs in Hrun as [Hread Hne]; [|done].
  exists gid. simpl. split_and!; [done|done|].
  intros H. destruct (Hne H) as (Hthr & a & w2 & w3 & l & d0 & Hl & Hd0 & Hinfo).
  split; [done|].
  destruct (group !! "name") as [name|] eqn:Hname; [by eexists|].
  by rewrite (add_group_info_nameless group a w2 l d0 Hname Hl Hd0) in Hinfo.
Qed.

(** The fields of the record a round leaves for a token object. *)
Lemma scope_record_fields k_type v_type k_id v_id k_name name k_path path
    thr cur o e :
  k_name ≠ k_path → k_name ≠ "status" → k_path ≠ "status" →
  k_name ≠ "days_until_expiry" → k_path ≠ "days_until_expiry" →
  k_type ≠ "expires_at" → k_id ≠ "expires_at" →
  expiry_of o = Some e →
  let r := tag k_name name k_path path
             (stamp thr cur (tag k_type v_type k_id v_id o)) in
  r !! k_name = Some name ∧ r !! k_path = Some path ∧
  r !! "status" = Some (status_of thr cur e) ∧
  r !! "days_until_expiry" = Some (days_of cur e).
Proof.
  intros H1 H2 H3 H4 H5 H6 H7 He r. unfold r, stamp.
  rewrite expiry_of_tag, He by done. unfold tag. split_and!.
  - rewrite lookup_insert_ne by done. apply lookup_insert_eq.
  - apply lookup_insert_eq.
  - rewrite !lookup_insert_ne by done. apply lookup_insert_eq.
  - rewrite !lookup_insert_ne by done. apply lookup_insert_eq.
Qed.

(** The records of a merged batch, one by one. *)
Lemma merged_elem expected thr cur w acc ls w' acc' l :
  merged expected thr cur w acc ls w' acc' → l ∈ ls →
  ∃ r, r ∈ expected ∧ heap w !! l = None ∧ heap w' !! l = Some r.
Proof.
  intros (_ & Hall & _) Hl.
  induction Hall as [|l' r' ls' rs [Hn Hr] Hrest IH].
  - by apply elem_of_nil in Hl.
  - apply elem_of_cons in Hl as [->|Hl].
    + exists r'. split_and!; [by left|done|done].
    + destruct (IH Hl) as (r & Hin & Hn' & Hr'). exists r.
      split_and!; [by right|done|done].
Qed.

Lemma merged_bucket expected thr cur w acc ls w' acc' l r e :
  merged expected thr cur w acc ls w' acc' → l ∈ ls →
  heap w' !! l = Some r → expiry_of r = Some e →
  l ∈ bucket (category_of thr cur e) acc'.
Proof.
  intros (_ & _ & _ & Hb & _) Hl Hr He. rewrite Hb.
  apply elem_of_app. right. apply list_elem_of_filter. split; [|done].
  unfold category_at. by rewrite Hr, He.
Qed.

(** The effect of a round of the project loop that returns. *)
Lemma process_project_effect cfg p acc n w0 acc' n' w1 :
  Monitor.process_project cfg p (acc, n) w0 = (Ret (acc', n'), w1) →
  ∃ ls,
    merged (map (project_record p (threshold_date_of w0 (days_threshold cfg))
                   (current_date_of w0))
                (tokens_of (project_access_tokens (gitlab w0)) p))
           (threshold_date_of w0 (days_threshold cfg)) (current_date_of w0)
           w0 acc ls w1 acc' ∧
    n' = n + len ls ∧
    ∀ l, l ∈ ls →
      ∃ name e,
        p !! "name" = Some name ∧
        field w1 l "project_name" = Some name ∧
        field w1 l "project_path" =
          Some (default name (p !! "path_with_namespace")) ∧
        field w1 l "status" =
          Some (status_of (threshold_date_of w0 (days_threshold cfg))
                          (current_date_of w0) e) ∧
        field w1 l "days_until_expiry" = Some (days_of (current_date_of w0) e) ∧
        l ∈ bucket (category_of (threshold_date_of w0 (days_threshold cfg))
                                (current_date_of w0) e) acc'.
Proof.
  intros Hrun.
  destruct (process_project_needs _ _ _ _ _ _ _ Hrun) as (pid & Hid & Hread & Hne).
  destruct (process_project_total cfg p acc n w0 pid Hid Hread Hne)
    as (ls & acc2 & w2 & Hrun2 & Hm).
  rewrite Hrun in Hrun2. injection Hrun2 as -> -> ->.
  exists ls. split_and!; [done|done|].
  intros l Hl. destruct (merged_elem _ _ _ _ _ _ _ _ l Hm Hl) as (r & Hr & _ & Hh).
  apply list_elem_of_fmap in Hr as (o & -> & Ho).
  destruct Hne as [_ [name Hname]].
  { intros Hnil. rewrite Hnil in Ho. by apply elem_of_nil in Ho. }
  rewrite Forall_forall in Hread. apply Hread in Ho as Hro.
  apply expiry_readable_spec in Hro as [e He].
  exists name, e.
  pose proof (scope_record_fields "token_type" (PStr "project")
                "project_id" (default PNone (p !! "id"))
                "project_name" name "project_path"
                (default name (p !! "path_with_namespace"))
                (threshold_date_of w0 (days_threshold cfg)) (current_date_of w0)
                o e) as Hf.
  simpl in Hf. destruct Hf as (F1 & F2 & F3 & F4); try done.
  unfold project_record in Hh. rewrite Hname in Hh. simpl in Hh.
  unfold field. rewrite Hh. split_and!; try done.
  eapply merged_bucket; [exact Hm|done|exact Hh|].
  rewrite expiry_of_tag by done.
  rewrite expiry_of_stamp. by rewrite expiry_of_tag.
Qed.

Lemma process_group_effect cfg g acc n w0 acc' n' w1 :
  Monitor.process_group cfg g (acc, n) w0 = (Ret (acc', n'), w1) →
  ∃ ls,
    merged (map (group_record g (threshold_date_of w0 (days_threshold cfg))
                   (current_date_of w0))
                (tokens_of (group_access_tokens (gitlab w0)) g))
           (threshold_date_of w0 (days_threshold cfg)) (current_date_of w0)
           w0 acc ls w1 acc' ∧
    n' = n + len ls ∧
    ∀ l, l ∈ ls →
      ∃ name e,
        g !! "name" = Some name ∧
        field w1 l "group_name" = Some name ∧
        field w1 l "group_path" = Some (default name (g !! "full_path")) ∧
        field w1 l "status" =
          Some (status_of (threshold_date_of w0 (days_threshold cfg))
                          (current_date_of w0) e) ∧
        field w1 l "days_until_expiry" = Some (days_of (current_date_of w0) e) ∧
        l ∈ bucket (category_of (threshold_date_of w0 (days_threshold cfg))
                                (current_date_of w0) e) acc'.
Proof.
  intros Hrun.
  destruct (process_group_needs _ _ _ _ _ _ _ Hrun) as (gid & Hid & Hread & Hne).
  destruct (process_group_total cfg g acc n w0 gid Hid Hread Hne)
    as (ls & acc2 & w2 & Hrun2 & Hm).
  rewrite Hrun in Hrun2. injection Hrun2 as -> -> ->.
  exists ls. split_and!; [done|done|].
  intros l Hl. destruct (merged_elem _ _ _ _ _ _ _ _ l Hm Hl) as (r & Hr & _ & Hh).
  apply list_elem_of_fmap in Hr as (o & -> & Ho).
  destruct Hne as [_ [name Hname]].
  { intros Hnil. rewrite Hnil in Ho. by apply elem_of_nil in Ho. }
  rewrite Forall_forall in Hread. apply Hread in Ho as Hro.
  apply expiry_readable_spec in Hro as [e He].
  exists name, e.
  pose proof (scope_record_fields "token_type" (PStr "group")
                "group_id" (default PNone (g !! "id"))
                "group_name" name "group_path"
                (default name (g !! "full_path"))
                (threshold_date_of w0 (days_threshold cfg)) (current_date_of w0)
                o e) as Hf.
  simpl in Hf. destruct Hf as (F1 & F2 & F3 & F4); try done.
  unfold group_record in Hh. rewrite Hname in Hh. simpl in Hh.
  unfold field. rewrite Hh. split_and!; try done.
  eapply merged_bucket; [exact Hm|done|exact Hh|].
  rewrite expiry_of_tag by done.
  rewrite expiry_of_stamp. by rewrite expiry_of_tag.
Qed.

End RoundSpec.

Section Metadata.
Context {parser : IsoParser}.

Lemma tagged_fields k1 v1 k2 v2 (ls : list loc) w w' l :
  k1 ≠ k2 →
  (∀ l, heap w' !! l =
        if decide (l ∈ ls) then tag k1 v1 k2 v2 <$> heap w !! l
        else heap w !! l) →
  l ∈ ls → is_Some (heap w !! l) →
  field w' l k1 = Some v1 ∧ field w' l k2 = Some v2 ∧
  ∀ key, key ≠ k1 → key ≠ k2 → field w' l key = field w l key.
Proof.
  intros Hk Hh Hl [d Hd]. unfold field.
  rewrite Hh, decide_True, Hd by done. simpl. unfold tag. split_and!.
  - rewrite lookup_insert_ne by done. apply lookup_insert_eq.
  - apply lookup_insert_eq.
  - intros key H1 H2. by rewrite !lookup_insert_ne.
Qed.

(** C7: attaching the name and path of a project or group to a batch gives
    both fields to every record of the four buckets of that batch, changes
    no other field of those records (status and [days_until_expiry]
    included) and no record outside the batch; the buckets are only read;
    and a round of the project or group loop leaves every record that was
    on the heap before it, so every record of the batches merged earlier,
    as it was, the records it adds to the buckets being new ones.  A round
    that returns has merged one new record for each token object the server
    answered for its project or group, in order: the object with the
    fetcher's two fields, the status and [days_until_expiry] of its
    classification, and the name and path of that project or group; the
    record is in the bucket of its classification, and no other record has
    changed. *)
Theorem metadata_attachment_frame project group a w pname gname :
  project !! "name" = Some pname →
  group !! "name" = Some gname →
  (∀ l, l ∈ records a → is_Some (heap w !! l)) →
  (∃ w',
     Monitor.add_project_info project a w = (Ret tt, w') ∧
     (∀ l, l ∈ records a →
        field w' l "project_name" = Some pname ∧
        field w' l "project_path" =
          Some (default pname (project !! "path_with_namespace")) ∧
        ∀ key, key ≠ "project_name" → key ≠ "project_path" →
               field w' l key = field w l key) ∧
     (∀ l, l ∉ records a → heap w' !! l = heap w !! l)) ∧
  (∃ w',
     Monitor.add_group_info group a w = (Ret tt, w') ∧
     (∀ l, l ∈ records a →
        field w' l "group_name" = Some gname ∧
        field w' l "group_path" =
          Some (default gname (group !! "full_path")) ∧
        ∀ key, key ≠ "group_name" → key ≠ "group_path" →
               field w' l key = field w l key) ∧
     (∀ l, l ∉ records a → heap w' !! l = heap w !! l)) ∧
  (∀ cfg p acc n w0 acc' n' w1,
     Monitor.process_project cfg p (acc, n) w0 = (Ret (acc', n'), w1) →
     batch_step w0 acc w1 acc') ∧
  (∀ cfg g acc n w0 acc' n' w1,
     Monitor.process_group cfg g (acc, n) w0 = (Ret (acc', n'), w1) →
     batch_step w0 acc w1 acc') ∧
  (∀ cfg p acc n w0 acc' n' w1,
     Monitor.process_project cfg p (acc, n) w0 = (Ret (acc', n'), w1) →
     ∃ ls,
       merged (map (project_record p
                      (threshold_date_of w0 (days_threshold cfg))
                      (current_date_of w0))
                   (tokens_of (project_access_tokens (gitlab w0)) p))
              (threshold_date_of w0 (days_threshold cfg)) (current_date_of w0)
              w0 acc ls w1 acc' ∧
       n' = n + len ls ∧
       ∀ l, l ∈ ls →
         ∃ name e,
           p !! "name" = Some name ∧
           field w1 l "project_name" = Some name ∧
           field w1 l "project_path" =
             Some (default name (p !! "path_with_namespace")) ∧
           field w1 l "status" =
             Some (status_of (threshold_date_of w0 (days_threshold cfg))
                             (current_date_of w0) e) ∧
           field w1 l "days_until_expiry" =
             Some (days_of (current_date_of w0) e) ∧
           l ∈ bucket (category_of (threshold_date_of w0 (days_threshold cfg))
                                   (current_date_of w0) e) acc') ∧
  (∀ cfg g acc n w0 acc' n' w1,
     Monitor.process_group cfg g (acc, n) w0 = (Ret (acc', n'), w1) →
     ∃ ls,
       merged (map (group_record g
                      (threshold_date_of w0 (days_threshold cfg))
                      (current_date_of w0))
                   (tokens_of (group_access_tokens (gitlab w0)) g))
              (threshold_date_of w0 (days_threshold cfg)) (current_date_of w0)
              w0 acc ls w1 acc' ∧
       n' = n + len ls ∧
       ∀ l, l ∈ ls →
         ∃ name e,
           g !! "name" = Some name ∧
           field w1 l "group_name" = Some name ∧
           field w1 l "group_path" = Some (default name (g !! "full_path")) ∧
           field w1 l "status" =
             Some (status_of (threshold_date_of w0 (days_threshold cfg))
                             (current_date_of w0) e) ∧
           field w1 l "days_until_expiry" =
             Some (days_of (current_date_of w0) e) ∧
           l ∈ bucket (category_of (threshold_date_of w0 (days_threshold cfg))
                                   (current_date_of w0) e) acc').
Proof.
  intros Hp Hg Hall. split_and!.
  - destruct (add_project_info_run project a w pname Hp Hall) as (w' & Hrun & Hh & _).
    exists w'. split_and!; [done| |].
    + intros l Hl. by eapply tagged_fields; eauto.
    + intros l Hl. by rewrite Hh, decide_False.
  - destruct (add_group_info_run group a w gname Hg Hall) as (w' & Hrun & Hh & _).
    exists w'. split_and!; [done| |].
    + intros l Hl. by eapply tagged_fields; eauto.
    + intros l Hl. by rewrite Hh, decide_False.
  - intros. by eapply process_project_step.
  - intros. by eapply process_group_step.
  - intros cfg p acc n w0 acc' n' w1 Hrun. by apply process_project_effect.
  - intros cfg g acc n w0 acc' n' w1 Hrun. by apply process_group_effect.
Qed.

End Metadata.

(** * The legacy check *)

Section LegacyRuns.
Context {parser : IsoParser}.

Lemma check_token_run thr now l r w d e :
  frozen w now → heap w !! l = Some d → expiry_of d = Some e →
  ∃ w',
    Legacy.check_token (DateTime thr None) l r w =
      (Ret (if is_soon thr e then r ++ [l] else r), w') ∧
    heap w' = <[l := legacy_stamp thr now d]> (heap w) ∧
    clock w' = clock w.
Proof.
  intros Hnow Hl He. unfold Legacy.check_token.
  rewrite (bind_run _ _ _ _ _ (dict_get_run _ _ _ _ d Hl)).
  unfold legacy_stamp. rewrite He. unfold expiry_of in He.
  destruct (truthy (default PNone (d !! "expires_at"))) eqn:Ht; simpl in He |- *.
  - destruct (d !! "expires_at") as [v|] eqn:Hv; simpl in Ht, He; [|done].
    destruct v as [| | | |s| |]; try done.
    destruct (fromisoformat (str_replace "Z" "+00:00" s)) as [msg|t] eqn:Hp;
      injection He as <-; simpl.
    + erewrite try_except_raise; cycle 1.
      { rewrite (bind_run _ _ _ _ _ (dict_getitem_run _ _ _ _ _ Hl Hv)).
        simpl. erewrite bind_run by reflexivity.
        unfold TokenAnalyzer.datetime_fromisoformat. rewrite Hp.
        by erewrite bind_raise by reflexivity. }
      simpl. rewrite (bind_run _ _ _ _ _ (dict_get_run _ _ _ _ d Hl)).
      erewrite bind_run by reflexivity.
      eexists. split; [reflexivity|]. simpl. by rewrite insert_id.
    + destruct (wall t <=? thr) eqn:Hsoon.
      * eexists. split.
        { apply try_except_run.
          rewrite (bind_run _ _ _ _ _ (dict_getitem_run _ _ _ _ _ Hl Hv)).
          simpl. erewrite bind_run by reflexivity.
          unfold TokenAnalyzer.datetime_fromisoformat. rewrite Hp.
          do 2 (erewrite bind_run by reflexivity). simpl. rewrite Hsoon.
          do 2 (erewrite bind_run by reflexivity).
          erewrite bind_run by (by apply dict_setitem_run).
          reflexivity. }
        simpl. by rewrite Hnow.
      * eexists. split.
        { apply try_except_run.
          rewrite (bind_run _ _ _ _ _ (dict_getitem_run _ _ _ _ _ Hl Hv)).
          simpl. erewrite bind_run by reflexivity.
          unfold TokenAnalyzer.datetime_fromisoformat. rewrite Hp.
          do 2 (erewrite bind_run by reflexivity). simpl. rewrite Hsoon.
          reflexivity. }
        by rewrite insert_id.
  - injection He as <-. simpl. eexists. split; [reflexivity|].
    by rewrite insert_id.
Qed.

Lemma expiry_of_legacy_stamp thr now d :
  expiry_of (legacy_stamp thr now d) = expiry_of d.
Proof.
  unfold legacy_stamp. destruct (expiry_of d) as [e|] eqn:He; [|done].
  destruct (is_soon thr e); [|done].
  unfold expiry_of in *. by rewrite lookup_insert_ne.
Qed.

Lemma legacy_stamp_idemp thr now d :
  legacy_stamp thr now (legacy_stamp thr now d) = legacy_stamp thr now d.
Proof.
  unfold legacy_stamp at 1. rewrite expiry_of_legacy_stamp.
  unfold legacy_stamp. destruct (expiry_of d) as [e|]; [|done].
  destruct (is_soon thr e); [|done]. apply insert_insert_eq.
Qed.

Lemma for_each_check_token thr now tokens : ∀ r w,
  frozen w now → tokens_ok (heap w) tokens = true →
  ∃ w',
    for_each tokens (Legacy.check_token (DateTime thr None)) r w =
      (Ret (r ++ filter (λ l, soon_at thr (heap w) l = true) tokens), w') ∧
    (∀ l, heap w' !! l =
          if decide (l ∈ tokens) then legacy_stamp thr now <$> heap w !! l
          else heap w !! l).
Proof.
  induction tokens as [|x rest IH]; intros r w Hnow Hok.
  - exists w. by rewrite filter_nil, app_nil_r.
  - simpl in Hok. apply andb_true_iff in Hok as [Hx Hrest].
    destruct (heap w !! x) as [d|] eqn:Hd; [|done].
    apply expiry_readable_spec in Hx as [e He].
    destruct (check_token_run thr now x r w d e Hnow Hd He) as (w1 & Hrun & Hh1 & Hc1).
    assert (∀ l, soon_at thr (heap w1) l = soon_at thr (heap w) l) as Hsoon.
    { intros l. unfold soon_at. rewrite Hh1.
      destruct (decide (x = l)) as [<-|].
      - by rewrite lookup_insert_eq, Hd, expiry_of_legacy_stamp.
      - by rewrite lookup_insert_ne. }
    destruct (IH (if is_soon thr e then r ++ [x] else r) w1) as (w' & Hloop & Hh).
    { intros k. by rewrite Hc1. }
    { rewrite Hh1. clear -Hd Hrest.
      induction rest as [|y rest IH]; [done|].
      simpl in *. apply andb_true_iff in Hrest as [Hy Hrest].
      apply andb_true_iff. split; [|by apply IH].
      destruct (decide (x = y)) as [<-|].
      - rewrite lookup_insert_eq. rewrite Hd in Hy.
        apply expiry_readable_spec. rewrite expiry_of_legacy_stamp.
        by apply expiry_readable_spec.
      - by rewrite lookup_insert_ne. }
    exists w'. split.
    + simpl. rewrite (bind_run _ _ _ _ _ Hrun), Hloop. do 2 f_equal.
      rewrite filter_cons.
      erewrite (list_filter_iff _ (λ l, soon_at thr (heap w) l = true)); cycle 1.
      { intros l. by rewrite Hsoon. }
      assert (soon_at thr (heap w) x = is_soon thr e) as ->.
      { unfold soon_at. by rewrite Hd, He. }
      destruct (is_soon thr e).
      * rewrite decide_True by done. by rewrite <- app_assoc.
      * by rewrite decide_False by done.
    + intros l. rewrite Hh, Hh1.
      destruct (decide (x = l)) as [<-|Hne].
      * rewrite lookup_insert_eq, Hd, (decide_True (P := x ∈ x :: rest)) by left.
        simpl. rewrite legacy_stamp_idemp. by destruct (decide (x ∈ rest)).
      * rewrite lookup_insert_ne by done.
        destruct (decide (l ∈ rest)) as [Hin|Hin].
        -- rewrite decide_True; [done|by right].
        -- rewrite decide_False; [done|]. by intros [->|?]%elem_of_cons.
Qed.

Lemma check_token_expiration_run tokens d w now :
  frozen w now →
  threshold_representable now d →
  tokens_ok (heap w) tokens = true →
  ∃ w',
    Legacy.check_token_expiration tokens d w =
      (Ret (filter (λ l, soon_at (now + d * usec_per_day) (heap w) l = true) tokens),
       w') ∧
    (∀ l, heap w' !! l =
          if decide (l ∈ tokens)
          then legacy_stamp (now + d * usec_per_day) now <$> heap w !! l
          else heap w !! l).
Proof.
  intros Hnow Hthr Hok.
  destruct (threshold_date_run _ _ Hthr) as [Htd Hadd].
  set (w1 := World (heap w) (clock w) (S (ticks w)) (stdout w)
                   (gitlab w) (outbox w)).
  destruct (for_each_check_token (now + d * usec_per_day) now tokens [] w1)
    as (w' & Hrun & Hh); [done..|].
  exists w'. split; [|done].
  unfold Legacy.check_token_expiration.
  erewrite bind_run by reflexivity. rewrite Htd.
  erewrite bind_run by reflexivity. rewrite (Hnow (ticks w)), Hadd.
  erewrite bind_run by reflexivity. exact Hrun.
Qed.

Lemma filter_union_perm {A} (P Q R : A → Prop)
    `{∀ x, Decision (P x)} `{∀ x, Decision (Q x)} `{∀ x, Decision (R x)} l :
  (∀ x, R x ↔ P x ∨ Q x) → (∀ x, P x → Q x → False) →
  filter P l ++ filter Q l ≡ₚ filter R l.
Proof.
  intros HR Hdisj. induction l as [|x rest IH]; [done|].
  rewrite !filter_cons.
  destruct (decide (P x)) as [HP|HP], (decide (Q x)) as [HQ|HQ].
  - by destruct (Hdisj x).
  - rewrite decide_True by (apply HR; auto). simpl. by constructor.
  - rewrite decide_True by (apply HR; auto).
    rewrite <- Permutation_middle. by constructor.
  - rewrite decide_False; [done|]. rewrite HR. tauto.
Qed.

End LegacyRuns.

Section LegacyAgreement.
Context {parser : IsoParser}.

(** C10, for a threshold that is not negative: at one evaluation time the
    legacy check returns, as a multiset, the tokens of the expired and
    expiring_soon buckets of the analyzer (permanent tokens and unparsable
    expiries are in neither), and leaves in each returned token the
    [days_until_expiry] the analyzer leaves in it. *)
Theorem legacy_check_agrees tokens d w now :
  0 <= d →
  frozen w now →
  threshold_representable now d →
  tokens_ok (heap w) tokens = true →
  ∃ a w1 r w2,
    TokenAnalyzer.analyze_all_tokens tokens d w = (Ret a, w1) ∧
    Legacy.check_token_expiration tokens d w = (Ret r, w2) ∧
    r ≡ₚ expired a ++ expiring_soon a ∧
    (∀ l, l ∈ r →
       ∃ n, field w2 l "days_until_expiry" = Some (PInt n) ∧
            field w1 l "days_until_expiry" = Some (PInt n)) ∧
    (∀ l, l ∈ no_expiration a → l ∉ r) ∧
    (∀ l, l ∈ r → field w1 l "status" ≠ Some (PStr "Error")).
Proof.
  intros Hd Hnow Hthr Hok.
  pose proof (Hnow (ticks w)) as Hn1. pose proof (Hnow (S (ticks w))) as Hn2.
  assert (threshold_representable (clock w (ticks w)) d) as Hthr' by by rewrite Hn1.
  destruct (analyze_all_tokens_run tokens d w Hthr' Hok) as (a & w1 & Hrun & Ha).
  unfold threshold_date_of, current_date_of in Ha. rewrite Hn1, Hn2 in Ha.
  destruct (check_token_expiration_run tokens d w now Hnow Hthr Hok)
    as (w2 & Hleg & Hh2).
  set (thr := now + d * usec_per_day) in *.
  assert (now <= thr) as Hle by (unfold thr, usec_per_day; lia).
  assert (∀ l, l ∈ filter (λ l, soon_at thr (heap w) l = true) tokens →
            ∃ dd t, heap w !! l = Some dd ∧ l ∈ tokens ∧
                    expiry_of dd = Some (ExpiresAt t) ∧ t <= thr) as Hsoon.
  { intros l [Hs Hl]%list_elem_of_filter. unfold soon_at in Hs.
    destruct (heap w !! l) as [dd|] eqn:Hdd; [|done].
    destruct (expiry_of dd) as [[| |t]|] eqn:He; try done.
    exists dd, t. split_and!; try done. by apply Z.leb_le. }
  eexists a, w1, _, w2. split_and!; [done|done| | | |].
  - symmetry. destruct Ha as (Hb & _).
    pose proof (Hb Expired) as H1. pose proof (Hb ExpiringSoon) as H2.
    simpl in H1, H2. rewrite H1, H2.
    apply filter_union_perm; [|congruence].
    intros l. unfold soon_at, category_at.
    destruct (heap w !! l) as [dd|]; [|intuition congruence].
    destruct (expiry_of dd) as [[| |t]|]; simpl; try (intuition congruence).
    destruct (Z.leb_spec t now), (Z.leb_spec t thr);
      try (intuition congruence). lia.
  - intros l Hl. destruct (Hsoon l Hl) as (dd & t & Hdd & Hin & He & Ht).
    exists ((t - now) / usec_per_day). split.
    + unfold field. rewrite Hh2, decide_True, Hdd by done. simpl.
      unfold legacy_stamp. rewrite He. simpl.
      rewrite (proj2 (Z.leb_le _ _) Ht). apply lookup_insert_eq.
    + by destruct (analysed_field _ _ _ _ _ _ _ _ _ Ha Hin Hdd He) as [_ ->].
  - intros l Hperm Hl. destruct (Hsoon l Hl) as (dd & t & Hdd & Hin & He & Ht).
    pose proof (analysed_category _ _ _ _ _ _ _ _ _ Ha Hin Hdd He) as [_ Huniq].
    specialize (Huniq NoExpiration Hperm). simpl in Huniq.
    destruct (t <=? now); [done|]. by destruct (t <=? thr).
  - intros l Hl. destruct (Hsoon l Hl) as (dd & t & Hdd & Hin & He & Ht).
    destruct (analysed_field _ _ _ _ _ _ _ _ _ Ha Hin Hdd He) as [-> _].
    simpl. destruct (t <=? now); [done|]. by destruct (t <=? thr).
Qed.

End LegacyAgreement.

(** With a negative threshold the analyzer still reports the token as
    expired and the legacy check returns nothing. *)
Lemma legacy_check_negative_threshold :
  ∃ a w1 r w2,
    @TokenAnalyzer.analyze_all_tokens Iso8601.parse [1%positive] (-1) stale_world
      = (Ret a, w1) ∧
    @Legacy.check_token_expiration Iso8601.parse [1%positive] (-1) stale_world
      = (Ret r, w2) ∧
    expired a = [1%positive] ∧ r = [] ∧
    ¬ (r ≡ₚ expired a ++ expiring_soon a).
Proof.
  eexists _, _, _, _. split_and!.
  - vm_compute. reflexivity.
  - vm_compute. reflexivity.
  - reflexivity.
  - reflexivity.
  - simpl. intros H. by apply Permutation_nil_cons in H.
Qed.

(** * Concrete runs *)

Lemma sample_run_eq :
  @TokenAnalyzer.analyze_all_tokens Iso8601.parse sample_tokens 7 sample_world
  = (Ret sample_analysis, sample_run.2).
Proof. vm_compute. reflexivity. Defined.

Lemma classification_rule_order_witness :
  placed ExpiringSoon 1%positive sample_analysis ∧
  placed Healthy 2%positive sample_analysis ∧
  placed Expired 3%positive sample_analysis.
Proof.
  split_and!.
  - destruct (@classification_rule_order Iso8601.parse sample_tokens 7
                sample_world sample_now 1%positive
                {[ "expires_at" := PStr "2024-01-08T00:00:00" ]}
                "2024-01-08T00:00:00"
                (DateTime (Iso8601.at_ "2024-01-08T00:00:00") None))
      as [_ Hrules].
    + intros k. reflexivity.
    + vm_compute. left.
    + vm_compute. reflexivity.
    + vm_compute. reflexivity.
    + discriminate.
    + vm_compute. reflexivity.
    + destruct (Hrules _ _ sample_run_eq) as (_ & _ & _ & _ & Hboundary & _).
      apply Hboundary; [reflexivity|]. vm_compute. reflexivity.
  - destruct (@classification_rule_order Iso8601.parse sample_tokens 7
                sample_world sample_now 2%positive
                {[ "expires_at" := PStr "2024-01-09T00:00:00Z" ]}
                "2024-01-09T00:00:00Z"
                (DateTime (Iso8601.at_ "2024-01-09T00:00:00") (Some 0)))
      as [_ Hrules].
    + intros k. reflexivity.
    + vm_compute. right. left.
    + vm_compute. reflexivity.
    + vm_compute. reflexivity.
    + discriminate.
    + vm_compute. reflexivity.
    + destruct (Hrules _ _ sample_run_eq) as (_ & _ & _ & _ & _ & Hpast).
      apply Hpast; [discriminate|]. vm_compute. reflexivity.
  - destruct (@classification_rule_order Iso8601.parse sample_tokens 7
                sample_world sample_now 3%positive
                {[ "expires_at" := PStr "2023-12-31T00:00:00" ]}
                "2023-12-31T00:00:00"
                (DateTime (Iso8601.at_ "2023-12-31T00:00:00") None))
      as [_ Hrules].
    + intros k. reflexivity.
    + vm_compute. do 2 right. left.
    + vm_compute. reflexivity.
    + vm_compute. reflexivity.
    + discriminate.
    + vm_compute. reflexivity.
    + destruct (Hrules _ _ sample_run_eq) as (Hexpired & _).
      apply Hexpired. vm_compute. discriminate.
Defined.

Lemma parse_error_fail_open_witness :
  placed Healthy 4%positive sample_analysis ∧
  field sample_run.2 4%positive "status" = Some (PStr "Error") ∧
  field sample_run.2 4%positive "days_until_expiry" = Some (PStr "Unknown").
Proof.
  destruct (@parse_error_fail_open Iso8601.parse sample_tokens 7 sample_world
              4%positive
              {[ "expires_at" := PStr "not-a-date"; "name" := PStr "ci" ]}
              "not-a-date" "Invalid isoformat string: not-a-date")
    as (_ & _ & Hres).
  - vm_compute. do 3 right. left.
  - vm_compute. reflexivity.
  - vm_compute. reflexivity.
  - discriminate.
  - vm_compute. reflexivity.
  - destruct (Hres _ _ sample_run_eq) as (Hp & Hs & Hd & _). by split_and!.
Defined.

Lemma absent_expiry_is_permanent_witness :
  placed NoExpiration 5%positive sample_analysis ∧
  field sample_run.2 5%positive "days_until_expiry" = Some (PStr "Never").
Proof.
  destruct (@absent_expiry_is_permanent Iso8601.parse sample_tokens 7 sample_world
              5%positive {[ "name" := PStr "bot" ]})
    as (_ & Hres & _).
  - vm_compute. do 4 right. left.
  - vm_compute. reflexivity.
  - vm_compute. reflexivity.
  - destruct (Hres _ _ sample_run_eq) as (Hp & Hs & Hd). by split.
Defined.

Lemma falsy_expiry_is_permanent_witness :
  placed NoExpiration 6%positive sample_analysis ∧
  field sample_run.2 6%positive "status" = Some (PStr "No Expiration").
Proof.
  destruct (@falsy_expiry_is_permanent Iso8601.parse sample_tokens 7 sample_world
              6%positive {[ "expires_at" := PStr "" ]} (PStr ""))
    as (_ & Hres & _).
  - vm_compute. do 5 right. left.
  - vm_compute. reflexivity.
  - vm_compute. reflexivity.
  - reflexivity.
  - destruct (Hres _ _ sample_run_eq) as (Hp & Hs & Hd). by split.
Defined.

Lemma buckets_partition_input_witness :
  records sample_analysis ≡ₚ sample_tokens ∧
  total_count sample_analysis = len sample_tokens.
Proof.
  destruct (@buckets_partition_input Iso8601.parse sample_tokens 7 sample_world
              sample_analysis sample_run.2)
    as (_ & _ & Hperm & _ & Htotal).
  - vm_compute. reflexivity.
  - by split.
Defined.

Lemma days_until_expiry_floor_witness :
  field sample_run.2 7%positive "days_until_expiry" = Some (PInt 0) ∧
  ∃ n, field sample_run.2 3%positive "days_until_expiry" = Some (PInt n) ∧ n < 0.
Proof.
  destruct (@days_until_expiry_floor Iso8601.parse sample_tokens 7 sample_world
              sample_analysis sample_run.2)
    as [Hfloor _].
  - vm_compute. reflexivity.
  - split.
    + destruct (Hfloor 7%positive
                  {[ "expires_at" := PStr "2024-01-01T18:00:00" ]}
                  "2024-01-01T18:00:00"
                  (DateTime (Iso8601.at_ "2024-01-01T18:00:00") None))
        as (n & Hn & _ & H18 & _).
      * vm_compute. do 6 right. left.
      * vm_compute. reflexivity.
      * vm_compute. reflexivity.
      * discriminate.
      * vm_compute. reflexivity.
      * rewrite Hn. rewrite H18; [reflexivity|]. vm_compute. reflexivity.
    + destruct (Hfloor 3%positive
                  {[ "expires_at" := PStr "2023-12-31T00:00:00" ]}
                  "2023-12-31T00:00:00"
                  (DateTime (Iso8601.at_ "2023-12-31T00:00:00") None))
        as (n & Hn & _ & _ & Hneg).
      * vm_compute. do 2 right. left.
      * vm_compute. reflexivity.
      * vm_compute. reflexivity.
      * discriminate.
      * vm_compute. reflexivity.
      * exists n. split; [exact Hn|]. apply Hneg. vm_compute. reflexivity.
Defined.

Lemma merge_concatenates_and_commutes_witness :
  (∀ c, bucket c (merge_all empty_analysis [batch_a; batch_b]) ≡ₚ
        bucket c (merge_all empty_analysis [batch_ab])) ∧
  total_count (merge_all empty_analysis [batch_a; batch_b]) =
  total_count (merge_all empty_analysis [batch_ab]).
Proof.
  destruct (merge_concatenates_and_commutes empty_analysis batch_a batch_b
              batch_ab [batch_a; batch_b] [batch_ab])
    as (_ & _ & _ & _ & _ & Hb & Ht & _).
  - repeat constructor.
  - repeat constructor.
  - intros c. destruct c; simpl; first [reflexivity|apply perm_swap].
  - by split.
Defined.

Lemma sample_round_eq :
  @Monitor.process_project Iso8601.parse sample_config sample_project
    (empty_analysis, 0) served_world =
  (Ret (sample_project_acc, 2), sample_round.2).
Proof. vm_compute. reflexivity. Defined.

Lemma metadata_attachment_frame_witness :
  (∃ w',
     Monitor.add_project_info sample_project batch_a sample_world = (Ret tt, w') ∧
     field w' 1%positive "project_path" = Some (PStr "ops/deploy") ∧
     field w' 1%positive "expires_at" = Some (PStr "2024-01-08T00:00:00") ∧
     heap w' !! 3%positive = heap sample_world !! 3%positive) ∧
  (∃ w',
     Monitor.add_group_info sample_group batch_a sample_world = (Ret tt, w') ∧
     field w' 2%positive "group_path" = Some (PStr "ops")) ∧
  field sample_round.2 1%positive "project_name" = Some (PStr "deploy") ∧
  field sample_round.2 1%positive "project_path" = Some (PStr "ops/deploy").
Proof.
  destruct (@metadata_attachment_frame Iso8601.parse sample_project sample_group
              batch_a sample_world (PStr "deploy") (PStr "ops"))
    as ((w1 & Hrun1 & Hin1 & Hout1) & (w2 & Hrun2 & Hin2 & _) & _ & _ & Hround & _).
  - vm_compute. reflexivity.
  - vm_compute. reflexivity.
  - intros l Hl. vm_compute in Hl.
    apply elem_of_cons in Hl as [->|Hl]; [by eexists|].
    apply elem_of_cons in Hl as [->|Hl]; [by eexists|].
    by apply elem_of_nil in Hl.
  - split; [|split].
    + exists w1. split; [exact Hrun1|].
      destruct (Hin1 1%positive) as (_ & Hpath & Hother).
      { vm_compute. left. }
      split_and!.
      * exact Hpath.
      * rewrite Hother by discriminate. vm_compute. reflexivity.
      * apply Hout1. vm_compute. intros Hl.
        apply elem_of_cons in Hl as [?|Hl]; [done|].
        apply elem_of_cons in Hl as [?|Hl]; [done|].
        by apply elem_of_nil in Hl.
    + exists w2. split; [exact Hrun2|].
      destruct (Hin2 2%positive) as (_ & Hpath & _).
      { vm_compute. right. left. }
      exact Hpath.
    + destruct (Hround sample_config sample_project empty_analysis 0
                  served_world sample_project_acc 2 sample_round.2
                  sample_round_eq)
        as (ls & (_ & _ & _ & Hb & _) & _ & Hfields).
      assert (1%positive ∈ ls) as Hin.
      { assert (1%positive ∈ bucket Expired sample_project_acc) as H
          by (change (1%positive ∈ [1%positive]); left).
        rewrite (Hb Expired) in H.
        apply elem_of_app in H as [H|H]; [by apply elem_of_nil in H|].
        apply list_elem_of_filter in H as [_ H]. exact H. }
      destruct (Hfields _ Hin) as (name & e & Hname & Hpn & Hpp & _).
      vm_compute in Hname. injection Hname as <-.
      split; [exact Hpn|exact Hpp].
Defined.

Lemma legacy_check_agrees_witness :
  ∃ a w1 r w2,
    @TokenAnalyzer.analyze_all_tokens Iso8601.parse sample_tokens 7 sample_world
      = (Ret a, w1) ∧
    @Legacy.check_token_expiration Iso8601.parse sample_tokens 7 sample_world
      = (Ret r, w2) ∧
    r ≡ₚ expired a ++ expiring_soon a.
Proof.
  destruct (@legacy_check_agrees Iso8601.parse sample_tokens 7 sample_world
              sample_now)
    as (a & w1 & r & w2 & Hrun & Hleg & Hperm & _).
  - discriminate.
  - intros k. reflexivity.
  - vm_compute. split; [discriminate|split; discriminate].
  - vm_compute. reflexivity.
  - by exists a, w1, r, w2.
Defined.

(** The legacy check on the sample tokens. *)
Example sample_legacy_result :
  (@Legacy.check_token_expiration Iso8601.parse sample_tokens 7 sample_world).1
  = Ret [1; 3; 7]%positive.
Proof. vm_compute. reflexivity. Qed.

(** A threshold whose date is past [datetime.max]. *)
Example overflowing_threshold :
  (@TokenAnalyzer.analyze_all_tokens Iso8601.parse sample_tokens 4000000
     sample_world).1 = Raise OverflowError.
Proof. vm_compute. reflexivity. Qed.

(** A truthy [expires_at] that is not a string has no [replace]. *)
Example unreadable_expiry :
  (@TokenAnalyzer.analyze_all_tokens Iso8601.parse [1%positive] 7
     (set_heap (λ _, {[ 1%positive := {[ "expires_at" := PInt 20240108 ]} ]})
               sample_world)).1
  = Raise (AttributeError "replace").
Proof. vm_compute. reflexivity. Qed.

(** * Grouping tokens by type *)

Lemma for_each_select (body : loc → list loc → M (list loc)) (p : loc → bool)
    (ts : list loc) w :
  (∀ t acc, t ∈ ts → body t acc w = (Ret (if p t then acc ++ [t] else acc), w)) →
  ∀ acc, for_each ts body acc w = (Ret (acc ++ filter (λ t, p t = true) ts), w).
Proof.
  induction ts as [|x rest IH]; intros Hbody acc.
  - by rewrite filter_nil, app_nil_r.
  - simpl. rewrite (bind_run _ _ _ _ _ (Hbody x acc ltac:(by left))).
    rewrite IH by (intros; apply Hbody; by right).
    rewrite filter_cons. destruct (p x).
    + rewrite decide_True by done. by rewrite <- app_assoc.
    + by rewrite decide_False by done.
Qed.

Lemma comprehension_run (cond : loc → M bool) (p : loc → bool) (ts : list loc) w :
  (∀ t, t ∈ ts → cond t w = (Ret (p t), w)) →
  comprehension ts cond w = (Ret (filter (λ t, p t = true) ts), w).
Proof.
  intros Hcond. unfold comprehension.
  rewrite (for_each_select _ p ts w); [done|].
  intros t acc Ht. rewrite (bind_run _ _ _ _ _ (Hcond t Ht)). by destruct (p t).
Qed.

Lemma field_get w t key d :
  heap w !! t = Some d → default PNone (d !! key) = default PNone (field w t key).
Proof. intros H. unfold field. by rewrite H. Qed.

Lemma group_tokens_by_type_run (tokens : list loc) w :
  (∀ t, t ∈ tokens → is_Some (heap w !! t)) →
  TokenAnalyzer.group_tokens_by_type tokens w =
  (Ret (TokenGroups (filter (λ t, is_personal w t = true) tokens)
                    (filter (λ t, has_type "project" w t = true) tokens)
                    (filter (λ t, has_type "group" w t = true) tokens)), w).
Proof.
  intros Hall. unfold TokenAnalyzer.group_tokens_by_type.
  erewrite bind_run; cycle 1.
  { apply (comprehension_run _ (is_personal w)). intros t Ht.
    destruct (Hall t Ht) as [d Hd]. unfold is_personal.
    rewrite (bind_run _ _ _ _ _ (dict_get_run _ _ _ _ d Hd)).
    rewrite <- !(field_get w t _ d Hd).
    destruct (truthy (default PNone (d !! "user_id"))); [|done].
    by rewrite (bind_run _ _ _ _ _ (dict_get_run _ _ _ _ d Hd)). }
  erewrite bind_run; cycle 1.
  { apply (comprehension_run _ (has_type "project" w)). intros t Ht.
    destruct (Hall t Ht) as [d Hd]. unfold has_type.
    rewrite (bind_run _ _ _ _ _ (dict_get_run _ _ _ _ d Hd)).
    by rewrite <- !(field_get w t _ d Hd). }
  erewrite bind_run; cycle 1.
  { apply (comprehension_run _ (has_type "group" w)). intros t Ht.
    destruct (Hall t Ht) as [d Hd]. unfold has_type.
    rewrite (bind_run _ _ _ _ _ (dict_get_run _ _ _ _ d Hd)).
    by rewrite <- !(field_get w t _ d Hd). }
  done.
Qed.

Lemma has_type_field ty w t :
  has_type ty w t = true ↔ field w t "token_type" = Some (PStr ty).
Proof.
  unfold has_type. destruct (field w t "token_type") as [v|]; simpl; [|done].
  destruct v; simpl; try done.
  rewrite String.eqb_eq. split; [by intros ->|by intros [= ->]].
Qed.

(** X1: on records that exist [group_tokens_by_type] returns and changes
    nothing; each group is the input filtered, in the order of the input;
    the project and group lists hold the tokens whose [token_type] is
    "project" and "group", the personal list those with a truthy [user_id]
    and a falsy [token_type]; and no token is in two groups. *)
Theorem group_tokens_by_type_disjoint (tokens : list loc) w :
  (∀ t, t ∈ tokens → is_Some (heap w !! t)) →
  ∃ g,
    TokenAnalyzer.group_tokens_by_type tokens w = (Ret g, w) ∧
    sublist (personal g) tokens ∧ sublist (project g) tokens ∧
    sublist (group g) tokens ∧
    (∀ t, t ∈ project g ↔
          t ∈ tokens ∧ field w t "token_type" = Some (PStr "project")) ∧
    (∀ t, t ∈ group g ↔
          t ∈ tokens ∧ field w t "token_type" = Some (PStr "group")) ∧
    (∀ t, t ∈ personal g ↔
          t ∈ tokens ∧
          truthy (default PNone (field w t "user_id")) = true ∧
          truthy (default PNone (field w t "token_type")) = false) ∧
    (∀ t, t ∈ personal g → (t ∉ project g) ∧ (t ∉ group g)) ∧
    (∀ t, t ∈ project g → (t ∉ group g)).
Proof.
  intros Hall. eexists. split; [by apply group_tokens_by_type_run|]. simpl.
  assert (∀ t, t ∈ filter (λ t, has_type "project" w t = true) tokens ↔
               t ∈ tokens ∧ field w t "token_type" = Some (PStr "project")) as Hp.
  { intros t. rewrite list_elem_of_filter, has_type_field. tauto. }
  assert (∀ t, t ∈ filter (λ t, has_type "group" w t = true) tokens ↔
               t ∈ tokens ∧ field w t "token_type" = Some (PStr "group")) as Hg.
  { intros t. rewrite list_elem_of_filter, has_type_field. tauto. }
  assert (∀ t, t ∈ filter (λ t, is_personal w t = true) tokens ↔
               t ∈ tokens ∧
               truthy (default PNone (field w t "user_id")) = true ∧
               truthy (default PNone (field w t "token_type")) = false) as Hu.
  { intros t. rewrite list_elem_of_filter. unfold is_personal.
    rewrite andb_true_iff, negb_true_iff. tauto. }
  split_and!; try apply sublist_filter; try done.
  - intros t Ht. apply Hu in Ht as (_ & _ & Hty).
    split; intros Hin; [apply Hp in Hin|apply Hg in Hin];
      destruct Hin as [_ Hf]; by rewrite Hf in Hty.
  - intros t Ht Hin. apply Hp in Ht as [_ Ht]. apply Hg in Hin as [_ Hin].
    congruence.
Qed.

(** X2: the three groups do not cover the input: a token is in none of them
    exactly when its [token_type] is neither "project" nor "group" and
    either its [user_id] is falsy or its [token_type] is truthy. *)
Theorem group_tokens_by_type_leftover (tokens : list loc) w t :
  (∀ t, t ∈ tokens → is_Some (heap w !! t)) →
  t ∈ tokens →
  ∃ g,
    TokenAnalyzer.group_tokens_by_type tokens w = (Ret g, w) ∧
    ((t ∉ personal g) ∧ (t ∉ project g) ∧ (t ∉ group g) ↔
     field w t "token_type" ≠ Some (PStr "project") ∧
     field w t "token_type" ≠ Some (PStr "group") ∧
     (truthy (default PNone (field w t "user_id")) = false ∨
      truthy (default PNone (field w t "token_type")) = true)).
Proof.
  intros Hall Ht. eexists. split; [by apply group_tokens_by_type_run|]. simpl.
  rewrite !list_elem_of_filter. unfold is_personal.
  rewrite !has_type_field, andb_true_iff, negb_true_iff.
  destruct (truthy (default PNone (field w t "user_id")));
    destruct (truthy (default PNone (field w t "token_type")));
    intuition congruence.
Qed.

(** * The token fetchers *)

(** X3: a failing request makes no fetcher raise: each returns the empty
    list, prints one line and leaves every record as it was. *)
Theorem fetchers_swallow_request_errors w project_id group_id :
  (personal_access_tokens (gitlab w) = None →
   GitLabAPI.get_personal_access_tokens w =
   (Ret [], printed [Lit "Error fetching personal access tokens: ";
                     Exc RequestException] w)) ∧
  (project_access_tokens (gitlab w) project_id = None →
   GitLabAPI.get_project_access_tokens project_id w =
   (Ret [], printed [Lit "Error fetching project access tokens for project ";
                     Val project_id; Lit ": "; Exc RequestException] w)) ∧
  (group_access_tokens (gitlab w) group_id = None →
   GitLabAPI.get_group_access_tokens group_id w =
   (Ret [], printed [Lit "Error fetching group access tokens for group ";
                     Val group_id; Lit ": "; Exc RequestException] w)).
Proof.
  split_and!; intros Hans.
  - unfold GitLabAPI.get_personal_access_tokens.
    erewrite try_except_raise; cycle 1.
    { unfold GitLabAPI.requests_get_json. by rewrite Hans. }
    done.
  - unfold GitLabAPI.get_project_access_tokens.
    by rewrite (fetch_and_tag_failure (ret [])
                  (λ s, project_access_tokens s project_id)).
  - unfold GitLabAPI.get_group_access_tokens.
    by rewrite (fetch_and_tag_failure (ret [])
                  (λ s, group_access_tokens s group_id)).
Qed.

(** X4: a successful fetch of project access tokens returns one new record
    per object of the answer, in order and all distinct, each the object
    sent with [token_type] set to "project" and [project_id] to the id asked
    for; the group fetcher does the same with "group" and [group_id]; the
    personal fetcher returns the objects as sent.  Nothing is printed and
    no older record changes. *)
Theorem fetchers_build_new_records w project_id group_id objects :
  (personal_access_tokens (gitlab w) = Some objects →
   ∃ ls w',
     GitLabAPI.get_personal_access_tokens w = (Ret ls, w') ∧
     fresh_batch ls w w' ∧ same_but_heap w w' ∧ NoDup ls ∧
     Forall2 (λ l d, heap w' !! l = Some d) ls objects) ∧
  (project_access_tokens (gitlab w) project_id = Some objects →
   ∃ ls w',
     GitLabAPI.get_project_access_tokens project_id w = (Ret ls, w') ∧
     fresh_batch ls w w' ∧ same_but_heap w w' ∧ NoDup ls ∧
     Forall2 (λ l d, heap w' !! l =
                     Some (<["project_id" := project_id]>
                             (<["token_type" := PStr "project"]> d)))
             ls objects) ∧
  (group_access_tokens (gitlab w) group_id = Some objects →
   ∃ ls w',
     GitLabAPI.get_group_access_tokens group_id w = (Ret ls, w') ∧
     fresh_batch ls w w' ∧ same_but_heap w w' ∧ NoDup ls ∧
     Forall2 (λ l d, heap w' !! l =
                     Some (<["group_id" := group_id]>
                             (<["token_type" := PStr "group"]> d)))
             ls objects).
Proof.
  split_and!; intros Hans.
  - destruct (response_json_alloc objects w) as (ls & w' & Hrun & Hrest).
    exists ls, w'. split; [|done].
    apply try_except_run. unfold GitLabAPI.requests_get_json. by rewrite Hans.
  - by apply (fetch_and_tag_success (λ s, project_access_tokens s project_id)).
  - by apply (fetch_and_tag_success (λ s, group_access_tokens s group_id)).
Qed.

(** Tokens that all carry the type [ty], with [ty] one of the two scopes. *)
Lemma group_tokens_of_one_type (ls : list loc) w ty :
  (∀ l, l ∈ ls → field w l "token_type" = Some (PStr ty)) →
  ty ≠ "" →
  TokenAnalyzer.group_tokens_by_type ls w =
  (Ret (TokenGroups []
          (if String.eqb ty "project" then ls else [])
          (if String.eqb ty "group" then ls else [])), w).
Proof.
  intros Hty Hne. rewrite group_tokens_by_type_run; cycle 1.
  { intros l Hl. specialize (Hty l Hl). unfold field in Hty.
    destruct (heap w !! l); [by eexists|done]. }
  do 2 f_equal. f_equal.
  - apply filter_none. intros l Hl. unfold is_personal. rewrite (Hty l Hl).
    simpl. destruct ty; [done|]. simpl. by rewrite andb_false_r.
  - destruct (String.eqb ty "project") eqn:E.
    + apply filter_all. intros l Hl. unfold has_type. by rewrite (Hty l Hl).
    + apply filter_none. intros l Hl. unfold has_type. rewrite (Hty l Hl).
      simpl. by rewrite E.
  - destruct (String.eqb ty "group") eqn:E.
    + apply filter_all. intros l Hl. unfold has_type. by rewrite (Hty l Hl).
    + apply filter_none. intros l Hl. unfold has_type. rewrite (Hty l Hl).
      simpl. by rewrite E.
Qed.

(** X5: whatever the server sends, the tokens [get_project_access_tokens]
    returns are all in the project group of [group_tokens_by_type] and in no
    other, also when they carry a [user_id]; those of
    [get_group_access_tokens] are all in the group group. *)
Theorem fetched_tokens_grouped_by_scope w project_id group_id :
  (∃ ls w',
     GitLabAPI.get_project_access_tokens project_id w = (Ret ls, w') ∧
     TokenAnalyzer.group_tokens_by_type ls w' = (Ret (TokenGroups [] ls []), w')) ∧
  (∃ ls w',
     GitLabAPI.get_group_access_tokens group_id w = (Ret ls, w') ∧
     TokenAnalyzer.group_tokens_by_type ls w' = (Ret (TokenGroups [] [] ls), w')).
Proof.
  split.
  - destruct (project_access_tokens (gitlab w) project_id) as [objects|] eqn:Hans.
    + destruct (fetch_and_tag_success (λ s, project_access_tokens s project_id)
                  "token_type" (PStr "project") "project_id" project_id
                  (λ e, print [Lit "Error fetching project access tokens for project ";
                               Val project_id; Lit ": "; Exc e] ;; ret [])
                  w objects Hans)
        as (ls & w' & Hrun & _ & _ & _ & Hall).
      exists ls, w'. split; [exact Hrun|].
      rewrite (group_tokens_of_one_type ls w' "project"); [done| |done].
      intros l Hl. destruct (Forall2_elem_of_l _ _ _ _ Hall Hl) as [d Hd].
      unfold field, tag in *. rewrite Hd.
      by rewrite lookup_insert_ne, lookup_insert_eq.
    + eexists _, _. split.
      * unfold GitLabAPI.get_project_access_tokens.
        by rewrite (fetch_and_tag_failure (ret [])
                      (λ s, project_access_tokens s project_id)).
      * by rewrite group_tokens_by_type_run by (by intros ? ?%elem_of_nil).
  - destruct (group_access_tokens (gitlab w) group_id) as [objects|] eqn:Hans.
    + destruct (fetch_and_tag_success (λ s, group_access_tokens s group_id)
                  "token_type" (PStr "group") "group_id" group_id
                  (λ e, print [Lit "Error fetching group access tokens for group ";
                               Val group_id; Lit ": "; Exc e] ;; ret [])
                  w objects Hans)
        as (ls & w' & Hrun & _ & _ & _ & Hall).
      exists ls, w'. split; [exact Hrun|].
      rewrite (group_tokens_of_one_type ls w' "group"); [done| |done].
      intros l Hl. destruct (Forall2_elem_of_l _ _ _ _ Hall Hl) as [d Hd].
      unfold field, tag in *. rewrite Hd.
      by rewrite lookup_insert_ne, lookup_insert_eq.
    + eexists _, _. split.
      * unfold GitLabAPI.get_group_access_tokens.
        by rewrite (fetch_and_tag_failure (ret [])
                      (λ s, group_access_tokens s group_id)).
      * by rewrite group_tokens_by_type_run by (by intros ? ?%elem_of_nil).
Qed.

(** * More on the analyzer *)

Section AnalyzerFacts.
Context {parser : IsoParser}.

Lemma for_each_app_state {A S} (body : A → S → M S) (xs ys : list A) s w :
  for_each (xs ++ ys) body s w =
  (let* s' := for_each xs body s in for_each ys body s') w.
Proof.
  revert s w. induction xs as [|x rest IH]; intros s w; [done|].
  simpl. unfold bind at 1 2 3.
  destruct (body x s w) as [[s'|e] w1]; [apply IH|done].
Qed.

(** X6: a call that returns has written only the fields [status] and
    [days_until_expiry], and only in records of its token list; it has made
    no record and lost none, has read the clock twice and has sent
    nothing. *)
Theorem analyze_all_tokens_writes_two_fields tokens d w a w' :
  TokenAnalyzer.analyze_all_tokens tokens d w = (Ret a, w') →
  (∀ l key, key ≠ "status" → key ≠ "days_until_expiry" →
            field w' l key = field w l key) ∧
  (∀ l, l ∉ tokens → heap w' !! l = heap w !! l) ∧
  (∀ l, is_Some (heap w' !! l) ↔ is_Some (heap w !! l)) ∧
  ticks w' = S (S (ticks w)) ∧ clock w' = clock w ∧
  gitlab w' = gitlab w ∧ outbox w' = outbox w.
Proof.
  intros Hrun. apply analyze_all_tokens_inv in Hrun as (_ & _ & Ha).
  destruct Ha as (_ & _ & _ & Hh & Hc & Ht & Hg & Ho).
  split_and!; try done.
  - intros l key H1 H2. unfold field. rewrite Hh.
    destruct (decide (l ∈ tokens)); [|done].
    destruct (heap w !! l) as [d0|]; [|done]. simpl.
    by apply stamp_lookup_other.
  - intros l Hl. by rewrite Hh, decide_False.
  - intros l. rewrite Hh. destruct (decide (l ∈ tokens)); [|done].
    by rewrite fmap_is_Some.
Qed.

(** X7: when [now + timedelta(days=days_threshold)] is out of the range of
    [datetime], the call raises [OverflowError] after its first clock read,
    whatever the tokens (an empty list included), and has touched no record
    and printed nothing. *)
Theorem analyze_all_tokens_overflows_first tokens d w :
  ¬ threshold_representable (clock w (ticks w)) d →
  TokenAnalyzer.analyze_all_tokens tokens d w =
  (Raise OverflowError,
   World (heap w) (clock w) (S (ticks w)) (stdout w) (gitlab w) (outbox w)).
Proof.
  intros Hn. unfold TokenAnalyzer.analyze_all_tokens.
  erewrite bind_run by reflexivity.
  destruct (threshold_date_overflow _ _ Hn) as [Htd|[Htd Hadd]].
  - rewrite Htd. by erewrite bind_raise by reflexivity.
  - rewrite Htd. erewrite bind_run by reflexivity. rewrite Hadd.
    by erewrite bind_raise by reflexivity.
Qed.

(** X8: a truthy [expires_at] that is not a string stops the call at that
    token with [AttributeError]: nothing is returned, the tokens before it
    have been given their status, and the token itself and the records
    outside the list before it are as they were. *)
Theorem analyze_all_tokens_stops_at_unreadable pre bad post d w tok :
  threshold_representable (clock w (ticks w)) d →
  tokens_ok (heap w) pre = true →
  heap w !! bad = Some tok →
  expiry_readable tok = false →
  ∃ w',
    TokenAnalyzer.analyze_all_tokens (pre ++ bad :: post) d w =
      (Raise (AttributeError "replace"), w') ∧
    (∀ l, l ∈ pre → is_Some (field w' l "status")) ∧
    (∀ l, l ∉ pre → heap w' !! l = heap w !! l) ∧
    heap w' !! bad = Some tok.
Proof.
  intros Hthr Hok Hbad Hunread.
  destruct (threshold_date_run _ _ Hthr) as [Htd Hadd].
  set (w2 := World (heap w) (clock w) (S (S (ticks w))) (stdout w)
                   (gitlab w) (outbox w)).
  set (r0 := Analysis [] [] [] [] (len (pre ++ bad :: post)) None).
  destruct (for_each_analyze_token (threshold_date_of w d) (current_date_of w)
              pre r0 w2 Hok)
    as (r1 & w3 & Hrun & _ & _ & _ & Hh & _).
  simpl in Hh.
  assert (bad ∉ pre) as Hnotin.
  { intros Hin. destruct (tokens_ok_elem _ _ _ Hok Hin) as (d0 & e & Hd0 & He).
    rewrite Hbad in Hd0. injection Hd0 as <-.
    assert (is_Some (expiry_of tok)) as Hs by eauto.
    apply expiry_readable_spec in Hs. congruence. }
  assert (expiry_of tok = None) as Hnone.
  { destruct (expiry_of tok) eqn:E; [|done].
    assert (is_Some (expiry_of tok)) as Hs by eauto.
    apply expiry_readable_spec in Hs. congruence. }
  assert (heap w3 !! bad = Some tok) as Hbad3.
  { by rewrite Hh, decide_False. }
  exists w3. split_and!.
  - unfold TokenAnalyzer.analyze_all_tokens.
    erewrite bind_run by reflexivity. rewrite Htd.
    erewrite bind_run by reflexivity. rewrite Hadd.
    erewrite bind_run by reflexivity.
    erewrite bind_run by reflexivity.
    rewrite for_each_app_state. fold r0.
    change (World (heap w) (clock w) (S (S (ticks w))) (stdout w)
                  (gitlab w) (outbox w)) with w2.
    change (clock w (ticks w) + d * usec_per_day) with (threshold_date_of w d).
    change (clock w (S (ticks w))) with (current_date_of w).
    rewrite (bind_run _ _ _ _ _ Hrun). simpl.
    by rewrite (bind_raise _ _ _ _ _
                  (analyze_token_unreadable _ _ _ _ _ _ Hbad3 Hnone)).
  - intros l Hl. destruct (tokens_ok_elem _ _ _ Hok Hl) as (d0 & e & Hd0 & He).
    unfold field. rewrite Hh, decide_True, Hd0 by done. simpl.
    unfold stamp. rewrite He. rewrite lookup_insert_eq. by eexists.
  - intros l Hl. by rewrite Hh, decide_False.
  - done.
Qed.

End AnalyzerFacts.

Section AnalyzerInvariants.
Context {parser : IsoParser}.

(** X9: after a call that returns, the [status] of an input token tells
    its bucket: "Expired" the expired bucket, "Expiring Soon" the
    expiring_soon bucket, "No Expiration" the no_expiration bucket, and
    "Healthy" or "Error" the healthy bucket. *)
Theorem status_names_bucket tokens d w a w' l :
  TokenAnalyzer.analyze_all_tokens tokens d w = (Ret a, w') →
  l ∈ tokens →
  (l ∈ expired a ↔ field w' l "status" = Some (PStr "Expired")) ∧
  (l ∈ expiring_soon a ↔ field w' l "status" = Some (PStr "Expiring Soon")) ∧
  (l ∈ healthy a ↔
     field w' l "status" = Some (PStr "Healthy") ∨
     field w' l "status" = Some (PStr "Error")) ∧
  (l ∈ no_expiration a ↔ field w' l "status" = Some (PStr "No Expiration")).
Proof.
  intros Hrun Hl. apply analyze_all_tokens_inv in Hrun as (_ & Hok & Ha).
  destruct (tokens_ok_elem _ _ _ Hok Hl) as (d0 & e & Hd0 & He).
  destruct (analysed_field _ _ _ _ _ _ _ _ _ Ha Hl Hd0 He) as [-> _].
  destruct (analysed_category _ _ _ _ _ _ _ _ _ Ha Hl Hd0 He) as [Hin Huniq].
  assert (∀ c, l ∈ bucket c a ↔
               c = category_of (threshold_date_of w d) (current_date_of w) e)
    as Hiff.
  { intros c. split; [apply Huniq|by intros ->]. }
  pose proof (Hiff Expired) as H1. pose proof (Hiff ExpiringSoon) as H2.
  pose proof (Hiff Healthy) as H3. pose proof (Hiff NoExpiration) as H4.
  simpl in H1, H2, H3, H4. rewrite H1, H2, H3, H4.
  destruct e as [| |t]; simpl.
  - intuition congruence.
  - intuition congruence.
  - destruct (t <=? current_date_of w); [intuition congruence|].
    destruct (t <=? threshold_date_of w d); intuition congruence.
Qed.

(** X10: at one evaluation instant, [days_until_expiry] is at most 0 for a
    token of the expired bucket, between 0 and the threshold for one of the
    expiring_soon bucket, and at least 0 and at least the threshold for a
    token of the healthy bucket whose date parsed. *)
Theorem days_until_expiry_by_bucket tokens d w now a w' l :
  TokenAnalyzer.analyze_all_tokens tokens d w = (Ret a, w') →
  frozen w now →
  l ∈ tokens →
  (l ∈ expired a →
     ∃ n, field w' l "days_until_expiry" = Some (PInt n) ∧ n <= 0) ∧
  (l ∈ expiring_soon a →
     ∃ n, field w' l "days_until_expiry" = Some (PInt n) ∧ 0 <= n <= d) ∧
  (l ∈ healthy a → field w' l "status" = Some (PStr "Healthy") →
     ∃ n, field w' l "days_until_expiry" = Some (PInt n) ∧ 0 <= n ∧ d <= n).
Proof.
  intros Hrun Hnow Hl. apply analyze_all_tokens_inv in Hrun as (_ & Hok & Ha).
  unfold threshold_date_of, current_date_of in Ha.
  rewrite (Hnow (ticks w)), (Hnow (S (ticks w))) in Ha.
  destruct (tokens_ok_elem _ _ _ Hok Hl) as (d0 & e & Hd0 & He).
  destruct (analysed_field _ _ _ _ _ _ _ _ _ Ha Hl Hd0 He) as [-> ->].
  destruct (analysed_category _ _ _ _ _ _ _ _ _ Ha Hl Hd0 He) as [_ Huniq].
  pose proof (Huniq Expired) as H1. pose proof (Huniq ExpiringSoon) as H2.
  pose proof (Huniq Healthy) as H3. simpl in H1, H2, H3.
  destruct e as [| |t]; simpl in *; unfold usec_per_day in *.
  - split_and!; intros Hin; try intros Hst;
      first [by apply H1 in Hin | by apply H2 in Hin | done].
  - split_and!; intros Hin; try intros Hst;
      first [by apply H1 in Hin | by apply H2 in Hin | done].
  - pose proof (Z.div_mod (t - now) 86400000000 ltac:(done)).
    pose proof (Z.mod_pos_bound (t - now) 86400000000 ltac:(done)).
    destruct (Z.leb_spec t now);
      [|destruct (Z.leb_spec t (now + d * 86400000000))];
      split_and!; intros Hin; try intros Hst;
      first [by apply H1 in Hin | by apply H2 in Hin | by apply H3 in Hin
            | eexists; split; [reflexivity|lia] ].
Qed.

Lemma category_at_after thr cur (tokens : list loc) (h h' : gmap loc pydict) :
  (∀ l, h' !! l = if decide (l ∈ tokens) then stamp thr cur <$> h !! l
                  else h !! l) →
  ∀ l, category_at thr cur h' l = category_at thr cur h l.
Proof.
  intros Hh l. unfold category_at. rewrite Hh.
  destruct (decide (l ∈ tokens)); [|done].
  destruct (h !! l) as [d0|]; [|done]. simpl. by rewrite expiry_of_stamp.
Qed.

Lemma tokens_ok_after thr cur (tokens ts : list loc) (h h' : gmap loc pydict) :
  (∀ l, h' !! l = if decide (l ∈ tokens) then stamp thr cur <$> h !! l
                  else h !! l) →
  tokens_ok h' ts = tokens_ok h ts.
Proof.
  intros Hh. induction ts as [|x rest IH]; [done|].
  simpl. fold (tokens_ok h' rest) (tokens_ok h rest). rewrite IH. f_equal.
  rewrite Hh. destruct (decide (x ∈ tokens)); [|done].
  destruct (h !! x) as [d0|]; [|done]. simpl.
  apply eq_true_iff_eq. rewrite !expiry_readable_spec.
  by rewrite expiry_of_stamp.
Qed.

(** X11: classification reads only [expires_at], which it never writes:
    at one evaluation instant a second call on the same tokens returns the
    same buckets and count and leaves every record as the first call left
    it. *)
Theorem analyze_all_tokens_again tokens d w now a w1 :
  frozen w now →
  TokenAnalyzer.analyze_all_tokens tokens d w = (Ret a, w1) →
  ∃ w2,
    TokenAnalyzer.analyze_all_tokens tokens d w1 = (Ret a, w2) ∧
    heap w2 = heap w1.
Proof.
  intros Hnow Hrun.
  apply analyze_all_tokens_inv in Hrun as (Hthr & Hok & Ha).
  destruct Ha as (Hb & Ht & Hi & Hh & Hc & Hk & Hg & Ho).
  assert (∀ k, clock w1 k = now) as Hnow1 by (intros k; by rewrite Hc).
  destruct (analyze_all_tokens_run tokens d w1) as (a2 & w2 & Hrun2 & Ha2).
  { by rewrite Hnow1, <- (Hnow (ticks w)). }
  { by rewrite (tokens_ok_after _ _ tokens tokens (heap w) (heap w1) Hh). }
  destruct Ha2 as (Hb2 & Ht2 & Hi2 & Hh2 & _).
  unfold threshold_date_of, current_date_of in *.
  rewrite !Hnow1 in *. rewrite !Hnow in *.
  exists w2. split.
  - rewrite Hrun2. do 2 f_equal.
    assert (∀ c, bucket c a2 = bucket c a) as Hsame.
    { intros c. rewrite Hb, Hb2. apply list_filter_iff. intros l.
      by rewrite (category_at_after _ _ tokens (heap w)). }
    pose proof (Hsame Expired) as H1. pose proof (Hsame ExpiringSoon) as H2.
    pose proof (Hsame Healthy) as H3. pose proof (Hsame NoExpiration) as H4.
    destruct a, a2. simpl in *. congruence.
  - apply map_eq. intros l. rewrite Hh2, Hh.
    destruct (decide (l ∈ tokens)); [|done].
    destruct (heap w !! l) as [d0|]; [|done]. simpl. by rewrite stamp_idemp.
Qed.

(** X12: the [total_count] of every result of [analyze_all_tokens] is the
    number of its records; merging keeps that, for one merge and for
    any sequence of merges; and for such an analysis the summary has
    [total_tokens] equal to the sum of its four counts and
    [problematic_count] between 0 and [total_tokens]. *)
Theorem summary_counts_add_up :
  (∀ tokens d w a w',
     TokenAnalyzer.analyze_all_tokens tokens d w = (Ret a, w') → counted a) ∧
  (∀ x y, counted x → counted y → counted (Monitor._merge_analysis x y)) ∧
  (∀ acc batches,
     counted acc → Forall counted batches → counted (merge_all acc batches)) ∧
  (∀ a, counted a →
     total_tokens (TokenAnalyzer.get_summary_stats a) =
       expired_count (TokenAnalyzer.get_summary_stats a)
       + expiring_count (TokenAnalyzer.get_summary_stats a)
       + healthy_count (TokenAnalyzer.get_summary_stats a)
       + permanent_count (TokenAnalyzer.get_summary_stats a) ∧
     0 <= problematic_count (TokenAnalyzer.get_summary_stats a)
       <= total_tokens (TokenAnalyzer.get_summary_stats a)).
Proof.
  assert (∀ x y, counted x → counted y → counted (Monitor._merge_analysis x y))
    as Hmerge.
  { intros x y Hx Hy. unfold counted, records, len in *. simpl.
    rewrite Hx, Hy, !length_app. lia. }
  split_and!.
  - intros tokens d w a w' Hrun.
    apply analyze_all_tokens_inv in Hrun as (_ & Hok & Ha).
    pose proof (analysed_records_perm _ _ _ _ _ _ Ha Hok) as Hperm.
    destruct Ha as (_ & Ht & _). unfold counted, len.
    by rewrite Ht, (Permutation_length Hperm).
  - done.
  - intros acc batches Hacc Hall. revert acc Hacc.
    induction Hall as [|b rest Hb _ IH]; intros acc Hacc; [done|].
    simpl. apply IH. by apply Hmerge.
  - intros a Ha. unfold counted, records in Ha. simpl.
    rewrite Ha. unfold len. rewrite !length_app. lia.
Qed.

End AnalyzerInvariants.

(** * The project and group loops *)

Lemma count_of_type_run ty (ls : list loc) w :
  (∀ t, t ∈ ls → is_Some (heap w !! t)) →
  Monitor.count_of_type ty ls w =
  (Ret (len (filter (λ t, has_type ty w t = true) ls)), w).
Proof.
  intros Hall. unfold Monitor.count_of_type.
  erewrite bind_run; [reflexivity|].
  rewrite (for_each_select _ (has_type ty w) ls w); [done|].
  intros t acc Ht. destruct (Hall t Ht) as [d Hd]. unfold has_type.
  rewrite (bind_run _ _ _ _ _ (dict_get_run _ _ _ _ d Hd)).
  rewrite <- (field_get w t _ d Hd).
  by destruct (eq_str (default PNone (d !! "token_type")) ty).
Qed.

Lemma bucket_empty c : bucket c empty_analysis = [].
Proof. by destruct c. Qed.

Lemma elem_of_records a l : l ∈ records a ↔ ∃ c, l ∈ bucket c a.
Proof.
  unfold records. rewrite !elem_of_app. split.
  - intros [H|[H|[H|H]]];
      [by exists Expired|by exists ExpiringSoon|by exists Healthy
      |by exists NoExpiration].
  - intros [[] H]; simpl in H; tauto.
Qed.

Lemma counted_merge x y :
  counted x → counted y → counted (Monitor._merge_analysis x y).
Proof.
  intros Hx Hy. unfold counted, records, len in *. simpl.
  rewrite Hx, Hy, !length_app. lia.
Qed.

Lemma scope_rounds_refl ty w st : scope_rounds ty w st w st.
Proof.
  exists empty_analysis. split_and!; try done.
  - intros c. by rewrite bucket_empty, app_nil_r.
  - simpl. lia.
  - simpl. lia.
  - by intros l ?%elem_of_nil.
Qed.

Lemma scope_rounds_trans ty w st w1 st1 w2 st2 :
  scope_rounds ty w st w1 st1 → scope_rounds ty w1 st1 w2 st2 →
  scope_rounds ty w st w2 st2.
Proof.
  intros (a1 & Hb1 & Ht1 & Hi1 & Hn1 & Hc1 & Hr1 & Hf1 & Hg1 & Ho1)
         (a2 & Hb2 & Ht2 & Hi2 & Hn2 & Hc2 & Hr2 & Hf2 & Hg2 & Ho2).
  exists (Monitor._merge_analysis a1 a2). split_and!.
  - intros c. by rewrite Hb2, Hb1, bucket_merge, app_assoc.
  - simpl. lia.
  - congruence.
  - simpl. lia.
  - by apply counted_merge.
  - intros l [c Hl]%elem_of_records. rewrite bucket_merge in Hl.
    apply elem_of_app in Hl as [Hl|Hl].
    + destruct (Hr1 l) as (Hnone & Hty & Hst); [apply elem_of_records; eauto|].
      split; [done|]. unfold field in *.
      destruct (heap w1 !! l) as [d|] eqn:Hd; [|done].
      by rewrite (Hf2 _ _ Hd).
    + destruct (Hr2 l) as (Hnone & Hty & Hst); [apply elem_of_records; eauto|].
      split; [|done]. destruct (heap w !! l) as [d|] eqn:Hd; [|done].
      by rewrite (Hf1 _ _ Hd) in Hnone.
  - intros l d Hd. eauto.
  - congruence.
  - congruence.
Qed.

Lemma for_each_scope_rounds {A} ty
    (body : A → analysis * Z → M (analysis * Z)) xs :
  (∀ x st w st' w', body x st w = (Ret st', w') → scope_rounds ty w st w' st') →
  ∀ st w st' w',
    for_each xs body st w = (Ret st', w') → scope_rounds ty w st w' st'.
Proof.
  intros Hbody. induction xs as [|x rest IH]; intros st w st' w' Hrun.
  - injection Hrun as <- <-. apply scope_rounds_refl.
  - simpl in Hrun. destruct (body x st w) as [[st1|e] w1] eqn:Hx.
    + rewrite (bind_run _ _ _ _ _ Hx) in Hrun.
      eapply scope_rounds_trans; eauto.
    + by rewrite (bind_raise _ _ _ _ _ Hx) in Hrun.
Qed.

(** The fetchers of the two scopes give every record they return its
    [token_type]. *)
Lemma fetch_and_tag_typed answer ty k2 v2 (handler : exn → M (list loc)) w :
  k2 ≠ "token_type" →
  (∀ e w0, ∃ line, handler e w0 = (Ret [], printed line w0)) →
  ∃ ls w1,
    try_except
      (let* tokens := GitLabAPI.requests_get_json answer in
       for_each tokens (λ token (_ : unit),
         dict_setitem token "token_type" (PStr ty) ;;
         dict_setitem token k2 v2) tt ;;
       ret tokens)
      (GitLabAPI.except_RequestException handler) w = (Ret ls, w1) ∧
    fresh_batch ls w w1 ∧ gitlab w1 = gitlab w ∧ outbox w1 = outbox w ∧
    ticks w1 = ticks w ∧ clock w1 = clock w ∧
    (∀ l, l ∈ ls → field w1 l "token_type" = Some (PStr ty)) ∧
    (∀ l, l ∈ ls → ∃ o, answer (gitlab w) = Some o ∧
                       ∃ d, d ∈ o ∧
                            heap w1 !! l = Some (tag "token_type" (PStr ty) k2 v2 d)) ∧
    (length ls = length (default [] (answer (gitlab w)))).
Proof.
  intros Hk Hhandler.
  destruct (answer (gitlab w)) as [objects|] eqn:Hans.
  - destruct (fetch_and_tag_success answer "token_type" (PStr ty) k2 v2 handler
                w objects Hans)
      as (ls & w1 & Hrun & Hfresh & Hs & _ & Hall).
    destruct Hs as (Hc & Ht & _ & Hg & Ho).
    exists ls, w1. split_and!; try done.
    + intros l Hl. destruct (Forall2_elem_of_l _ _ _ _ Hall Hl) as [d Hd].
      unfold field, tag in *. rewrite Hd.
      by rewrite lookup_insert_ne, lookup_insert_eq.
    + intros l Hl. exists objects. split; [done|].
      clear -Hall Hl. induction Hall as [|l' d' ls' ds Hl' Hrest IH].
      * by apply elem_of_nil in Hl.
      * apply elem_of_cons in Hl as [->|Hl].
        -- exists d'. split; [by left|done].
        -- destruct (IH Hl) as (d & Hd & Hh). exists d. split; [by right|done].
    + simpl. by apply Forall2_length in Hall.
  - destruct (Hhandler RequestException w) as [line Hline].
    exists [], (printed line w). split_and!; try done.
    + rewrite (fetch_and_tag_failure (ret []) answer) by done. exact Hline.
    + split; [by intros ? ?%elem_of_nil|done].
    + by intros ? ?%elem_of_nil.
    + by intros ? ?%elem_of_nil.
Qed.

Lemma add_project_info_inv project a w2 w3 :
  (∀ l, l ∈ records a → is_Some (heap w2 !! l)) →
  Monitor.add_project_info project a w2 = (Ret tt, w3) →
  (∀ l key, key ≠ "project_name" → key ≠ "project_path" →
            field w3 l key = field w2 l key) ∧
  (∀ l, l ∉ records a → heap w3 !! l = heap w2 !! l) ∧
  same_but_heap w2 w3.
Proof.
  intros Hall Hrun.
  destruct (project !! "name") as [name|] eqn:Hname.
  - destruct (add_project_info_run project a w2 name Hname Hall)
      as (w' & Hrun' & Hh & Hs).
    rewrite Hrun in Hrun'. injection Hrun' as <-.
    split_and!; [| |done].
    + intros l key H1 H2. unfold field. rewrite Hh.
      destruct (decide (l ∈ records a)); [|done].
      destruct (heap w2 !! l); [|done]. simpl. unfold tag.
      by rewrite !lookup_insert_ne.
    + intros l Hl. by rewrite Hh, decide_False.
  - destruct (records a) as [|l1 rest] eqn:Hrecs.
    + unfold Monitor.add_project_info in Hrun.
      rewrite for_each_concat, concat_categories, Hrecs in Hrun.
      injection Hrun as <-. by split_and!.
    + destruct (Hall l1) as [d1 Hd1]; [by left|].
      rewrite (add_project_info_nameless project a w2 l1 d1 Hname
                 ltac:(by rewrite Hrecs) Hd1) in Hrun.
      done.
Qed.

Lemma add_group_info_inv group a w2 w3 :
  (∀ l, l ∈ records a → is_Some (heap w2 !! l)) →
  Monitor.add_group_info group a w2 = (Ret tt, w3) →
  (∀ l key, key ≠ "group_name" → key ≠ "group_path" →
            field w3 l key = field w2 l key) ∧
  (∀ l, l ∉ records a → heap w3 !! l = heap w2 !! l) ∧
  same_but_heap w2 w3.
Proof.
  intros Hall Hrun.
  destruct (group !! "name") as [name|] eqn:Hname.
  - destruct (add_group_info_run group a w2 name Hname Hall)
      as (w' & Hrun' & Hh & Hs).
    rewrite Hrun in Hrun'. injection Hrun' as <-.
    split_and!; [| |done].
    + intros l key H1 H2. unfold field. rewrite Hh.
      destruct (decide (l ∈ records a)); [|done].
      destruct (heap w2 !! l); [|done]. simpl. unfold tag.
      by rewrite !lookup_insert_ne.
    + intros l Hl. by rewrite Hh, decide_False.
  - destruct (records a) as [|l1 rest] eqn:Hrecs.
    + unfold Monitor.add_group_info in Hrun.
      rewrite for_each_concat, concat_categories, Hrecs in Hrun.
      injection Hrun as <-. by split_and!.
    + destruct (Hall l1) as [d1 Hd1]; [by left|].
      rewrite (add_group_info_nameless group a w2 l1 d1 Hname
                 ltac:(by rewrite Hrecs) Hd1) in Hrun.
      done.
Qed.

Section Rounds.
Context {parser : IsoParser}.

(** One round of either loop, after the id has been read. *)
Lemma scope_round_run ty (fetch : M (list loc)) (add_info : analysis → M unit)
    k1 k2 d acc n w st' w' :
  k1 ≠ "token_type" → k2 ≠ "token_type" → k1 ≠ "status" → k2 ≠ "status" →
  (∃ ls w1, fetch w = (Ret ls, w1) ∧ fresh_batch ls w w1 ∧
            gitlab w1 = gitlab w ∧ outbox w1 = outbox w ∧
            ∀ l, l ∈ ls → field w1 l "token_type" = Some (PStr ty)) →
  (∀ a w2 w3, (∀ l, l ∈ records a → is_Some (heap w2 !! l)) →
     add_info a w2 = (Ret tt, w3) →
     (∀ l key, key ≠ k1 → key ≠ k2 → field w3 l key = field w2 l key) ∧
     (∀ l, l ∉ records a → heap w3 !! l = heap w2 !! l) ∧
     same_but_heap w2 w3) →
  (let* tokens := fetch in
   match tokens with
   | [] => ret (acc, n)
   | _ :: _ =>
       let* a := TokenAnalyzer.analyze_all_tokens tokens d in
       add_info a ;;
       ret (Monitor._merge_analysis acc a, n + total_count a)
   end) w = (Ret st', w') →
  scope_rounds ty w (acc, n) w' st'.
Proof.
  intros Hk1 Hk2 Hk3 Hk4 (ls & w1 & Hfetch & [Hnew Hold] & Hg1 & Ho1 & Hty)
         Hadd Hrun.
  rewrite (bind_run _ _ _ _ _ Hfetch) in Hrun.
  destruct ls as [|l0 rest].
  { injection Hrun as <- <-. exists empty_analysis. split_and!; try done.
    - intros c. by rewrite bucket_empty, app_nil_r.
    - simpl. lia.
    - simpl. lia.
    - by intros l ?%elem_of_nil.
    - intros l d0 Hd0. rewrite Hold; [done|]. by intros ?%elem_of_nil. }
  destruct (TokenAnalyzer.analyze_all_tokens (l0 :: rest) d w1)
    as [[a|e] w2] eqn:Han; cycle 1.
  { by rewrite (bind_raise _ _ _ _ _ Han) in Hrun. }
  rewrite (bind_run _ _ _ _ _ Han) in Hrun.
  destruct (add_info a w2) as [[[]|e] w3] eqn:Hinfo; cycle 1.
  { by rewrite (bind_raise _ _ _ _ _ Hinfo) in Hrun. }
  rewrite (bind_run _ _ _ _ _ Hinfo) in Hrun. injection Hrun as <- <-.
  pose proof Han as Hinv. apply analyze_all_tokens_inv in Hinv as (_ & Hok & Ha).
  pose proof (analysed_records_perm _ _ _ _ _ _ Ha Hok) as Hperm.
  destruct (analyze_all_tokens_frame _ _ _ _ _ Han) as (Hout & Hin & Hrec).
  destruct (Hadd a w2 w3) as (Hkeep & Hframe3 & Hs3); [|done|].
  { intros l Hl. by apply Hin, Hrec. }
  destruct Hs3 as (_ & _ & _ & Hg3 & Ho3).
  pose proof Ha as (_ & Htot & _ & Hh & _ & _ & Hg2 & Ho2).
  exists a. split_and!.
  - intros c. apply bucket_merge.
  - done.
  - done.
  - done.
  - unfold counted. rewrite Htot. unfold len.
    by rewrite (Permutation_length Hperm).
  - intros l Hl. apply Hrec in Hl. destruct (Hnew l Hl) as [Hnone _].
    destruct (tokens_ok_elem _ _ _ Hok Hl) as (d0 & e & Hd0 & He).
    split_and!; [done| |].
    + rewrite Hkeep by done. rewrite <- (Hty l Hl). unfold field.
      rewrite (analysed_heap _ _ _ _ _ _ _ _ Ha Hl Hd0), Hd0.
      by apply stamp_lookup_other.
    + rewrite Hkeep by done.
      destruct (analysed_field _ _ _ _ _ _ _ _ _ Ha Hl Hd0 He) as [-> _].
      by eexists.
  - intros l d0 Hd0.
    assert (l ∉ l0 :: rest) as Hnotin.
    { intros Hl. destruct (Hnew l Hl). congruence. }
    rewrite Hframe3 by (by rewrite Hrec). rewrite Hout by done.
    by rewrite Hold.
  - congruence.
  - congruence.
Qed.

Lemma get_project_access_tokens_typed project_id w :
  ∃ ls w1,
    GitLabAPI.get_project_access_tokens project_id w = (Ret ls, w1) ∧
    fresh_batch ls w w1 ∧ gitlab w1 = gitlab w ∧ outbox w1 = outbox w ∧
    ∀ l, l ∈ ls → field w1 l "token_type" = Some (PStr "project").
Proof.
  destruct (fetch_and_tag_typed (λ s, project_access_tokens s project_id)
              "project" "project_id" project_id
              (λ e, print [Lit "Error fetching project access tokens for project ";
                           Val project_id; Lit ": "; Exc e] ;; ret []) w)
    as (ls & w1 & Hrun & Hf & Hg & Ho & _ & _ & Hty & _); [done| |].
  { intros e w0. by eexists. }
  by exists ls, w1.
Qed.

Lemma get_group_access_tokens_typed group_id w :
  ∃ ls w1,
    GitLabAPI.get_group_access_tokens group_id w = (Ret ls, w1) ∧
    fresh_batch ls w w1 ∧ gitlab w1 = gitlab w ∧ outbox w1 = outbox w ∧
    ∀ l, l ∈ ls → field w1 l "token_type" = Some (PStr "group").
Proof.
  destruct (fetch_and_tag_typed (λ s, group_access_tokens s group_id)
              "group" "group_id" group_id
              (λ e, print [Lit "Error fetching group access tokens for group ";
                           Val group_id; Lit ": "; Exc e] ;; ret []) w)
    as (ls & w1 & Hrun & Hf & Hg & Ho & _ & _ & Hty & _); [done| |].
  { intros e w0. by eexists. }
  by exists ls, w1.
Qed.

Lemma process_project_round cfg project st w st' w' :
  Monitor.process_project cfg project st w = (Ret st', w') →
  scope_rounds "project" w st w' st'.
Proof.
  destruct st as [acc n]. unfold Monitor.process_project, getitem. intros Hrun.
  destruct (project !! "id") as [pid|]; [|done].
  erewrite bind_run in Hrun by reflexivity.
  eapply (scope_round_run "project" _ _ "project_name" "project_path");
    [done..| | |exact Hrun].
  - apply get_project_access_tokens_typed.
  - intros a w2 w3. apply add_project_info_inv.
Qed.

Lemma process_group_round cfg group st w st' w' :
  Monitor.process_group cfg group st w = (Ret st', w') →
  scope_rounds "group" w st w' st'.
Proof.
  destruct st as [acc n]. unfold Monitor.process_group, getitem. intros Hrun.
  destruct (group !! "id") as [gid|]; [|done].
  erewrite bind_run in Hrun by reflexivity.
  eapply (scope_round_run "group" _ _ "group_name" "group_path");
    [done..| | |exact Hrun].
  - apply get_group_access_tokens_typed.
  - intros a w2 w3. apply add_group_info_inv.
Qed.

(** The four counts at the end of [_process_project_tokens] and
    [_process_group_tokens]. *)
Lemma scope_counts ty w st w1 st1 c :
  scope_rounds ty w st w1 st1 →
  (∀ l, l ∈ records st.1 → is_Some (heap w !! l)) →
  Monitor.count_of_type ty (bucket c st1.1) w1 =
  (Ret (len (filter (λ l, has_type ty w l = true) (bucket c st.1))
        + (len (bucket c st1.1) - len (bucket c st.1))), w1).
Proof.
  intros (a & Hb & _ & _ & _ & _ & Hr & Hf & _) Hall.
  rewrite count_of_type_run; cycle 1.
  { intros l Hl. rewrite Hb in Hl. apply elem_of_app in Hl as [Hl|Hl].
    - destruct (Hall l) as [d0 Hd0]; [apply elem_of_records; eauto|].
      rewrite (Hf _ _ Hd0). by eexists.
    - destruct (Hr l) as (_ & Hty & _); [apply elem_of_records; eauto|].
      unfold field in Hty. destruct (heap w1 !! l); [by eexists|done]. }
  do 2 f_equal. rewrite Hb, filter_app. unfold len.
  rewrite !length_app.
  rewrite (filter_all _ (bucket c a)); cycle 1.
  { intros l Hl. destruct (Hr l) as (_ & Hty & _); [apply elem_of_records; eauto|].
    by apply has_type_field. }
  rewrite (filter_ext_elem _ (λ l, has_type ty w l = true) (bucket c st.1)).
  { lia. }
  intros l Hl. unfold has_type, field.
  destruct (Hall l) as [d0 Hd0]; [apply elem_of_records; eauto|].
  by rewrite Hd0, (Hf _ _ Hd0).
Qed.

End Rounds.

Section ScopeLoops.
Context {parser : IsoParser}.

Lemma records_length a :
  len (records a) =
  len (expired a) + len (expiring_soon a) + len (healthy a)
  + len (no_expiration a).
Proof. unfold records, len. rewrite !length_app. lia. Qed.

(** What the statistics of a scope say, given what its loop left. *)
Lemma scope_rounds_statistics ty w acc w1 acc1 n1 stats :
  scope_rounds ty w (acc, 0) w1 (acc1, n1) →
  total stats = n1 →
  (∀ c, count_in c stats =
        len (of_type ty w (bucket c acc))
        + (len (bucket c acc1) - len (bucket c acc))) →
  total stats = total_count acc1 - total_count acc ∧
  total stats = len (records acc1) - len (records acc) ∧
  ((∀ l, l ∈ records acc → field w l "token_type" ≠ Some (PStr ty)) →
   total stats = expired_of_scope stats + expiring stats
                 + healthy_of_scope stats + permanent stats) ∧
  (counted acc → counted acc1) ∧
  (∀ c, bucket c acc `prefix_of` bucket c acc1) ∧
  (∀ c l, l ∈ bucket c acc1 → (l ∉ bucket c acc) →
          heap w !! l = None ∧ field w1 l "token_type" = Some (PStr ty)) ∧
  include_all_tokens acc1 = include_all_tokens acc ∧
  (∀ l d, heap w !! l = Some d → heap w1 !! l = Some d) ∧
  outbox w1 = outbox w.
Proof.
  intros (a & Hb & Ht & Hi & Hn & Hc & Hr & Hf & Hg & Ho) Htotal Hcount.
  simpl in Hb, Ht, Hi, Hn.
  pose proof (Hb Expired) as H1. pose proof (Hb ExpiringSoon) as H2.
  pose proof (Hb Healthy) as H3. pose proof (Hb NoExpiration) as H4.
  simpl in H1, H2, H3, H4.
  assert (len (records acc1) = len (records acc) + total_count a) as Hlen.
  { rewrite Hc, !records_length, H1, H2, H3, H4. unfold len.
    rewrite !length_app. lia. }
  split_and!.
  - lia.
  - lia.
  - intros Hnone.
    assert (∀ c, of_type ty w (bucket c acc) = []) as Hold.
    { intros c. apply filter_none. intros l Hl Hty.
      apply has_type_field in Hty. apply (Hnone l); [|done].
      apply elem_of_records. eauto. }
    pose proof (Hcount Expired) as C1. pose proof (Hcount ExpiringSoon) as C2.
    pose proof (Hcount Healthy) as C3. pose proof (Hcount NoExpiration) as C4.
    rewrite Hold in C1, C2, C3, C4. simpl in C1, C2, C3, C4.
    rewrite !records_length in Hlen. unfold len in *. simpl in *. lia.
  - unfold counted. intros Hacc. lia.
  - intros c. rewrite Hb. by apply prefix_app_r.
  - intros c l Hl Hnew. rewrite Hb in Hl. apply elem_of_app in Hl as [Hl|Hl]; [done|].
    destruct (Hr l) as (Hnone & Hty & _); [apply elem_of_records; eauto|done].
  - done.
  - done.
  - done.
Qed.


(** A round that finds tokens and then no name for them. *)
Lemma scope_round_raises ty k2 v2 answer (handler : exn → M (list loc))
    (add_info : analysis → M unit) d acc n w o objects e :
  k2 ≠ "token_type" → k2 ≠ "expires_at" →
  (∀ e w0, ∃ line, handler e w0 = (Ret [], printed line w0)) →
  answer (gitlab w) = Some (o :: objects) →
  threshold_representable (clock w (ticks w)) d →
  Forall (λ o, expiry_readable o = true) (o :: objects) →
  (∀ a w2 l d0, records a !! 0%nat = Some l → heap w2 !! l = Some d0 →
                add_info a w2 = (Raise e, w2)) →
  ∃ w',
    (let* tokens :=
       try_except
         (let* tokens := GitLabAPI.requests_get_json answer in
          for_each tokens (λ token (_ : unit),
            dict_setitem token "token_type" (PStr ty) ;;
            dict_setitem token k2 v2) tt ;;
          ret tokens)
         (GitLabAPI.except_RequestException handler) in
     match tokens with
     | [] => ret (acc, n)
     | _ :: _ =>
         let* a := TokenAnalyzer.analyze_all_tokens tokens d in
         add_info a ;;
         ret (Monitor._merge_analysis acc a, n + total_count a)
     end) w = (Raise e, w') ∧
    ticks w' = S (S (ticks w)) ∧ outbox w' = outbox w ∧
    (∀ l d0, heap w !! l = Some d0 → heap w' !! l = Some d0) ∧
    (∃ l, heap w !! l = None ∧ is_Some (field w' l "status")).
Proof.
  intros Hk Hk' Hhandler Hans Hthr Hread Hraise.
  destruct (fetch_and_tag_typed answer ty k2 v2 handler w Hk Hhandler)
    as (ls & w1 & Hfetch & [Hnew Hold] & Hg1 & Ho1 & Ht1 & Hc1 & Hty & Hobj & Hlen).
  rewrite Hans in Hlen. simpl in Hlen.
  destruct ls as [|l0 rest]; [done|].
  assert (tokens_ok (heap w1) (l0 :: rest) = true) as Hok.
  { apply tokens_ok_spec. intros l Hl.
    destruct (Hobj l Hl) as (os & Hos & d0 & Hd0 & Hh).
    rewrite Hans in Hos. injection Hos as <-.
    eexists. split; [exact Hh|]. apply expiry_readable_spec.
    rewrite expiry_readable_tag by done.
    rewrite Forall_forall in Hread. by apply Hread. }
  destruct (analyze_all_tokens_run (l0 :: rest) d w1) as (a & w2 & Han & Ha);
    [by rewrite Ht1, Hc1|done|].
  pose proof (analysed_records_perm _ _ _ _ _ _ Ha Hok) as Hperm.
  destruct (analyze_all_tokens_frame _ _ _ _ _ Han) as (Hout & Hin & Hrec).
  destruct (records a) as [|l1 rest1] eqn:Hrecs.
  { by apply Permutation_nil_cons in Hperm. }
  assert (l1 ∈ l0 :: rest) as Hl1 by (apply Hrec; by left).
  destruct (Hin l1 Hl1) as [d1 Hd1].
  pose proof Ha as (_ & _ & _ & _ & _ & Ht2 & _ & Ho2).
  exists w2. split_and!.
  - rewrite (bind_run _ _ _ _ _ Hfetch), (bind_run _ _ _ _ _ Han).
    erewrite bind_raise; [done|].
    eapply Hraise; [by rewrite Hrecs|done].
  - congruence.
  - congruence.
  - intros l d0 Hd0.
    assert (l ∉ l0 :: rest) as Hnotin.
    { intros Hl. destruct (Hnew l Hl). congruence. }
    rewrite Hout by done. by rewrite Hold.
  - exists l1. destruct (Hnew l1 Hl1) as [Hnone _]. split; [done|].
    destruct (tokens_ok_elem _ _ _ Hok Hl1) as (d0 & e0 & Hd0 & He0).
    destruct (analysed_field _ _ _ _ _ _ _ _ _ Ha Hl1 Hd0 He0) as [-> _].
    by eexists.
Qed.

(** X14: a project or group without an [id] makes the round raise
    [KeyError] before any request; one without a [name] makes it raise
    [KeyError] once its tokens have been fetched and analysed: the clock has
    been read twice, the new records have their status, and the accumulator
    has not been updated.  Tokens found for a nameless scope end the run. *)
Theorem scope_missing_key_raises cfg acc n w :
  (∀ scope, scope !! "id" = None →
     Monitor.process_project cfg scope (acc, n) w = (Raise (KeyError "id"), w) ∧
     Monitor.process_group cfg scope (acc, n) w = (Raise (KeyError "id"), w)) ∧
  (∀ project pid o objects,
     project !! "id" = Some pid → project !! "name" = None →
     project_access_tokens (gitlab w) pid = Some (o :: objects) →
     threshold_representable (clock w (ticks w)) (days_threshold cfg) →
     Forall (λ o, expiry_readable o = true) (o :: objects) →
     ∃ w',
       Monitor.process_project cfg project (acc, n) w =
         (Raise (KeyError "name"), w') ∧
       ticks w' = S (S (ticks w)) ∧ outbox w' = outbox w ∧
       (∀ l d0, heap w !! l = Some d0 → heap w' !! l = Some d0) ∧
       (∃ l, heap w !! l = None ∧ is_Some (field w' l "status"))) ∧
  (∀ group gid o objects,
     group !! "id" = Some gid → group !! "name" = None →
     group_access_tokens (gitlab w) gid = Some (o :: objects) →
     threshold_representable (clock w (ticks w)) (days_threshold cfg) →
     Forall (λ o, expiry_readable o = true) (o :: objects) →
     ∃ w',
       Monitor.process_group cfg group (acc, n) w =
         (Raise (KeyError "name"), w') ∧
       ticks w' = S (S (ticks w)) ∧ outbox w' = outbox w ∧
       (∀ l d0, heap w !! l = Some d0 → heap w' !! l = Some d0) ∧
       (∃ l, heap w !! l = None ∧ is_Some (field w' l "status"))).
Proof.
  split_and!.
  - intros scope Hid.
    unfold Monitor.process_project, Monitor.process_group, getitem.
    by rewrite Hid.
  - intros project pid o objects Hid Hname Hans Hthr Hread.
    unfold Monitor.process_project, getitem. rewrite Hid.
    destruct (scope_round_raises "project" "project_id" pid
                (λ s, project_access_tokens s pid)
                (λ e, print [Lit "Error fetching project access tokens for project ";
                             Val pid; Lit ": "; Exc e] ;; ret [])
                (Monitor.add_project_info project)
                (days_threshold cfg) acc n w o objects (KeyError "name"))
      as (w' & Hrun & Hrest); try done.
    { intros e w0. by eexists. }
    { intros a w2 l d0. by apply add_project_info_nameless. }
    exists w'. split; [|done].
    erewrite bind_run by reflexivity. exact Hrun.
  - intros group gid o objects Hid Hname Hans Hthr Hread.
    unfold Monitor.process_group, getitem. rewrite Hid.
    destruct (scope_round_raises "group" "group_id" gid
                (λ s, group_access_tokens s gid)
                (λ e, print [Lit "Error fetching group access tokens for group ";
                             Val gid; Lit ": "; Exc e] ;; ret [])
                (Monitor.add_group_info group)
                (days_threshold cfg) acc n w o objects (KeyError "name"))
      as (w' & Hrun & Hrest); try done.
    { intros e w0. by eexists. }
    { intros a w2 l d0. by apply add_group_info_nameless. }
    exists w'. split; [|done].
    erewrite bind_run by reflexivity. exact Hrun.
Qed.

End ScopeLoops.

Section ScopeStatistics.
Context {parser : IsoParser}.

Lemma project_pass cfg acc w acc' stats w' :
  (∀ l, l ∈ records acc → is_Some (heap w !! l)) →
  Monitor._process_project_tokens cfg acc w = (Ret (acc', stats), w') →
  scope_rounds "project" w (acc, 0) w' (acc', total stats) ∧
  (∀ c, count_in c stats =
        len (of_type "project" w (bucket c acc))
        + (len (bucket c acc') - len (bucket c acc))).
Proof.
  intros Hall Hrun. unfold Monitor._process_project_tokens in Hrun.
  erewrite bind_run in Hrun by reflexivity.
  erewrite bind_run in Hrun by reflexivity.
  set (w0 := printed [Lit "Fetching project access tokens..."] w) in *.
  destruct (for_each (all_projects (gitlab w0)) (Monitor.process_project cfg)
              (acc, 0) w0) as [[[acc1 n1]|e] w1] eqn:Hloop; cycle 1.
  { by rewrite (bind_raise _ _ _ _ _ Hloop) in Hrun. }
  rewrite (bind_run _ _ _ _ _ Hloop) in Hrun.
  apply (for_each_scope_rounds "project" _ _
           (λ x st w st' w', process_project_round cfg x st w st' w'))
    in Hloop.
  assert (∀ c, Monitor.count_of_type "project" (bucket c acc1) w1 =
               (Ret (len (of_type "project" w (bucket c acc))
                     + (len (bucket c acc1) - len (bucket c acc))), w1))
    as Hcount.
  { intros c. by apply (scope_counts "project" w0 (acc, 0) w1 (acc1, n1) c). }
  rewrite (bind_run _ _ _ _ _ (Hcount Expired)) in Hrun.
  rewrite (bind_run _ _ _ _ _ (Hcount ExpiringSoon)) in Hrun.
  rewrite (bind_run _ _ _ _ _ (Hcount Healthy)) in Hrun.
  rewrite (bind_run _ _ _ _ _ (Hcount NoExpiration)) in Hrun.
  injection Hrun as <- <- <-.
  split; [exact Hloop|by intros []].
Qed.

Lemma group_pass cfg acc w acc' stats w' :
  (∀ l, l ∈ records acc → is_Some (heap w !! l)) →
  Monitor._process_group_tokens cfg acc w = (Ret (acc', stats), w') →
  scope_rounds "group" w (acc, 0) w' (acc', total stats) ∧
  (∀ c, count_in c stats =
        len (of_type "group" w (bucket c acc))
        + (len (bucket c acc') - len (bucket c acc))).
Proof.
  intros Hall Hrun. unfold Monitor._process_group_tokens in Hrun.
  erewrite bind_run in Hrun by reflexivity.
  erewrite bind_run in Hrun by reflexivity.
  set (w0 := printed [Lit "Fetching group access tokens..."] w) in *.
  destruct (for_each (all_groups (gitlab w0)) (Monitor.process_group cfg)
              (acc, 0) w0) as [[[acc1 n1]|e] w1] eqn:Hloop; cycle 1.
  { by rewrite (bind_raise _ _ _ _ _ Hloop) in Hrun. }
  rewrite (bind_run _ _ _ _ _ Hloop) in Hrun.
  apply (for_each_scope_rounds "group" _ _
           (λ x st w st' w', process_group_round cfg x st w st' w'))
    in Hloop.
  assert (∀ c, Monitor.count_of_type "group" (bucket c acc1) w1 =
               (Ret (len (of_type "group" w (bucket c acc))
                     + (len (bucket c acc1) - len (bucket c acc))), w1))
    as Hcount.
  { intros c. by apply (scope_counts "group" w0 (acc, 0) w1 (acc1, n1) c). }
  rewrite (bind_run _ _ _ _ _ (Hcount Expired)) in Hrun.
  rewrite (bind_run _ _ _ _ _ (Hcount ExpiringSoon)) in Hrun.
  rewrite (bind_run _ _ _ _ _ (Hcount Healthy)) in Hrun.
  rewrite (bind_run _ _ _ _ _ (Hcount NoExpiration)) in Hrun.
  injection Hrun as <- <- <-.
  split; [exact Hloop|by intros []].
Qed.

(** X15: the statistics [_process_project_tokens] returns, on an
    accumulator whose records exist.  [total] is what the call added to
    [total_count], and the number of records it added; each count is the
    number of accumulator records of that bucket that already had the type
    "project" plus the number of records added to the bucket, so that the
    four counts sum to [total] when no record of the accumulator had the
    type on entry.  The buckets grow at their end, by records made during
    the call and typed "project"; older records are as they were and
    nothing is sent. *)
Theorem project_statistics cfg acc w acc' stats w' :
  (∀ l, l ∈ records acc → is_Some (heap w !! l)) →
  Monitor._process_project_tokens cfg acc w = (Ret (acc', stats), w') →
  (∀ c, count_in c stats =
        len (of_type "project" w (bucket c acc))
        + (len (bucket c acc') - len (bucket c acc))) ∧
  total stats = total_count acc' - total_count acc ∧
  total stats = len (records acc') - len (records acc) ∧
  ((∀ l, l ∈ records acc → field w l "token_type" ≠ Some (PStr "project")) →
   total stats = expired_of_scope stats + expiring stats
                 + healthy_of_scope stats + permanent stats) ∧
  (counted acc → counted acc') ∧
  (∀ c, bucket c acc `prefix_of` bucket c acc') ∧
  (∀ c l, l ∈ bucket c acc' → (l ∉ bucket c acc) →
          heap w !! l = None ∧ field w' l "token_type" = Some (PStr "project")) ∧
  include_all_tokens acc' = include_all_tokens acc ∧
  (∀ l d, heap w !! l = Some d → heap w' !! l = Some d) ∧
  outbox w' = outbox w.
Proof.
  intros Hall Hrun.
  destruct (project_pass _ _ _ _ _ _ Hall Hrun) as [Hrounds Hcount].
  split; [done|].
  by apply (scope_rounds_statistics "project" w acc w' acc' (total stats)).
Qed.

(** X16: the statistics [_process_group_tokens] returns, on an accumulator
    whose records exist.  [total] is what the call added to [total_count],
    and the number of records it added; each count is the number of
    accumulator records of that bucket that already had the type "group"
    plus the number of records added to the bucket, so that the four counts
    sum to [total] when no record of the accumulator had the type on entry.
    The buckets grow at their end, by records made during the call and typed
    "group"; older records are as they were and nothing is sent. *)
Theorem group_statistics cfg acc w acc' stats w' :
  (∀ l, l ∈ records acc → is_Some (heap w !! l)) →
  Monitor._process_group_tokens cfg acc w = (Ret (acc', stats), w') →
  (∀ c, count_in c stats =
        len (of_type "group" w (bucket c acc))
        + (len (bucket c acc') - len (bucket c acc))) ∧
  total stats = total_count acc' - total_count acc ∧
  total stats = len (records acc') - len (records acc) ∧
  ((∀ l, l ∈ records acc → field w l "token_type" ≠ Some (PStr "group")) →
   total stats = expired_of_scope stats + expiring stats
                 + healthy_of_scope stats + permanent stats) ∧
  (counted acc → counted acc') ∧
  (∀ c, bucket c acc `prefix_of` bucket c acc') ∧
  (∀ c l, l ∈ bucket c acc' → (l ∉ bucket c acc) →
          heap w !! l = None ∧ field w' l "token_type" = Some (PStr "group")) ∧
  include_all_tokens acc' = include_all_tokens acc ∧
  (∀ l d, heap w !! l = Some d → heap w' !! l = Some d) ∧
  outbox w' = outbox w.
Proof.
  intros Hall Hrun.
  destruct (group_pass _ _ _ _ _ _ Hall Hrun) as [Hrounds Hcount].
  split; [done|].
  by apply (scope_rounds_statistics "group" w acc w' acc' (total stats)).
Qed.

End ScopeStatistics.

(** * The whole run *)

Section WholeRun.
Context {parser : IsoParser}.

Lemma get_personal_access_tokens_run w :
  ∃ ls w1,
    GitLabAPI.get_personal_access_tokens w = (Ret ls, w1) ∧
    fresh_batch ls w w1 ∧ outbox w1 = outbox w.
Proof.
  unfold GitLabAPI.get_personal_access_tokens.
  destruct (personal_access_tokens (gitlab w)) as [objects|] eqn:Hans.
  - destruct (response_json_alloc objects w)
      as (ls & w1 & Hrun & Hfresh & Hs & _).
    exists ls, w1. split_and!; [|done|by destruct Hs as (_ & _ & _ & _ & ?)].
    apply try_except_run. unfold GitLabAPI.requests_get_json. by rewrite Hans.
  - eexists [], _. split_and!.
    + erewrite try_except_raise; cycle 1.
      { unfold GitLabAPI.requests_get_json. by rewrite Hans. }
      reflexivity.
    + split; [by intros ? ?%elem_of_nil|done].
    + done.
Qed.

Lemma gathered_rounds ty w0 a n w a1 n1 w1 :
  gathered w0 a w → scope_rounds ty w (a, n) w1 (a1, n1) → gathered w0 a1 w1.
Proof.
  intros (Hc & Hr & Hf & Ho) (b & Hb & Ht & _ & _ & Hcb & Hrb & Hfb & _ & Hob).
  simpl in Hb, Ht.
  pose proof (Hb Expired) as H1. pose proof (Hb ExpiringSoon) as H2.
  pose proof (Hb Healthy) as H3. pose proof (Hb NoExpiration) as H4.
  simpl in H1, H2, H3, H4.
  split_and!.
  - unfold counted in *. rewrite Ht, Hc, Hcb. unfold records, len.
    rewrite H1, H2, H3, H4, !length_app. lia.
  - intros l [c Hl]%elem_of_records. rewrite Hb in Hl.
    apply elem_of_app in Hl as [Hl|Hl].
    + destruct (Hr l) as [Hnone Hst]; [apply elem_of_records; eauto|].
      split; [done|]. unfold field in *.
      destruct (heap w !! l) as [d|] eqn:Hd; [|by destruct Hst].
      by rewrite (Hfb _ _ Hd).
    + destruct (Hrb l) as (Hnone & _ & Hst); [apply elem_of_records; eauto|].
      split; [|done]. destruct (heap w0 !! l) as [d|] eqn:Hd; [|done].
      by rewrite (Hf _ _ Hd) in Hnone.
  - intros l d Hd. eauto.
  - congruence.
Qed.

Lemma gathered_exist w0 a w l :
  gathered w0 a w → l ∈ records a → is_Some (heap w !! l).
Proof.
  intros (_ & Hr & _) Hl. destruct (Hr l Hl) as [_ [v Hv]].
  unfold field in Hv. destruct (heap w !! l); [by eexists|done].
Qed.

(** The report and the prints around it touch no record. *)
Lemma notify_keeps_heap cfg a w :
  heap (Monitor._print_summary_and_notify cfg a w).2 = heap w.
Proof.
  unfold Monitor._print_summary_and_notify, EmailReporter.send_notification.
  destruct (send_all_tokens cfg
            || (0 <? problematic_count (TokenAnalyzer.get_summary_stats a)));
    [|reflexivity].
  destruct (negb (default false
                    (include_all_tokens
                       (Monitor.with_include_all_tokens (send_all_tokens cfg) a)))
            && (problematic_count
                  (TokenAnalyzer.get_summary_stats
                     (Monitor.with_include_all_tokens (send_all_tokens cfg) a))
                =? 0));
    reflexivity.
Qed.

(** The personal tokens of a run. *)
Lemma personal_gathered d w ls w1 a w2 :
  fresh_batch ls w w1 → outbox w1 = outbox w →
  TokenAnalyzer.analyze_all_tokens ls d w1 = (Ret a, w2) →
  gathered w (Monitor._merge_analysis (Analysis [] [] [] [] 0 None) a) w2.
Proof.
  intros [Hnew Hold] Ho1 Han.
  pose proof Han as Hinv. apply analyze_all_tokens_inv in Hinv as (_ & Hok & Ha).
  pose proof (analysed_records_perm _ _ _ _ _ _ Ha Hok) as Hperm.
  destruct (analyze_all_tokens_frame _ _ _ _ _ Han) as (Hout & Hin & Hrec).
  pose proof Ha as (_ & Htot & _ & _ & _ & _ & _ & Ho2).
  split_and!.
  - apply counted_merge; [done|]. unfold counted, len.
    by rewrite Htot, (Permutation_length Hperm).
  - intros l Hl. change (l ∈ records a) in Hl. apply Hrec in Hl.
    destruct (Hnew l Hl) as [Hnone _]. split; [done|].
    destruct (tokens_ok_elem _ _ _ Hok Hl) as (d0 & e & Hd0 & He).
    destruct (analysed_field _ _ _ _ _ _ _ _ _ Ha Hl Hd0 He) as [-> _].
    by eexists.
  - intros l d0 Hd0.
    assert (l ∉ ls) as Hnotin.
    { intros Hl. destruct (Hnew l Hl). congruence. }
    rewrite Hout by done. by rewrite Hold.
  - congruence.
Qed.

(** A run that returns has handed at most one report to the mail
    transport, whatever the clock shows. *)
Lemma run_monitoring_outbox cfg w w' :
  Monitor.run_monitoring cfg w = (Ret tt, w') →
  ∃ a,
    counted a ∧
    (∀ l, l ∈ records a → heap w !! l = None ∧ is_Some (field w' l "status")) ∧
    (∀ l d, heap w !! l = Some d → heap w' !! l = Some d) ∧
    (send_all_tokens cfg = true ∨ 0 < len (expired a) + len (expiring_soon a) →
     outbox w' =
     outbox w ++ [Monitor.with_include_all_tokens (send_all_tokens cfg) a]) ∧
    (¬ (send_all_tokens cfg = true ∨
        0 < len (expired a) + len (expiring_soon a)) →
     outbox w' = outbox w).
Proof.
  unfold Monitor.run_monitoring. intros Hrun.
  do 4 (erewrite bind_run in Hrun by reflexivity).
  match type of Hrun with _ ?x = _ => set (w0 := x) in Hrun end.
  destruct (get_personal_access_tokens_run w0) as (ls & w1 & Hfetch & Hfresh & Ho1).
  rewrite (bind_run _ _ _ _ _ Hfetch) in Hrun.
  destruct (TokenAnalyzer.analyze_all_tokens ls (days_threshold cfg) w1)
    as [[pa|e] w2] eqn:Han; cycle 1.
  { by rewrite (bind_raise _ _ _ _ _ Han) in Hrun. }
  rewrite (bind_run _ _ _ _ _ Han) in Hrun.
  pose proof (personal_gathered _ _ _ _ _ _ Hfresh Ho1 Han) as Hg.
  set (acc0 := Monitor._merge_analysis (Analysis [] [] [] [] 0 None) pa) in *.
  erewrite bind_run in Hrun by reflexivity.
  match type of Hrun with _ ?x = _ => set (w3 := x) in Hrun end.
  assert (gathered w acc0 w3) as Hg0 by exact Hg.
  clear Hg.
  assert (∃ acc1 w4,
            gathered w acc1 w4 ∧
            (let* all_token_analysis :=
               if include_group_tokens cfg
               then let* r := Monitor._process_group_tokens cfg acc1 in
                    Monitor.print_stats "Group Access Tokens: " r.2 ;;
                    ret r.1
               else ret acc1
             in Monitor._print_summary_and_notify cfg all_token_analysis) w4
            = (Ret tt, w')) as (acc1 & w4 & Hg1 & Hrun1).
  { destruct (include_project_tokens cfg).
    - destruct (Monitor._process_project_tokens cfg acc0 w3)
        as [[[acc1 stats]|e] w4] eqn:Hpass; cycle 1.
      { erewrite bind_raise in Hrun; [done|].
        by erewrite bind_raise by exact Hpass. }
      destruct (project_pass _ _ _ _ _ _
                  (λ l Hl, gathered_exist _ _ _ _ Hg0 Hl) Hpass) as [Hrounds _].
      erewrite bind_run in Hrun; cycle 1.
      { rewrite (bind_run _ _ _ _ _ Hpass). reflexivity. }
      eexists acc1, _. split; [|exact Hrun].
      eapply (gathered_rounds "project" w acc0 0 w3 acc1 (total stats));
        [exact Hg0|exact Hrounds].
    - exists acc0, w3. split; [done|].
      by erewrite bind_run in Hrun by reflexivity. }
  assert (∃ acc2 w5,
            gathered w acc2 w5 ∧
            Monitor._print_summary_and_notify cfg acc2 w5 = (Ret tt, w'))
    as (acc2 & w5 & Hg2 & Hrun2).
  { destruct (include_group_tokens cfg).
    - destruct (Monitor._process_group_tokens cfg acc1 w4)
        as [[[acc2 stats]|e] w5] eqn:Hpass; cycle 1.
      { erewrite bind_raise in Hrun1; [done|].
        by erewrite bind_raise by exact Hpass. }
      destruct (group_pass _ _ _ _ _ _
                  (λ l Hl, gathered_exist _ _ _ _ Hg1 Hl) Hpass) as [Hrounds _].
      erewrite bind_run in Hrun1; cycle 1.
      { rewrite (bind_run _ _ _ _ _ Hpass). reflexivity. }
      eexists acc2, _. split; [|exact Hrun1].
      eapply (gathered_rounds "group" w acc1 0 w4 acc2 (total stats));
        [exact Hg1|exact Hrounds].
    - exists acc1, w4. split; [done|].
      by erewrite bind_run in Hrun1 by reflexivity. }
  destruct Hg2 as (Hc & Hr & Hf & Ho).
  pose proof (notify_keeps_heap cfg acc2 w5) as Hheap.
  rewrite Hrun2 in Hheap. simpl in Hheap.
  exists acc2. split_and!.
  - done.
  - intros l Hl. destruct (Hr l Hl) as [Hnone Hst]. split; [done|].
    unfold field in *. by rewrite Hheap.
  - intros l d Hd. rewrite Hheap. eauto.
  - intros Hyes. destruct (notify_sends cfg acc2 Hyes w5) as (w6 & Hrun3 & Ho3).
    rewrite Hrun2 in Hrun3. injection Hrun3 as <-. congruence.
  - intros Hno. destruct (notify_quiet cfg acc2 Hno w5) as (w6 & Hrun3 & Ho3).
    rewrite Hrun2 in Hrun3. injection Hrun3 as <-. congruence.
Qed.

End WholeRun.

(** ** What a run reports *)





Section Reports.
Context {parser : IsoParser}.








End Reports.

Section RunReport.
Context {parser : IsoParser}.




End RunReport.

(** * More on the legacy check *)

Section LegacyFrame.
Context {parser : IsoParser}.

(** X18: at one evaluation time the legacy check returns the tokens whose
    expiry parsed and is not after the threshold date, in the order of the
    input; it writes [days_until_expiry] in these and nothing else
    anywhere, so no token gets a [status]; and the row of a returned token
    gets the class "expired" exactly when its expiry is before the
    evaluation time, a token expiring at that very time being a
    "warning". *)
Theorem legacy_check_writes_days_only tokens d w now :
  frozen w now →
  threshold_representable now d →
  tokens_ok (heap w) tokens = true →
  ∃ r w',
    Legacy.check_token_expiration tokens d w = (Ret r, w') ∧
    sublist r tokens ∧
    (∀ l key, key ≠ "days_until_expiry" → field w' l key = field w l key) ∧
    (∀ l, l ∉ r → heap w' !! l = heap w !! l) ∧
    (∀ l tok, l ∈ tokens → heap w !! l = Some tok →
       (l ∈ r ↔ ∃ t, expiry_of tok = Some (ExpiresAt t) ∧
                     t <= now + d * usec_per_day)) ∧
    (∀ l tok t, l ∈ r → heap w !! l = Some tok →
       expiry_of tok = Some (ExpiresAt t) →
       field w' l "days_until_expiry" = Some (PInt ((t - now) / usec_per_day)) ∧
       (Legacy.status_class ((t - now) / usec_per_day) = "expired" ↔ t < now)).
Proof.
  intros Hnow Hthr Hok.
  destruct (check_token_expiration_run tokens d w now Hnow Hthr Hok)
    as (w' & Hrun & Hh).
  set (thr := now + d * usec_per_day) in *.
  assert (∀ l tok, heap w !! l = Some tok →
            (soon_at thr (heap w) l = true ↔
             ∃ t, expiry_of tok = Some (ExpiresAt t) ∧ t <= thr)) as Hsoon.
  { intros l tok Htok. unfold soon_at. rewrite Htok.
    destruct (expiry_of tok) as [[| |t]|]; simpl.
    - split; [done|by intros (? & ? & ?)].
    - split; [done|by intros (? & ? & ?)].
    - rewrite Z.leb_le. split; [by eauto|]. by intros (t' & [= <-] & ?).
    - split; [done|by intros (? & ? & ?)]. }
  eexists _, w'. split_and!; [exact Hrun|apply sublist_filter| | | |].
  - intros l key Hkey. unfold field. rewrite Hh.
    destruct (decide (l ∈ tokens)) as [Hin|]; [|done].
    destruct (heap w !! l) as [tok|]; [|done]. simpl.
    unfold legacy_stamp. destruct (expiry_of tok) as [e|]; [|done].
    destruct (is_soon thr e); [|done]. by rewrite lookup_insert_ne.
  - intros l Hl. rewrite Hh. destruct (decide (l ∈ tokens)) as [Hin|]; [|done].
    destruct (heap w !! l) as [tok|] eqn:Htok; [|done]. simpl. f_equal.
    assert (soon_at thr (heap w) l ≠ true) as Hnot.
    { intros Hs. apply Hl. by apply list_elem_of_filter. }
    unfold soon_at in Hnot. rewrite Htok in Hnot.
    unfold legacy_stamp. destruct (expiry_of tok) as [e|]; [|done].
    simpl in Hnot. by destruct (is_soon thr e).
  - intros l tok Hl Htok. rewrite list_elem_of_filter, (Hsoon l tok Htok).
    tauto.
  - intros l tok t [Hs Hl]%list_elem_of_filter Htok He.
    apply (Hsoon l tok Htok) in Hs as (t' & He' & Ht').
    rewrite He in He'. injection He' as <-. split.
    + unfold field. rewrite Hh, decide_True, Htok by done. simpl.
      unfold legacy_stamp. rewrite He. simpl.
      rewrite (proj2 (Z.leb_le _ _) Ht'). apply lookup_insert_eq.
    + unfold Legacy.status_class, usec_per_day.
      pose proof (Z.div_mod (t - now) 86400000000 ltac:(done)).
      pose proof (Z.mod_pos_bound (t - now) 86400000000 ltac:(done)).
      destruct (Z.ltb_spec ((t - now) / 86400000000) 0);
        split; try done; lia.
Qed.

End LegacyFrame.

(** * Pagination *)

Lemma paginate_run message answer pages : ∀ fuel page items w,
  (∀ i p, pages !! i = Some p →
          answer (page + Z.of_nat i) = Some p ∧ p ≠ []) →
  default [] (answer (page + len pages)) = [] →
  (length pages < fuel)%nat →
  GitLabAPI.paginate message answer fuel page items w =
  (Ret (Some (items ++ concat pages)),
   match answer (page + len pages) with
   | Some _ => w
   | None => printed [Lit message; Exc RequestException] w
   end).
Proof.
  induction pages as [|p rest IH]; intros fuel page items w Hpages Hlast Hfuel.
  - destruct fuel as [|fuel]; [simpl in Hfuel; lia|].
    simpl. unfold len in *. simpl in *. rewrite Z.add_0_r in *.
    rewrite app_nil_r.
    destruct (answer page) as [[|x xs]|]; [done|done|done].
  - destruct fuel as [|fuel]; [simpl in Hfuel; lia|].
    destruct (Hpages 0%nat p) as [Hp Hne]; [done|].
    simpl in Hp. rewrite Z.add_0_r in Hp.
    simpl. rewrite Hp. destruct p as [|x xs]; [done|].
    rewrite IH.
    + rewrite <- app_assoc. unfold len. simpl length.
      by replace (page + 1 + Z.of_nat (length rest))
        with (page + Z.of_nat (S (length rest))) by lia.
    + intros i q Hq. destruct (Hpages (S i) q) as [Hans Hq']; [done|].
      split; [|done]. rewrite <- Hans. f_equal. lia.
    + unfold len in *. simpl length in Hlast.
      by replace (page + 1 + Z.of_nat (length rest))
        with (page + Z.of_nat (S (length rest))) by lia.
    + simpl in Hfuel. lia.
Qed.

(** X19: when the server answers the pages [1 .. k] with non-empty lists
    and page [k + 1] with an empty list, [get_all_projects] returns the
    concatenation of the [k] pages after [k + 1] requests and prints
    nothing; when the request for page [k + 1] fails instead, it returns
    the same list, the pages fetched so far, and prints one line.  The
    same for [get_all_groups]. *)
Theorem pagination_collects_pages answer pages fuel w :
  (∀ i p, pages !! i = Some p →
          answer (1 + Z.of_nat i) = Some p ∧ p ≠ []) →
  default [] (answer (1 + len pages)) = [] →
  (length pages < fuel)%nat →
  GitLabAPI.get_all_projects_pages answer fuel w =
    (Ret (Some (concat pages)),
     match answer (1 + len pages) with
     | Some _ => w
     | None => printed [Lit "Error fetching projects: "; Exc RequestException] w
     end) ∧
  GitLabAPI.get_all_groups_pages answer fuel w =
    (Ret (Some (concat pages)),
     match answer (1 + len pages) with
     | Some _ => w
     | None => printed [Lit "Error fetching groups: "; Exc RequestException] w
     end).
Proof.
  intros Hpages Hlast Hfuel.
  unfold GitLabAPI.get_all_projects_pages, GitLabAPI.get_all_groups_pages.
  by rewrite !(paginate_run _ answer pages).
Qed.

(** X20: the loop ends only at an empty page or a failed request: against
    a server that answers every page with a non-empty list (one that
    ignores the [page] parameter, say) no number of requests is enough. *)
Theorem pagination_needs_an_empty_page answer fuel w :
  (∀ page, 1 <= page → ∃ x xs, answer page = Some (x :: xs)) →
  GitLabAPI.get_all_projects_pages answer fuel w = (Ret None, w) ∧
  GitLabAPI.get_all_groups_pages answer fuel w = (Ret None, w).
Proof.
  intros Hfull.
  assert (∀ message fuel page items, 1 <= page →
            GitLabAPI.paginate message answer fuel page items w = (Ret None, w))
    as Hloop.
  { intros message. clear fuel. induction fuel as [|fuel IH];
      intros page items Hpage; [done|].
    simpl. destruct (Hfull page Hpage) as (x & xs & ->).
    apply IH. lia. }
  split; by apply Hloop.
Qed.

(** * The threshold *)

Lemma sublist_filter_impl {A} (P Q : A → Prop)
    `{∀ x, Decision (P x)} `{∀ x, Decision (Q x)} (l : list A) :
  (∀ x, x ∈ l → P x → Q x) → filter P l `sublist_of` filter Q l.
Proof.
  induction l as [|x rest IH]; intros Himpl; [done|].
  rewrite !filter_cons.
  assert (filter P rest `sublist_of` filter Q rest) as Hrest.
  { apply IH. intros y Hy. apply Himpl. by right. }
  destruct (decide (P x)) as [HP|HP].
  - rewrite decide_True by (apply Himpl; [by left|done]).
    by apply sublist_skip.
  - destruct (decide (Q x)); [by apply sublist_cons|done].
Qed.

Section Threshold.
Context {parser : IsoParser}.

(** X21: with a threshold of zero days or less no token is ever expiring
    soon: at one evaluation instant the [expiring_soon] bucket of every
    result is empty, and no token has the status "Expiring Soon". *)
Theorem no_expiring_soon_without_threshold tokens d w now a w' :
  d <= 0 →
  frozen w now →
  TokenAnalyzer.analyze_all_tokens tokens d w = (Ret a, w') →
  expiring_soon a = [] ∧
  ∀ l, l ∈ tokens → field w' l "status" ≠ Some (PStr "Expiring Soon").
Proof.
  intros Hd Hnow Hrun. apply analyze_all_tokens_inv in Hrun as (_ & Hok & Ha).
  unfold threshold_date_of, current_date_of in Ha.
  rewrite (Hnow (ticks w)), (Hnow (S (ticks w))) in Ha.
  assert (∀ e, category_of (now + d * usec_per_day) now e ≠ ExpiringSoon ∧
               status_of (now + d * usec_per_day) now e ≠ PStr "Expiring Soon")
    as Hnever.
  { intros [| |t]; simpl; [done|done|]. unfold usec_per_day.
    destruct (Z.leb_spec t now); [done|].
    destruct (Z.leb_spec t (now + d * 86400000000)); [lia|done]. }
  split.
  - destruct Ha as (Hb & _). specialize (Hb ExpiringSoon). simpl in Hb.
    rewrite Hb. apply filter_none. intros l Hl. unfold category_at.
    destruct (heap w !! l) as [tok|]; [|done].
    destruct (expiry_of tok) as [e|]; [|done]. simpl.
    intros [= He]. by destruct (Hnever e) as [Hc _].
  - intros l Hl. destruct (tokens_ok_elem _ _ _ Hok Hl) as (d0 & e & Hd0 & He).
    destruct (analysed_field _ _ _ _ _ _ _ _ _ Ha Hl Hd0 He) as [-> _].
    intros [= Hst]. by destruct (Hnever e) as [_ Hs].
Qed.

(** X22: raising the threshold only moves tokens from healthy to expiring
    soon: for two calls on the same tokens in the same world, at one
    evaluation instant, with thresholds [d <= d'], the expired and the
    no_expiration buckets are the same, the expiring_soon bucket of the
    first is a sublist of that of the second, and the healthy bucket of the
    second a sublist of that of the first. *)
Theorem threshold_is_monotone tokens d d' w now a1 w1 a2 w2 :
  d <= d' →
  frozen w now →
  TokenAnalyzer.analyze_all_tokens tokens d w = (Ret a1, w1) →
  TokenAnalyzer.analyze_all_tokens tokens d' w = (Ret a2, w2) →
  expired a1 = expired a2 ∧
  no_expiration a1 = no_expiration a2 ∧
  expiring_soon a1 `sublist_of` expiring_soon a2 ∧
  healthy a2 `sublist_of` healthy a1.
Proof.
  intros Hd Hnow Hrun1 Hrun2.
  apply analyze_all_tokens_inv in Hrun1 as (_ & _ & (Hb1 & _)).
  apply analyze_all_tokens_inv in Hrun2 as (_ & _ & (Hb2 & _)).
  unfold threshold_date_of, current_date_of in *.
  rewrite (Hnow (ticks w)), (Hnow (S (ticks w))) in *.
  pose proof (Hb1 Expired) as E1. pose proof (Hb2 Expired) as E2.
  pose proof (Hb1 NoExpiration) as N1. pose proof (Hb2 NoExpiration) as N2.
  pose proof (Hb1 ExpiringSoon) as S1. pose proof (Hb2 ExpiringSoon) as S2.
  pose proof (Hb1 Healthy) as H1. pose proof (Hb2 Healthy) as H2.
  simpl in E1, E2, N1, N2, S1, S2, H1, H2.
  rewrite E1, E2, N1, N2, S1, S2, H1, H2.
  assert (∀ e,
    (category_of (now + d * usec_per_day) now e = Expired ↔
     category_of (now + d' * usec_per_day) now e = Expired) ∧
    (category_of (now + d * usec_per_day) now e = NoExpiration ↔
     category_of (now + d' * usec_per_day) now e = NoExpiration) ∧
    (category_of (now + d * usec_per_day) now e = ExpiringSoon →
     category_of (now + d' * usec_per_day) now e = ExpiringSoon) ∧
    (category_of (now + d' * usec_per_day) now e = Healthy →
     category_of (now + d * usec_per_day) now e = Healthy)) as Hcat.
  { intros [| |t]; simpl; [done|done|]. unfold usec_per_day.
    destruct (Z.leb_spec t now); [done|].
    destruct (Z.leb_spec t (now + d * 86400000000));
      destruct (Z.leb_spec t (now + d' * 86400000000)); try done; lia. }
  assert (∀ c c' thr thr',
    (∀ e, category_of thr now e = c → category_of thr' now e = c') →
    ∀ l, category_at thr now (heap w) l = Some c →
         category_at thr' now (heap w) l = Some c') as Hlift.
  { intros c c' thr thr' Himpl l. unfold category_at.
    destruct (heap w !! l) as [tok|]; [|done].
    destruct (expiry_of tok) as [e|]; [|done]. simpl.
    intros [= He]. f_equal. by apply Himpl. }
  split_and!.
  - apply filter_ext_elem. intros l _.
    split; apply Hlift; intros e; apply (Hcat e).
  - apply filter_ext_elem. intros l _.
    split; apply Hlift; intros e; apply (Hcat e).
  - apply sublist_filter_impl. intros l _.
    apply Hlift. intros e. apply (Hcat e).
  - apply sublist_filter_impl. intros l _.
    apply Hlift. intros e. apply (Hcat e).
Qed.

End Threshold.

(** * More concrete runs *)

Lemma sample_tokens_exist t :
  t ∈ sample_tokens → is_Some (heap sample_world !! t).
Proof.
  intros Ht.
  repeat (apply elem_of_cons in Ht as [->|Ht]; [by eexists|]).
  by apply elem_of_nil in Ht.
Defined.

Lemma group_tokens_by_type_disjoint_witness :
  ∃ g,
    TokenAnalyzer.group_tokens_by_type sample_tokens sample_world =
      (Ret g, sample_world) ∧
    sublist (personal g) sample_tokens ∧
    ∀ t, t ∈ project g → (t ∉ group g).
Proof.
  destruct (group_tokens_by_type_disjoint sample_tokens sample_world
              sample_tokens_exist)
    as (g & Hrun & Hs & _ & _ & _ & _ & _ & _ & Hd).
  by exists g.
Defined.

Lemma group_tokens_by_type_leftover_witness :
  ∃ g,
    TokenAnalyzer.group_tokens_by_type sample_tokens sample_world =
      (Ret g, sample_world) ∧
    (5%positive ∉ personal g) ∧ (5%positive ∉ project g) ∧
    (5%positive ∉ group g).
Proof.
  destruct (group_tokens_by_type_leftover sample_tokens sample_world 5%positive
              sample_tokens_exist)
    as (g & Hrun & Hiff).
  - vm_compute. do 4 right. left.
  - exists g. split; [exact Hrun|]. apply Hiff.
    split_and!; [discriminate|discriminate|left; reflexivity].
Defined.

Lemma fetchers_swallow_request_errors_witness :
  (GitLabAPI.get_personal_access_tokens sample_world).1 = Ret [] ∧
  (GitLabAPI.get_project_access_tokens (PInt 42) sample_world).1 = Ret [] ∧
  (GitLabAPI.get_group_access_tokens (PInt 7) sample_world).1 = Ret [].
Proof.
  destruct (fetchers_swallow_request_errors sample_world (PInt 42) (PInt 7))
    as (H1 & H2 & H3).
  split_and!.
  - rewrite H1 by reflexivity. reflexivity.
  - rewrite H2 by reflexivity. reflexivity.
  - rewrite H3 by reflexivity. reflexivity.
Defined.

Lemma fetchers_build_new_records_witness :
  (∃ ls w',
     GitLabAPI.get_personal_access_tokens echo_world = (Ret ls, w') ∧
     fresh_batch ls echo_world w' ∧ NoDup ls) ∧
  (∃ ls w',
     GitLabAPI.get_project_access_tokens (PInt 42) echo_world = (Ret ls, w') ∧
     fresh_batch ls echo_world w' ∧ NoDup ls) ∧
  (∃ ls w',
     GitLabAPI.get_group_access_tokens (PInt 7) echo_world = (Ret ls, w') ∧
     fresh_batch ls echo_world w' ∧ NoDup ls).
Proof.
  destruct (fetchers_build_new_records echo_world (PInt 42) (PInt 7) echo_objects)
    as (H1 & H2 & H3).
  split_and!.
  - destruct H1 as (ls & w' & Hrun & Hf & _ & Hnd & _); [reflexivity|].
    by exists ls, w'.
  - destruct H2 as (ls & w' & Hrun & Hf & _ & Hnd & _); [reflexivity|].
    by exists ls, w'.
  - destruct H3 as (ls & w' & Hrun & Hf & _ & Hnd & _); [reflexivity|].
    by exists ls, w'.
Defined.

Lemma analyze_all_tokens_writes_two_fields_witness :
  field sample_run.2 1%positive "expires_at" =
    Some (PStr "2024-01-08T00:00:00") ∧
  ticks sample_run.2 = 2%nat.
Proof.
  destruct (@analyze_all_tokens_writes_two_fields Iso8601.parse sample_tokens 7
              sample_world sample_analysis sample_run.2 sample_run_eq)
    as (Hk & _ & _ & Ht & _).
  split; [|exact Ht].
  rewrite Hk by discriminate. vm_compute. reflexivity.
Defined.

Lemma analyze_all_tokens_overflows_first_witness :
  (@TokenAnalyzer.analyze_all_tokens Iso8601.parse sample_tokens 4000000
     sample_world).1 = Raise OverflowError.
Proof.
  rewrite (@analyze_all_tokens_overflows_first Iso8601.parse sample_tokens
             4000000 sample_world); [reflexivity|].
  intros (_ & _ & H). vm_compute in H. apply H. reflexivity.
Defined.

Lemma analyze_all_tokens_stops_at_unreadable_witness :
  ∃ w',
    @TokenAnalyzer.analyze_all_tokens Iso8601.parse [1; 2; 8; 3]%positive 7
      unreadable_world = (Raise (AttributeError "replace"), w') ∧
    is_Some (field w' 1%positive "status") ∧
    heap w' !! 3%positive = heap unreadable_world !! 3%positive.
Proof.
  destruct (@analyze_all_tokens_stops_at_unreadable Iso8601.parse
              [1; 2]%positive 8%positive [3%positive] 7 unreadable_world
              {[ "expires_at" := PInt 20240108 ]})
    as (w' & Hrun & Hst & Hout & _).
  - vm_compute. split; [discriminate|split; discriminate].
  - vm_compute. reflexivity.
  - vm_compute. reflexivity.
  - vm_compute. reflexivity.
  - exists w'. split_and!.
    + exact Hrun.
    + apply Hst. left.
    + apply Hout. intros Hl.
      apply elem_of_cons in Hl as [?|Hl]; [done|].
      apply elem_of_cons in Hl as [?|Hl]; [done|].
      by apply elem_of_nil in Hl.
Defined.

Lemma status_names_bucket_witness :
  field sample_run.2 3%positive "status" = Some (PStr "Expired").
Proof.
  destruct (@status_names_bucket Iso8601.parse sample_tokens 7 sample_world
              sample_analysis sample_run.2 3%positive sample_run_eq)
    as (H & _).
  - vm_compute. do 2 right. left.
  - apply H. vm_compute. left.
Defined.

Lemma days_until_expiry_by_bucket_witness :
  ∃ n, field sample_run.2 7%positive "days_until_expiry" = Some (PInt n) ∧
       0 <= n <= 7.
Proof.
  destruct (@days_until_expiry_by_bucket Iso8601.parse sample_tokens 7
              sample_world sample_now sample_analysis sample_run.2 7%positive
              sample_run_eq)
    as (_ & H & _).
  - intros k. reflexivity.
  - vm_compute. do 6 right. left.
  - apply H. vm_compute. right. left.
Defined.

Lemma analyze_all_tokens_again_witness :
  ∃ w2,
    @TokenAnalyzer.analyze_all_tokens Iso8601.parse sample_tokens 7 sample_run.2
      = (Ret sample_analysis, w2) ∧
    heap w2 = heap sample_run.2.
Proof.
  apply (@analyze_all_tokens_again Iso8601.parse sample_tokens 7 sample_world
           sample_now sample_analysis sample_run.2).
  - intros k. reflexivity.
  - exact sample_run_eq.
Defined.

Lemma summary_counts_add_up_witness :
  counted sample_analysis ∧
  0 <= problematic_count (TokenAnalyzer.get_summary_stats sample_analysis)
    <= total_tokens (TokenAnalyzer.get_summary_stats sample_analysis).
Proof.
  destruct (@summary_counts_add_up Iso8601.parse) as (H1 & _ & _ & H4).
  pose proof (H1 _ _ _ _ _ sample_run_eq) as Hc.
  destruct (H4 _ Hc) as [_ Hprob]. by split.
Defined.


Lemma scope_missing_key_raises_witness :
  (@Monitor.process_project Iso8601.parse sample_config ∅
     (empty_analysis, 0) served_world).1 = Raise (KeyError "id") ∧
  ∃ w',
    @Monitor.process_project Iso8601.parse sample_config nameless_project
      (empty_analysis, 0) served_world = (Raise (KeyError "name"), w').
Proof.
  destruct (@scope_missing_key_raises Iso8601.parse sample_config
              empty_analysis 0 served_world)
    as (H1 & H2 & _).
  split.
  - destruct (H1 ∅) as [Hp _]; [reflexivity|]. by rewrite Hp.
  - edestruct (H2 nameless_project (PInt 42)) as (w' & Hrun & _).
    + reflexivity.
    + reflexivity.
    + reflexivity.
    + vm_compute. split; [discriminate|split; discriminate].
    + constructor; [reflexivity|].
      constructor; [reflexivity|]. constructor.
    + by exists w'.
Defined.

Lemma sample_project_pass_eq :
  @Monitor._process_project_tokens Iso8601.parse sample_config
    empty_analysis served_world =
  (Ret (sample_project_acc, sample_project_stats), sample_project_pass.2).
Proof. vm_compute. reflexivity. Defined.

Lemma project_statistics_witness :
  total sample_project_stats =
    total_count sample_project_acc - total_count empty_analysis ∧
  total sample_project_stats =
    expired_of_scope sample_project_stats + expiring sample_project_stats
    + healthy_of_scope sample_project_stats + permanent sample_project_stats.
Proof.
  destruct (@project_statistics Iso8601.parse sample_config empty_analysis
              served_world sample_project_acc sample_project_stats
              sample_project_pass.2)
    as (_ & Ht & _ & Hsum & _).
  - intros l Hl. by apply elem_of_nil in Hl.
  - exact sample_project_pass_eq.
  - split; [exact Ht|]. apply Hsum. intros l Hl. by apply elem_of_nil in Hl.
Defined.

Lemma sample_group_pass_eq :
  @Monitor._process_group_tokens Iso8601.parse sample_config
    empty_analysis served_world =
  (Ret (sample_group_acc, sample_group_stats), sample_group_pass.2).
Proof. vm_compute. reflexivity. Defined.

Lemma group_statistics_witness :
  total sample_group_stats =
    total_count sample_group_acc - total_count empty_analysis ∧
  total sample_group_stats =
    expired_of_scope sample_group_stats + expiring sample_group_stats
    + healthy_of_scope sample_group_stats + permanent sample_group_stats.
Proof.
  destruct (@group_statistics Iso8601.parse sample_config empty_analysis
              served_world sample_group_acc sample_group_stats
              sample_group_pass.2)
    as (_ & Ht & _ & Hsum & _).
  - intros l Hl. by apply elem_of_nil in Hl.
  - exact sample_group_pass_eq.
  - split; [exact Ht|]. apply Hsum. intros l Hl. by apply elem_of_nil in Hl.
Defined.


Lemma legacy_check_writes_days_only_witness :
  ∃ r w',
    @Legacy.check_token_expiration Iso8601.parse sample_tokens 7 sample_world
      = (Ret r, w') ∧
    sublist r sample_tokens ∧
    ∀ l, field w' l "status" = field sample_world l "status".
Proof.
  destruct (@legacy_check_writes_days_only Iso8601.parse sample_tokens 7
              sample_world sample_now)
    as (r & w' & Hrun & Hsub & Hkeep & _).
  - intros k. reflexivity.
  - vm_compute. split; [discriminate|split; discriminate].
  - vm_compute. reflexivity.
  - exists r, w'. split_and!; [exact Hrun|exact Hsub|].
    intros l. apply Hkeep. discriminate.
Defined.

Lemma pagination_collects_pages_witness :
  GitLabAPI.get_all_projects_pages sample_pages 5 sample_world =
  (Ret (Some [sample_project; sample_group]), sample_world).
Proof.
  destruct (pagination_collects_pages sample_pages
              [[sample_project]; [sample_group]] 5 sample_world)
    as [H _].
  - intros i p Hp. destruct i as [|[|i]]; simpl in Hp.
    + injection Hp as <-. split; [reflexivity|discriminate].
    + injection Hp as <-. split; [reflexivity|discriminate].
    + discriminate.
  - reflexivity.
  - simpl. lia.
  - exact H.
Defined.

Lemma pagination_needs_an_empty_page_witness :
  GitLabAPI.get_all_projects_pages endless_pages 1000 sample_world =
  (Ret None, sample_world).
Proof.
  destruct (pagination_needs_an_empty_page endless_pages 1000 sample_world)
    as [H _].
  - intros page _. eexists _, _. reflexivity.
  - exact H.
Defined.

Lemma sample_run_0_eq :
  @TokenAnalyzer.analyze_all_tokens Iso8601.parse sample_tokens 0 sample_world =
  (Ret sample_analysis_0, sample_run_0.2).
Proof. vm_compute. reflexivity. Defined.

Lemma no_expiring_soon_without_threshold_witness :
  expiring_soon sample_analysis_0 = [] ∧
  field sample_run_0.2 7%positive "status" ≠ Some (PStr "Expiring Soon").
Proof.
  destruct (@no_expiring_soon_without_threshold Iso8601.parse sample_tokens 0
              sample_world sample_now sample_analysis_0 sample_run_0.2)
    as [H Hst].
  - lia.
  - intros k. reflexivity.
  - exact sample_run_0_eq.
  - split; [exact H|]. apply Hst. vm_compute. do 6 right. left.
Defined.

Lemma threshold_is_monotone_witness :
  expired sample_analysis_0 = expired sample_analysis ∧
  expiring_soon sample_analysis_0 `sublist_of` expiring_soon sample_analysis ∧
  healthy sample_analysis `sublist_of` healthy sample_analysis_0.
Proof.
  destruct (@threshold_is_monotone Iso8601.parse sample_tokens 0 7 sample_world
              sample_now sample_analysis_0 sample_run_0.2
              sample_analysis sample_run.2)
    as (He & _ & Hs & Hh).
  - lia.
  - intros k. reflexivity.
  - exact sample_run_0_eq.
  - exact sample_run_eq.
  - by split_and!.
Defined.
